(** * F1 Strategy Agent: the strategy parser and the race simulation engine

    A shallow embedding of [parseStrategyDSL] (lib/dsl/parseStrategy.ts) and
    [simulateRace] (lib/simulate/simulateRace.ts), and the properties the
    specification states about them.

    Numbers.  A JavaScript number that the program only ever uses as an
    integer (lap counts, positions, stint numbers, years) is a [Z]; every
    other number is an IEEE 754 binary64 value, Rocq's primitive [float],
    whose [+ - * /] and comparisons are the ones JavaScript performs.  An
    integer that enters a floating-point expression goes through [JS.of_Z],
    the correctly rounded conversion (exact below 2^53).  The integers are
    exact: JavaScript holds them in binary64 too, so the model is the
    program on integers below 2^53 in absolute value; above, JavaScript
    rounds what [parseInt] reads and what an addition gives, and prints in
    exponent form from 10^21 on.

    Strings.  A JavaScript string is a [string] holding the bytes of its
    UTF-8 encoding, so that an ASCII character is one byte and is itself.
    The model is the program on ASCII text.  It carries the bytes of any
    other character through unchanged: it maps the case of the ASCII letters
    only and takes only the ASCII white space for white space, where
    JavaScript also maps the case of other letters and also trims and
    matches with [\s] the no-break space and the other Unicode spaces. *)

From Stdlib Require Import ZArith Floats List String Ascii Bool Lia DecimalString.
Import ListNotations.

#[local] Set Warnings "-inexact-float".

#[local] Open Scope bool_scope.
#[local] Open Scope string_scope.
#[local] Open Scope Z_scope.

(* ------------------------------------------------------------------------- *)
(** ** JavaScript numbers *)

Module JS.

(** The binary64 value nearest to the integer [z] (ties to even). *)
Definition of_Z (z : Z) : float :=
  SF2Prim (binary_normalize prec emax z 0 false).

(** [Math.floor] of a finite value, read back as an integer.  The program
    applies it to one expression only, whose value is finite (see
    [firstLapGain_range]); on NaN and the infinities the model answers 0. *)
Definition floor (x : float) : Z :=
  match Prim2SF x with
  | S754_finite s m e => Z.shiftl (if s then Z.neg m else Z.pos m) e
  | _ => 0
  end.

(** [Math.min] and [Math.max] on two numbers: NaN is contagious and
    [-0] is below [+0]. *)
Definition min (a b : float) : float :=
  if is_nan a || is_nan b then nan
  else if (a <? b)%float then a
  else if (b <? a)%float then b
  else if get_sign a then a else b.

Definition max (a b : float) : float :=
  if is_nan a || is_nan b then nan
  else if (a <? b)%float then b
  else if (b <? a)%float then a
  else if get_sign a then b else a.

(** [Math.min(...xs)] and [Math.max(...xs)]. *)
Definition min_list (xs : list float) : float := fold_left min xs infinity.
Definition max_list (xs : list float) : float := fold_left max xs neg_infinity.

(** [xs.reduce((a, b) => a + b, 0)]. *)
Definition sum_list (xs : list float) : float :=
  fold_left (fun a b => (a + b)%float) xs 0%float.

(** [a > b] on numbers. *)
Definition gtb (a b : float) : bool := (b <? a)%float.

(** A number inside a template literal; the program interpolates
    integers only. *)
Definition show (z : Z) : string := NilZero.string_of_int (Z.to_int z).

End JS.

(* ------------------------------------------------------------------------- *)
(** ** Domain types (lib/types.ts) *)

Inductive Weather := cool | normal | hot | wet.
Inductive PaceClass := front_runner | midfield | backmarker.
Inductive OvertakingDifficulty := easy | medium | hard.
Inductive RiskProfile := conservative | balanced | aggressive.
Inductive TireCompound := SOFT | MEDIUM | HARD | INTERMEDIATE | WET.
Inductive AeroClassification := downforce_reliant | drag_reliant | aero_balanced.

Definition Weather_eqb (a b : Weather) : bool :=
  match a, b with
  | cool, cool | normal, normal | hot, hot | wet, wet => true
  | _, _ => false
  end.

Definition PaceClass_eqb (a b : PaceClass) : bool :=
  match a, b with
  | front_runner, front_runner | midfield, midfield | backmarker, backmarker => true
  | _, _ => false
  end.

Definition OvertakingDifficulty_eqb (a b : OvertakingDifficulty) : bool :=
  match a, b with
  | easy, easy | medium, medium | hard, hard => true
  | _, _ => false
  end.

Definition RiskProfile_eqb (a b : RiskProfile) : bool :=
  match a, b with
  | conservative, conservative | balanced, balanced | aggressive, aggressive => true
  | _, _ => false
  end.

Definition TireCompound_eqb (a b : TireCompound) : bool :=
  match a, b with
  | SOFT, SOFT | MEDIUM, MEDIUM | HARD, HARD
  | INTERMEDIATE, INTERMEDIATE | WET, WET => true
  | _, _ => false
  end.

Definition AeroClassification_eqb (a b : AeroClassification) : bool :=
  match a, b with
  | downforce_reliant, downforce_reliant | drag_reliant, drag_reliant
  | aero_balanced, aero_balanced => true
  | _, _ => false
  end.

(** The text of each enumeration value, as the program spells it. *)
Definition Weather_text (w : Weather) : string :=
  match w with cool => "cool" | normal => "normal" | hot => "hot" | wet => "wet" end.

Definition PaceClass_text (p : PaceClass) : string :=
  match p with
  | front_runner => "front_runner" | midfield => "midfield" | backmarker => "backmarker"
  end.

Definition OvertakingDifficulty_text (d : OvertakingDifficulty) : string :=
  match d with easy => "easy" | medium => "medium" | hard => "hard" end.

Definition RiskProfile_text (r : RiskProfile) : string :=
  match r with
  | conservative => "conservative" | balanced => "balanced" | aggressive => "aggressive"
  end.

Definition TireCompound_text (t : TireCompound) : string :=
  match t with
  | SOFT => "SOFT" | MEDIUM => "MEDIUM" | HARD => "HARD"
  | INTERMEDIATE => "INTERMEDIATE" | WET => "WET"
  end.

Definition AeroClassification_text (a : AeroClassification) : string :=
  match a with
  | downforce_reliant => "downforce_reliant" | drag_reliant => "drag_reliant"
  | aero_balanced => "balanced"
  end.

Record RaceConfig := {
  trackName : string;
  totalLaps : Z;
  weather : Weather;
  fieldSize : Z
}.

Record CarProfile := {
  startingGridPosition : Z;
  paceClass : PaceClass;
  riskProfile : RiskProfile;
  targetMinPosition : option Z
}.

Record CriticalTurn := {
  turnNumber : Z;
  turn_name : string;
  riskTags : list string;
  note : string
}.

Record PreviousWinnerStint := {
  pw_tireCompound : TireCompound;
  pw_laps : Z
}.

Record PreviousWinnerStrategy := {
  year : Z;
  pw_label : string;
  pw_stints : list PreviousWinnerStint
}.

Record TrackProfile := {
  aeroClassification : AeroClassification;
  overtakingDifficulty : OvertakingDifficulty;
  overtakingChance : float;
  criticalTurns : list CriticalTurn;
  previousWinnerStrategy : option PreviousWinnerStrategy
}.

Record Stint := {
  stintNumber : Z;
  tireCompound : TireCompound;
  lapsInStint : Z
}.

Record Strategy := {
  label : string;
  stints : list Stint
}.

Record ParsedDSL := {
  raceConfig : RaceConfig;
  carProfile : CarProfile;
  trackProfile : TrackProfile;
  strategy : Strategy
}.

Inductive LapEvent := pit_stop | overtake | overtaken | start.

Record LapData := {
  lapNumber : Z;
  lap_stintNumber : Z;
  lap_tireCompound : TireCompound;
  lapTime : float;
  tireWear : float;
  lap_fuelLoad : float;
  trafficPenalty : float;
  position : Z;
  event : option LapEvent;
  eventDetail : option string
}.

Record StintMetrics := {
  sm_stintNumber : Z;
  sm_tireCompound : TireCompound;
  sm_totalLaps : Z;
  avgLapTime : float;
  bestLapTime : float;
  worstLapTime : float;
  totalDegradationLoss : float;
  sm_pitTimeLoss : float;
  startPosition : Z;
  endPosition : Z
}.

Inductive WarningType := w_tire | w_strategy | w_traffic | w_track | w_weather.
Inductive Severity := low | sev_medium | high | critical.

Record SimulationWarning := {
  w_type : WarningType;
  severity : Severity;
  message : string;
  detail : option string
}.

Record RaceProfileSummary := {
  overtakingChanceSummary : string;
  rp_aeroClassification : AeroClassification;
  aeroDescription : string;
  previousWinnerSummary : option string;
  criticalTurnsSummary : list string
}.

Record PositionRange := { range_min : Z; range_max : Z }.

Record SimulationResult := {
  totalRaceTime : float;
  predictedFinishPosition : Z;
  predictedPositionRange : PositionRange;
  positionsGained : Z;
  probabilityOfPoints : float;
  probabilityOfBeatingStartPosition : float;
  stintMetrics : list StintMetrics;
  lapData : list LapData;
  warnings : list SimulationWarning;
  raceProfile : RaceProfileSummary;
  strategyLabel : string;
  totalPitStops : Z;
  totalPitTimeLoss : float;
  res_raceConfig : RaceConfig;
  res_carProfile : CarProfile;
  res_strategy : Strategy
}.

(* ------------------------------------------------------------------------- *)
(** ** Strings *)

Definition is_upper (c : ascii) : bool :=
  let n := nat_of_ascii c in (65 <=? n)%nat && (n <=? 90)%nat.

Definition is_lower (c : ascii) : bool :=
  let n := nat_of_ascii c in (97 <=? n)%nat && (n <=? 122)%nat.

Definition is_digit (c : ascii) : bool :=
  let n := nat_of_ascii c in (48 <=? n)%nat && (n <=? 57)%nat.

(** [\s], and what [trim] removes, among the ASCII characters: tab, LF, VT,
    FF, CR and space. *)
Definition is_space (c : ascii) : bool :=
  let n := nat_of_ascii c in
  ((9 <=? n)%nat && (n <=? 13)%nat) || (n =? 32)%nat.

(** [\w]. *)
Definition is_word (c : ascii) : bool :=
  is_upper c || is_lower c || is_digit c || (nat_of_ascii c =? 95)%nat.

(** The case mapping of the ASCII letters; any other byte is left alone. *)
Definition upper_ascii (c : ascii) : ascii :=
  if is_lower c then ascii_of_nat (nat_of_ascii c - 32) else c.

Definition lower_ascii (c : ascii) : ascii :=
  if is_upper c then ascii_of_nat (nat_of_ascii c + 32) else c.

Fixpoint map_string (f : ascii -> ascii) (s : string) : string :=
  match s with
  | EmptyString => EmptyString
  | String c s' => String (f c) (map_string f s')
  end.

Definition toUpperCase : string -> string := map_string upper_ascii.
Definition toLowerCase : string -> string := map_string lower_ascii.

Fixpoint filter_string (p : ascii -> bool) (s : string) : string :=
  match s with
  | EmptyString => EmptyString
  | String c s' => if p c then String c (filter_string p s') else filter_string p s'
  end.

(** A template literal is the concatenation of its pieces. *)
Definition cat (pieces : list string) : string := String.concat EmptyString pieces.

(** [s.includes(t)]. *)
Fixpoint includes (t s : string) : bool :=
  prefix t s ||
  match s with
  | EmptyString => false
  | String _ s' => includes t s'
  end.

(* ------------------------------------------------------------------------- *)
(** ** Domain tables (simulateRace.ts) *)

#[local] Open Scope float_scope.

Record TrackData := {
  baseLapTime : float;
  pitLaneTimeLoss : float;
  fuelEffectPerKg : float;
  startingFuelKg : float;
  fuelConsumptionPerLap : float
}.

Definition DEFAULT_TRACK_DATA : TrackData := {|
  baseLapTime := 85;
  pitLaneTimeLoss := 22;
  fuelEffectPerKg := 0.035;
  startingFuelKg := 110;
  fuelConsumptionPerLap := 1.8
|}.

(** The partial records of [TRACK_DATABASE]: each gives [baseLapTime] and
    [pitLaneTimeLoss]. *)
Definition TRACK_DATABASE : list (string * (float * float)) :=
  [ ("MONZA", (82, 24)); ("MONACO", (73, 18)); ("SPA", (105, 21));
    ("SILVERSTONE", (88, 20)); ("SUZUKA", (91, 22)); ("BAHRAIN", (90, 21));
    ("JEDDAH", (88, 23)); ("MELBOURNE", (79, 24)); ("IMOLA", (76, 25));
    ("MIAMI", (89, 22)); ("BARCELONA", (78, 21)); ("MONTREAL", (73, 23));
    ("AUSTRIA", (65, 20)); ("BUDAPEST", (77, 21)); ("ZANDVOORT", (72, 18));
    ("SINGAPORE", (94, 26)); ("AUSTIN", (96, 22)); ("MEXICO", (78, 20));
    ("INTERLAGOS", (72, 22)); ("VEGAS", (93, 23)); ("QATAR", (84, 21));
    ("ABU_DHABI", (85, 20)) ].

Fixpoint lookup {A : Type} (k : string) (t : list (string * A)) : option A :=
  match t with
  | [] => None
  | (k', v) :: t' => if String.eqb k k' then Some v else lookup k t'
  end.

Record TireDegradationProfile := {
  initialGrip : float;
  degradationRate : float;
  cliffLap : Z;
  cliffMultiplier : float
}.

Definition TIRE_PROFILES (c : TireCompound) : TireDegradationProfile :=
  match c with
  | SOFT => {| initialGrip := 1.0; degradationRate := 0.08;
               cliffLap := 15; cliffMultiplier := 2.5 |}
  | MEDIUM => {| initialGrip := 0.97; degradationRate := 0.05;
                 cliffLap := 25; cliffMultiplier := 2.0 |}
  | HARD => {| initialGrip := 0.94; degradationRate := 0.03;
               cliffLap := 40; cliffMultiplier := 1.8 |}
  | INTERMEDIATE => {| initialGrip := 0.95; degradationRate := 0.04;
                       cliffLap := 30; cliffMultiplier := 2.0 |}
  | WET => {| initialGrip := 0.92; degradationRate := 0.035;
              cliffLap := 35; cliffMultiplier := 1.5 |}
  end.

(** Every weather has an entry and no entry is zero, so the [|| 1.0] of
    [calculateTireDegradation] never replaces a value. *)
Definition WEATHER_DEGRADATION_MULTIPLIER (w : Weather) : float :=
  match w with
  | cool => 0.85
  | normal => 1.0
  | hot => 1.25
  | wet => 1.1
  end.

Record PaceClassEffect := {
  lapTimeDelta : float;
  overtakingAbility : float;
  defenseAbility : float;
  realisticCeiling : Z;
  realisticFloor : Z;
  typicalFinish : Z
}.

Definition PACE_CLASS_EFFECTS (p : PaceClass) : PaceClassEffect :=
  match p with
  | front_runner => {| lapTimeDelta := -1.5; overtakingAbility := 1.4;
                       defenseAbility := 1.5; realisticCeiling := 1;
                       realisticFloor := 6; typicalFinish := 3 |}
  | midfield => {| lapTimeDelta := 0; overtakingAbility := 1.0;
                   defenseAbility := 1.0; realisticCeiling := 5;
                   realisticFloor := 14; typicalFinish := 9 |}
  | backmarker => {| lapTimeDelta := 1.2; overtakingAbility := 0.6;
                     defenseAbility := 0.7; realisticCeiling := 10;
                     realisticFloor := 20; typicalFinish := 16 |}
  end.

Record RiskProfileEffect := {
  overtakingAggressiveness : float;
  tireManagement : float;
  pitStopEfficiency : float
}.

Definition RISK_PROFILE_EFFECTS (r : RiskProfile) : RiskProfileEffect :=
  match r with
  | conservative => {| overtakingAggressiveness := 0.7; tireManagement := 0.85;
                       pitStopEfficiency := 0.98 |}
  | balanced => {| overtakingAggressiveness := 1.0; tireManagement := 1.0;
                   pitStopEfficiency := 1.0 |}
  | aggressive => {| overtakingAggressiveness := 1.4; tireManagement := 1.2;
                     pitStopEfficiency := 1.05 |}
  end.

(* ------------------------------------------------------------------------- *)
(** ** Helper functions of the engine *)

Definition getTrackData (trackName : string) : TrackData :=
  let normalized := filter_string is_upper (toUpperCase trackName) in
  match lookup normalized TRACK_DATABASE with
  | Some (base, pit) =>
      {| baseLapTime := base;
         pitLaneTimeLoss := pit;
         fuelEffectPerKg := fuelEffectPerKg DEFAULT_TRACK_DATA;
         startingFuelKg := startingFuelKg DEFAULT_TRACK_DATA;
         fuelConsumptionPerLap := fuelConsumptionPerLap DEFAULT_TRACK_DATA |}
  | None => DEFAULT_TRACK_DATA
  end.

Definition calculateTireDegradation
    (compound : TireCompound) (lapInStint : Z)
    (weather : Weather) (riskProfile : RiskProfile) : float :=
  let profile := TIRE_PROFILES compound in
  let weatherMultiplier := WEATHER_DEGRADATION_MULTIPLIER weather in
  let riskEffect := tireManagement (RISK_PROFILE_EFFECTS riskProfile) in
  let degradation := degradationRate profile * weatherMultiplier * riskEffect in
  let degradation :=
    if (lapInStint >? cliffLap profile)%Z then
      let lapsAfterCliff := (lapInStint - cliffLap profile)%Z in
      degradation +
      (degradationRate profile * cliffMultiplier profile - degradationRate profile)
      * JS.of_Z (Z.min lapsAfterCliff 10) / 10
    else degradation in
  degradation * JS.of_Z lapInStint.

Definition calculateTireWear (lapInStint : Z) (compound : TireCompound) : float :=
  let profile := TIRE_PROFILES compound in
  let baseWear := JS.of_Z lapInStint / (JS.of_Z (cliffLap profile) * 1.5) in
  if (lapInStint >? cliffLap profile)%Z then
    let extraWear :=
      JS.of_Z (lapInStint - cliffLap profile) / JS.of_Z (cliffLap profile) * 0.5 in
    JS.min (baseWear + extraWear) 1.0
  else JS.min baseWear 1.0.

Record OvertakeResult := {
  newPosition : Z;
  overtook : bool;
  wasOvertaken : bool
}.

(** The table the source indexes by [trackProfile.overtakingDifficulty].  Its
    [|| 0.025] fallback covers a key outside the table and a zero entry;
    a typed difficulty is one of the three keys and no entry is zero. *)
Definition trackDifficultyMultiplier (d : OvertakingDifficulty) : float :=
  match d with
  | easy => 0.04
  | medium => 0.025
  | hard => 0.012
  end.

Definition simulateOvertaking
    (currentPosition : Z) (trackProfile : TrackProfile)
    (paceClass : PaceClass) (riskProfile : RiskProfile)
    (lapNumber : Z) (isFirstLap : bool) (fieldSize : Z) : OvertakeResult :=
  let paceEffect := PACE_CLASS_EFFECTS paceClass in
  let riskEffect := RISK_PROFILE_EFFECTS riskProfile in
  let atOrBeyondCeiling := (currentPosition <=? realisticCeiling paceEffect)%Z in
  let difficulty := trackDifficultyMultiplier (overtakingDifficulty trackProfile) in
  if isFirstLap then
    let firstLapSeed := JS.of_Z (Z.rem (currentPosition * 47 + 13) 100) / 100 in
    let potentialGain :=
      (if currentPosition >? 10 then 3 else if currentPosition >? 5 then 2 else 1)%Z in
    let potentialLoss := (if currentPosition <? 5 then 2 else 1)%Z in
    let gainThreshold :=
      0.3 * overtakingAbility paceEffect * overtakingAggressiveness riskEffect in
    let lossThreshold := 0.15 / defenseAbility paceEffect in
    if (firstLapSeed <? gainThreshold) && negb atOrBeyondCeiling then
      let gain :=
        Z.min potentialGain
          (JS.floor (firstLapSeed / gainThreshold * JS.of_Z potentialGain) + 1) in
      let newPosition := Z.max (realisticCeiling paceEffect) (currentPosition - gain) in
      {| newPosition := newPosition;
         overtook := (newPosition <? currentPosition)%Z;
         wasOvertaken := false |}
    else if JS.gtb firstLapSeed (1 - lossThreshold) then
      let loss := Z.min potentialLoss 1 in
      let newPosition := Z.min fieldSize (currentPosition + loss) in
      {| newPosition := newPosition;
         overtook := false;
         wasOvertaken := (newPosition >? currentPosition)%Z |}
    else
      {| newPosition := currentPosition; overtook := false; wasOvertaken := false |}
  else
    let seed := JS.of_Z (Z.rem (lapNumber * 17 + currentPosition * 31) 100) / 100 in
    let overtakeProb :=
      difficulty * overtakingAbility paceEffect * overtakingAggressiveness riskEffect in
    let overtakeProb :=
      if (currentPosition <=? realisticCeiling paceEffect + 2)%Z then overtakeProb * 0.1
      else if (currentPosition <=? realisticCeiling paceEffect + 4)%Z then overtakeProb * 0.4
      else overtakeProb in
    let overtakeProb :=
      if (currentPosition >? typicalFinish paceEffect)%Z then overtakeProb * 1.3
      else overtakeProb in
    let overtakenProb := difficulty * 0.5 / defenseAbility paceEffect in
    let overtakenProb :=
      if (currentPosition <? typicalFinish paceEffect - 2)%Z then overtakenProb * 1.5
      else overtakenProb in
    let overtakenProb :=
      if (currentPosition >=? realisticFloor paceEffect)%Z then overtakenProb * 0.3
      else overtakenProb in
    if (seed <? overtakeProb) && (currentPosition >? 1)%Z && negb atOrBeyondCeiling then
      let newPosition := Z.max (realisticCeiling paceEffect) (currentPosition - 1) in
      {| newPosition := newPosition;
         overtook := (newPosition <? currentPosition)%Z;
         wasOvertaken := false |}
    else if JS.gtb seed (1 - overtakenProb) && (currentPosition <? fieldSize)%Z then
      let newPosition := Z.min (realisticFloor paceEffect) (currentPosition + 1) in
      {| newPosition := newPosition;
         overtook := false;
         wasOvertaken := (newPosition >? currentPosition)%Z |}
    else
      {| newPosition := currentPosition; overtook := false; wasOvertaken := false |}.

(* ------------------------------------------------------------------------- *)
(** ** The lap loop of [simulateRace] *)

(** The race state of [simulateRace]: the variables declared before the
    stint loop, and the lap trace under construction. *)
Record RaceState := {
  currentPosition : Z;
  st_totalRaceTime : float;
  currentLap : Z;
  fuelLoad : float;
  st_totalPitTimeLoss : float;
  st_lapData : list LapData
}.

(** The variables a stint declares for itself. *)
Record StintState := {
  race_state : RaceState;
  stintLapTimes : list float;
  stintDegradationLoss : float
}.

(** The values [1, 2, ..., n] a [for] loop counter takes. *)
Definition lapRange (n : Z) : list Z :=
  map Z.of_nat (seq 1 (Z.to_nat n)).

Section Race.

Variables (race : RaceConfig) (car : CarProfile)
          (strategy : Strategy) (trackProfile : TrackProfile).

Let trackData := getTrackData (trackName race).
Let paceEffect := PACE_CLASS_EFFECTS (paceClass car).
Let riskEffect := RISK_PROFILE_EFFECTS (riskProfile car).

(** One iteration of the inner loop. *)
Definition simulateLap (stintIdx : nat) (stint : Stint) (isLastStint : bool)
    (s : StintState) (lapInStint : Z) : StintState :=
  let st := race_state s in
  let currentLap := (currentLap st + 1)%Z in
  let isFirstLap := (currentLap =? 1)%Z in
  let isPitLap := (lapInStint =? lapsInStint stint)%Z && negb isLastStint in
  let lapTime := baseLapTime trackData + lapTimeDelta paceEffect in
  let degradation :=
    calculateTireDegradation (tireCompound stint) lapInStint
      (weather race) (riskProfile car) in
  let lapTime := lapTime + degradation in
  let stintDegradationLoss := stintDegradationLoss s + degradation in
  let lapTime :=
    lapTime
    - (startingFuelKg trackData - fuelLoad st) * fuelEffectPerKg trackData * 0.5 in
  let fuelLoad := JS.max 0 (fuelLoad st - fuelConsumptionPerLap trackData) in
  let lapTime :=
    if (lapInStint <=? 3)%Z then
      lapTime + (1 - initialGrip (TIRE_PROFILES (tireCompound stint))) * 2
    else lapTime in
  let trafficPenalty := 0 in
  let '(event, eventDetail) :=
    if isFirstLap
    then (Some start, Some (cat ["Started P"; JS.show (startingGridPosition car)]))
    else (None, None) in
  let overtakeResult :=
    simulateOvertaking (currentPosition st) trackProfile (paceClass car)
      (riskProfile car) currentLap isFirstLap (fieldSize race) in
  let '(event, eventDetail, trafficPenalty) :=
    if overtook overtakeResult then
      (Some overtake,
       Some (cat ["Passed car to move to P"; JS.show (newPosition overtakeResult)]),
       trafficPenalty)
    else if wasOvertaken overtakeResult then
      (Some overtaken,
       Some (cat ["Lost position, now P"; JS.show (newPosition overtakeResult)]),
       0.3)
    else (event, eventDetail, trafficPenalty) in
  let currentPosition := newPosition overtakeResult in
  let lapTime :=
    if (currentPosition >? 1)%Z
       && AeroClassification_eqb (aeroClassification trackProfile) drag_reliant
    then lapTime - 0.2 else lapTime in
  let trafficPenalty :=
    if (currentPosition >=? 8)%Z && (currentPosition <=? 15)%Z
    then trafficPenalty + 0.1 * (1 - overtakingChance trackProfile)
    else trafficPenalty in
  let lapTime := lapTime + trafficPenalty in
  let pitTimeLoss :=
    if isPitLap then pitLaneTimeLoss trackData * pitStopEfficiency riskEffect else 0 in
  let totalPitTimeLoss :=
    if isPitLap then st_totalPitTimeLoss st + pitTimeLoss else st_totalPitTimeLoss st in
  let '(event, eventDetail) :=
    if isPitLap then
      (Some pit_stop,
       (* [strategy.stints[stintIdx + 1]] exists: this is not the last stint *)
       Some (cat ["Pit stop for ";
                  TireCompound_text (tireCompound (nth (S stintIdx) (stints strategy) stint));
                  " tires"]))
    else (event, eventDetail) in
  let tireWear := calculateTireWear lapInStint (tireCompound stint) in
  let record := {|
    lapNumber := currentLap;
    lap_stintNumber := stintNumber stint;
    lap_tireCompound := tireCompound stint;
    lapTime := lapTime;
    tireWear := tireWear;
    lap_fuelLoad := fuelLoad;
    trafficPenalty := trafficPenalty;
    position := currentPosition;
    event := event;
    eventDetail := eventDetail
  |} in
  {| race_state := {|
       currentPosition := currentPosition;
       st_totalRaceTime := st_totalRaceTime st + (lapTime + pitTimeLoss);
       currentLap := currentLap;
       fuelLoad := fuelLoad;
       st_totalPitTimeLoss := totalPitTimeLoss;
       st_lapData := st_lapData st ++ [record]
     |};
     stintLapTimes := stintLapTimes s ++ [lapTime];
     stintDegradationLoss := stintDegradationLoss |}.

(** The warnings a stint raises before its laps are run. *)
Definition stintWarnings (stint : Stint) : list SimulationWarning :=
  let compound := tireCompound stint in
  let cliff := cliffLap (TIRE_PROFILES compound) in
  (if JS.gtb (JS.of_Z (lapsInStint stint)) (JS.of_Z cliff * 1.3) then
     [ {| w_type := w_tire; severity := high;
          message := cat ["Stint "; JS.show (stintNumber stint); " may push ";
                          TireCompound_text compound; " tires past cliff"];
          detail := Some (cat ["Running "; JS.show (lapsInStint stint); " laps on ";
                               TireCompound_text compound;
                               " compound which has cliff at lap "; JS.show cliff]) |} ]
   else [])
  ++
  (if Weather_eqb (weather race) wet
      && negb (TireCompound_eqb compound INTERMEDIATE || TireCompound_eqb compound WET)
   then
     [ {| w_type := w_weather; severity := critical;
          message := cat ["Stint "; JS.show (stintNumber stint);
                          " uses dry tires in wet conditions"];
          detail := Some "Consider using INTERMEDIATE or WET tires for wet weather"%string |} ]
   else []).

(** One iteration of the outer loop: the state, the stint metrics and the
    warnings collected so far. *)
Definition simulateStint
    (acc : RaceState * list StintMetrics * list SimulationWarning)
    (indexed : nat * Stint) : RaceState * list StintMetrics * list SimulationWarning :=
  let '(st, metrics, warnings) := acc in
  let '(stintIdx, stint) := indexed in
  let isLastStint := (S stintIdx =? List.length (stints strategy))%nat in
  let stintStartPosition := currentPosition st in
  let warnings := (warnings ++ stintWarnings stint)%list in
  let s :=
    fold_left (simulateLap stintIdx stint isLastStint)
      (lapRange (lapsInStint stint))
      {| race_state := st; stintLapTimes := []; stintDegradationLoss := 0 |} in
  let times := stintLapTimes s in
  let avgLapTime := JS.sum_list times / JS.of_Z (Z.of_nat (List.length times)) in
  let pitTimeLoss :=
    if isLastStint then 0
    else pitLaneTimeLoss trackData * pitStopEfficiency riskEffect in
  (race_state s,
   (metrics ++ [ {|
      sm_stintNumber := stintNumber stint;
      sm_tireCompound := tireCompound stint;
      sm_totalLaps := lapsInStint stint;
      avgLapTime := avgLapTime;
      bestLapTime := JS.min_list times;
      worstLapTime := JS.max_list times;
      totalDegradationLoss := stintDegradationLoss s;
      sm_pitTimeLoss := pitTimeLoss;
      startPosition := stintStartPosition;
      endPosition := currentPosition (race_state s)
    |} ])%list,
   warnings).

Definition initialState : RaceState := {|
  currentPosition := startingGridPosition car;
  st_totalRaceTime := 0;
  currentLap := 0%Z;
  fuelLoad := startingFuelKg trackData;
  st_totalPitTimeLoss := 0;
  st_lapData := []
|}.

(** The stints with their array indices. *)
Definition indexedStints : list (nat * Stint) :=
  combine (seq 0 (List.length (stints strategy))) (stints strategy).

Definition runStints : RaceState * list StintMetrics * list SimulationWarning :=
  fold_left simulateStint indexedStints (initialState, [], []).

End Race.

(* ------------------------------------------------------------------------- *)
(** ** Race profile summary *)

#[local] Close Scope float_scope.
#[local] Open Scope list_scope.

(** The separator of the stint summary, in the bytes of the source text. *)
Definition stintSeparator : string :=
  String " " (String "195" (String "162" (String "226" (String "128" (String "160"
  (String "226" (String "128" (String "153" (String " " EmptyString))))))))).

(** [xs.join(sep)]. *)
Fixpoint join (sep : string) (xs : list string) : string :=
  match xs with
  | [] => EmptyString
  | [x] => x
  | x :: xs' => cat [x; sep; join sep xs']
  end.

Definition generateRaceProfileSummary
    (trackProfile : TrackProfile) (race : RaceConfig) : RaceProfileSummary :=
  let overtakingSummary :=
    match overtakingDifficulty trackProfile with
    | easy => "Easy overtaking (expect 2-4 on-track passes possible) - undercuts and strategy can pay off"
    | medium => "Moderate overtaking (expect 1-2 on-track passes possible) - track position matters but strategy helps"
    | hard => "Hard overtaking (0-1 on-track passes likely) - track position is critical, avoid losing places in pits"
    end in
  let aeroDescriptions (a : AeroClassification) :=
    match a with
    | downforce_reliant => "High downforce track - focus on mechanical grip and corner speed"
    | drag_reliant => "Low downforce track - top speed and DRS zones are crucial"
    | aero_balanced => "Balanced aerodynamic requirements - versatile setup options"
    end in
  let previousWinnerSummary :=
    match previousWinnerStrategy trackProfile with
    | Some pw =>
        let stintSummary :=
          join stintSeparator
            (map (fun s => cat [TireCompound_text (pw_tireCompound s);
                                "("; JS.show (pw_laps s); ")"]) (pw_stints pw)) in
        Some (cat [JS.show (year pw); ": "; pw_label pw; " - "; stintSummary])
    | None => None
    end in
  let criticalTurnsSummary :=
    map (fun t => cat ["Turn "; JS.show (turnNumber t); " ("; turn_name t; "): "; note t])
        (criticalTurns trackProfile) in
  {| overtakingChanceSummary := overtakingSummary;
     rp_aeroClassification := aeroClassification trackProfile;
     aeroDescription := aeroDescriptions (aeroClassification trackProfile);
     previousWinnerSummary := previousWinnerSummary;
     criticalTurnsSummary := criticalTurnsSummary |}.

(* ------------------------------------------------------------------------- *)
(** ** Post-race figures *)

#[local] Open Scope float_scope.

Definition clampToPaceClass (p : PaceClass) (currentPosition : Z) : Z :=
  let paceEffectFinal := PACE_CLASS_EFFECTS p in
  let predictedFinishPosition := Z.max (realisticCeiling paceEffectFinal) currentPosition in
  Z.min (realisticFloor paceEffectFinal) predictedFinishPosition.

Definition positionVariance (r : RiskProfile) : Z :=
  if RiskProfile_eqb r aggressive then 2
  else if RiskProfile_eqb r conservative then 1 else 1.

Definition positionRange (race : RaceConfig) (car : CarProfile)
    (predictedFinishPosition : Z) : PositionRange :=
  let paceEffectFinal := PACE_CLASS_EFFECTS (paceClass car) in
  let variance := positionVariance (riskProfile car) in
  {| range_min :=
       Z.max (realisticCeiling paceEffectFinal) (predictedFinishPosition - variance);
     range_max :=
       Z.min (Z.min (fieldSize race) (realisticFloor paceEffectFinal))
             (predictedFinishPosition + variance + 1) |}.

Definition pointsProbability (p : PaceClass) (predictedFinishPosition : Z) : float :=
  let paceEffectFinal := PACE_CLASS_EFFECTS p in
  if (realisticCeiling paceEffectFinal >? 10)%Z then
    JS.max 0.02 (0.15 - JS.of_Z (predictedFinishPosition - 10) * 0.01)
  else if (predictedFinishPosition <=? 10)%Z then
    JS.min 0.85
      (0.9 - JS.of_Z (predictedFinishPosition - realisticCeiling paceEffectFinal) * 0.05)
  else
    JS.max 0.05 (0.35 - JS.of_Z (predictedFinishPosition - 10) * 0.03).

Definition beatingStartProbability (car : CarProfile) (positionsGained : Z) : float :=
  let paceEffectFinal := PACE_CLASS_EFFECTS (paceClass car) in
  let grid := startingGridPosition car in
  if (grid >? typicalFinish paceEffectFinal)%Z then
    JS.min 0.75 (0.5 + JS.of_Z (grid - typicalFinish paceEffectFinal) * 0.08)
  else if (grid <? realisticCeiling paceEffectFinal)%Z then
    JS.max 0.1 (0.3 - JS.of_Z (realisticCeiling paceEffectFinal - grid) * 0.1)
  else if (positionsGained >=? 0)%Z then
    JS.min 0.65 (0.45 + JS.of_Z positionsGained * 0.05)
  else
    JS.max 0.2 (0.45 + JS.of_Z positionsGained * 0.1).

(* ------------------------------------------------------------------------- *)
(** ** The warning rules evaluated after the race *)

#[local] Close Scope float_scope.

Definition warn (t : WarningType) (s : Severity) (m d : string) : SimulationWarning :=
  {| w_type := t; severity := s; message := m; detail := Some d |}.

Definition when {A : Type} (b : bool) (xs : list A) : list A :=
  if b then xs else [].

Definition string_in (s : string) (xs : list string) : bool :=
  existsb (String.eqb s) xs.

Definition postRaceWarnings (race : RaceConfig) (car : CarProfile)
    (strategy : Strategy) (trackProfile : TrackProfile) : list SimulationWarning :=
  let paceEffectFinal := PACE_CLASS_EFFECTS (paceClass car) in
  let grid := startingGridPosition car in
  let pace := PaceClass_text (paceClass car) in
  let ceiling := realisticCeiling paceEffectFinal in
  let difficulty := overtakingDifficulty trackProfile in
  let stintCount := Z.of_nat (List.length (stints strategy)) in
  let softLongerThan (n : Z) :=
    existsb (fun s => TireCompound_eqb (tireCompound s) SOFT && (lapsInStint s >? n)%Z)
            (stints strategy) in
  let firstStintIs (c : TireCompound) :=
    match stints strategy with
    | s :: _ => TireCompound_eqb (tireCompound s) c
    | [] => false
    end in
  (* Risk profile *)
  when (RiskProfile_eqb (riskProfile car) aggressive)
    ([ warn w_strategy sev_medium
         "Aggressive risk profile increases tire wear by 20%"
         "Higher degradation rate may require earlier pit stops or compromise late-stint pace" ]
     ++ when (OvertakingDifficulty_eqb difficulty hard)
          [ warn w_strategy high
              "Aggressive driving on low-overtaking track is risky"
              "If you lose position due to tire wear, recovery will be very difficult" ]
     ++ when (softLongerThan 12)
          [ warn w_tire high
              "Aggressive driving will shorten soft tire life significantly"
              "Soft tires may cliff early with aggressive driving style - consider shorter stint" ])
  ++ when (RiskProfile_eqb (riskProfile car) conservative)
       [ warn w_strategy low
           "Conservative approach protects tires but limits overtaking"
           "Better tire life but 30% fewer overtaking attempts - good for track position races" ]
  (* Pace class against starting position *)
  ++ when (grid <? ceiling)%Z
       [ warn w_strategy high
           (cat ["Starting P"; JS.show grid; " is ahead of "; pace;
                 " pace ceiling (P"; JS.show ceiling; ")"])
           "Expect to lose positions to faster cars during the race - focus on defensive strategy" ]
  ++ when (grid >? typicalFinish paceEffectFinal + 3)%Z
       [ warn w_strategy sev_medium
           (cat ["Starting P"; JS.show grid; " is below typical "; pace;
                 " finish (P"; JS.show (typicalFinish paceEffectFinal); ")"])
           "Room to gain positions if strategy and first lap execution go well" ]
  (* Target position *)
  ++ match targetMinPosition car with
     | Some target =>
         when (negb (target =? 0)%Z && (target <? ceiling)%Z)
           [ warn w_strategy critical
               (cat ["Target P"; JS.show target; " is unrealistic for "; pace; " car"])
               (cat ["Best realistic finish for "; pace; " is P"; JS.show ceiling;
                     " - adjust expectations"]) ]
     | None => []
     end
  (* Weather and compounds *)
  ++ when (Weather_eqb (weather race) hot)
       ([ warn w_weather sev_medium
            "Hot conditions increase tire degradation by 25%"
            "Consider harder compounds or shorter stints to manage thermal degradation" ]
        ++ when (softLongerThan 10)
             [ warn w_tire high
                 "Soft tires in hot conditions will degrade rapidly"
                 "Expect significant pace drop-off after ~10 laps on softs in the heat" ])
  ++ when (Weather_eqb (weather race) cool && firstStintIs HARD)
       [ warn w_tire sev_medium
           "Hard tires may struggle to warm up in cool conditions"
           "First few laps could have reduced grip - vulnerable on lap 1" ]
  ++ when (Weather_eqb (weather race) wet)
       [ warn w_weather sev_medium
           "Wet conditions - reduced grip and visibility"
           "INTERMEDIATE or WET tires required. Watch for drying track creating crossover window." ]
  (* Stint lengths *)
  ++ flat_map (fun stint =>
       let tireProfile := TIRE_PROFILES (tireCompound stint) in
       when ((lapsInStint stint <? 8)%Z && (stintNumber stint >? 1)%Z)
         [ warn w_strategy sev_medium
             (cat ["Stint "; JS.show (stintNumber stint); " is very short (";
                   JS.show (lapsInStint stint); " laps)"])
             "Short stints waste pit stop time - ensure this is intentional (e.g., safety car)" ]
       ++ when ((lapsInStint stint >? cliffLap tireProfile)%Z
                && (JS.of_Z (lapsInStint stint) <=? JS.of_Z (cliffLap tireProfile) * 1.3)%float)
            [ warn w_tire sev_medium
                (cat ["Stint "; JS.show (stintNumber stint); " pushes ";
                      TireCompound_text (tireCompound stint); " tires near cliff (";
                      JS.show (lapsInStint stint); "/"; JS.show (cliffLap tireProfile);
                      " laps)"])
                "Pace will drop significantly in final laps - be prepared for pressure from behind" ])
     (stints strategy)
  (* First stint *)
  ++ when (firstStintIs SOFT && (grid >? 10)%Z)
       [ warn w_strategy sev_medium
           "Starting on soft tires from back of grid"
           "Soft tires optimal for qualifying but may limit strategic flexibility - offset pit window from rivals" ]
  ++ when (firstStintIs HARD && (grid <=? 5)%Z)
       [ warn w_strategy sev_medium
           "Starting on hard tires from front positions"
           "May lose positions early to cars on grippier compounds - requires track position defense" ]
  (* Last stint *)
  ++ match rev (stints strategy) with
     | lastStint :: _ =>
         when (TireCompound_eqb (tireCompound lastStint) SOFT && (lapsInStint lastStint >? 18)%Z)
           [ warn w_tire high
               "Long final stint on soft tires"
               "Risk of severe degradation in closing laps when positions are hardest to recover" ]
     | [] => []
     end
  (* Track *)
  ++ flat_map (fun turn =>
       when (string_in "tire_stress" (riskTags turn)
             && existsb (fun s => (lapsInStint s >? 25)%Z) (stints strategy))
         [ warn w_track sev_medium
             (cat [turn_name turn; " (Turn "; JS.show (turnNumber turn);
                   ") may stress tires on longer stints"])
             (note turn) ]
       ++ when (string_in "overtaking_zone" (riskTags turn)
                && OvertakingDifficulty_eqb difficulty hard)
            [ warn w_track low
                (cat [turn_name turn; " is one of few overtaking opportunities"])
                (cat [note turn; " - Focus defensive efforts here"]) ])
     (criticalTurns trackProfile)
  (* Strategy shape *)
  ++ when ((stintCount =? 1)%Z && (totalLaps race >? 40)%Z)
       [ warn w_strategy high
           "Zero-stop strategy on long race is extremely risky"
           "No compound can realistically last this distance competitively" ]
  ++ when ((stintCount >=? 3)%Z && OvertakingDifficulty_eqb difficulty hard)
       [ warn w_strategy high
           "Multiple pit stops on low-overtaking track"
           "Each stop risks losing positions that are nearly impossible to recover" ]
  ++ when ((stintCount >=? 3)%Z && OvertakingDifficulty_eqb difficulty medium)
       [ warn w_strategy sev_medium
           "Three or more stops increases track position risk"
           "Consider if fresh tire advantage outweighs time lost in pits" ]
  (* Backmarker *)
  ++ when (PaceClass_eqb (paceClass car) backmarker
           && RiskProfile_eqb (riskProfile car) aggressive)
       [ warn w_strategy sev_medium
           "Aggressive strategy unlikely to overcome pace deficit"
           "Backmarker cars benefit more from conservative tire management and capitalizing on others' mistakes" ]
  (* Undercut *)
  ++ when (negb (OvertakingDifficulty_eqb difficulty easy) && (stintCount >=? 2)%Z)
       [ warn w_strategy low
           "Pit timing critical for position gains"
           "Undercut can gain 1-2 positions if pitting 1-2 laps before rivals on this track" ]
  (* Traffic *)
  ++ when ((grid >=? 8)%Z && (grid <=? 15)%Z)
       [ warn w_traffic low
           "Starting in congested midfield"
           "Expect close racing and potential for minor contact - lap 1 positioning is crucial" ].

(* ------------------------------------------------------------------------- *)
(** ** [simulateRace] *)

Definition simulateRace (race : RaceConfig) (car : CarProfile)
    (strategy : Strategy) (trackProfile : TrackProfile) : SimulationResult :=
  let '(st, stintMetrics, warnings) := runStints race car strategy trackProfile in
  let predictedFinishPosition := clampToPaceClass (paceClass car) (currentPosition st) in
  let positionsGained := (startingGridPosition car - predictedFinishPosition)%Z in
  {| totalRaceTime := st_totalRaceTime st;
     predictedFinishPosition := predictedFinishPosition;
     predictedPositionRange := positionRange race car predictedFinishPosition;
     positionsGained := positionsGained;
     probabilityOfPoints := pointsProbability (paceClass car) predictedFinishPosition;
     probabilityOfBeatingStartPosition := beatingStartProbability car positionsGained;
     stintMetrics := stintMetrics;
     lapData := st_lapData st;
     warnings := warnings ++ postRaceWarnings race car strategy trackProfile;
     raceProfile := generateRaceProfileSummary trackProfile race;
     strategyLabel := label strategy;
     totalPitStops := Z.of_nat (List.length (stints strategy)) - 1;
     totalPitTimeLoss := st_totalPitTimeLoss st;
     res_raceConfig := race;
     res_carProfile := car;
     res_strategy := strategy |}.

(* ------------------------------------------------------------------------- *)
(** ** Text primitives of the parser *)

#[local] Open Scope string_scope.

(** The double quote character. *)
Definition dq : string := String "034" EmptyString.

(** [s.split('\n')]. *)
Fixpoint split_lines_aux (cur : string) (s : string) : list string :=
  match s with
  | EmptyString => [cur]
  | String c s' =>
      if (nat_of_ascii c =? 10)%nat
      then cur :: split_lines_aux EmptyString s'
      else split_lines_aux (cur ++ String c EmptyString) s'
  end.

Definition split_lines (s : string) : list string := split_lines_aux EmptyString s.

Fixpoint trimStart (s : string) : string :=
  match s with
  | String c s' => if is_space c then trimStart s' else s
  | EmptyString => EmptyString
  end.

Fixpoint rev_string_aux (acc s : string) : string :=
  match s with
  | EmptyString => acc
  | String c s' => rev_string_aux (String c acc) s'
  end.

Definition rev_string (s : string) : string := rev_string_aux EmptyString s.

Definition trimEnd (s : string) : string := rev_string (trimStart (rev_string s)).
Definition trim (s : string) : string := trimEnd (trimStart s).

(** [s.split(',')]. *)
Fixpoint split_commas_aux (cur : string) (s : string) : list string :=
  match s with
  | EmptyString => [cur]
  | String c s' =>
      if (nat_of_ascii c =? 44)%nat
      then cur :: split_commas_aux EmptyString s'
      else split_commas_aux (cur ++ String c EmptyString) s'
  end.

Definition split_commas (s : string) : list string := split_commas_aux EmptyString s.

(** [parseInt(s, 10)] on a string of decimal digits (the parser applies it
    to [\d+] captures only): the integer the digits write, which is what
    JavaScript answers below 2^53. *)
Fixpoint parseInt_aux (acc : Z) (s : string) : Z :=
  match s with
  | String c s' =>
      if is_digit c
      then parseInt_aux (10 * acc + Z.of_nat (nat_of_ascii c - 48)) s'
      else acc
  | EmptyString => acc
  end.

Definition parseInt (s : string) : Z := parseInt_aux 0 s.

Fixpoint take_digits (s : string) : string * string :=
  match s with
  | String c s' =>
      if is_digit c
      then let '(d, rest) := take_digits s' in (String c d, rest)
      else (EmptyString, s)
  | EmptyString => (EmptyString, EmptyString)
  end.

(** The binary64 value nearest to [num / 10^scale], for [num >= 0]. *)
Definition decimal_to_float (num : Z) (scale : nat) : float :=
  if (num =? 0)%Z then 0%float
  else
    let '(q, e, l) :=
      SFdiv_core_binary prec emax num 0 (10 ^ Z.of_nat scale)%Z 0 in
    SF2Prim (binary_round_aux prec emax false q e l).

(** [parseFloat(s)] on a string of digits and dots (a [[\d.]+] capture): the
    longest prefix that is a decimal literal, NaN when there is none. *)
Definition parseFloat (s : string) : float :=
  let '(int_part, rest) := take_digits s in
  let frac_part :=
    match rest with
    | String "." rest' => fst (take_digits rest')
    | _ => EmptyString
    end in
  if ((String.length int_part =? 0) && (String.length frac_part =? 0))%nat then nan
  else decimal_to_float (parseInt (int_part ++ frac_part)) (String.length frac_part).

(* ------------------------------------------------------------------------- *)
(** ** Regular expressions

    The fragment the nine patterns of the parser use, with JavaScript's
    backtracking semantics: quantifiers are greedy, alternatives are tried
    left to right.  Literal text is matched without regard to case (flag [i]). *)

Inductive regex :=
  | Lit (text : string)
  | Many0 (class : ascii -> bool)
  | Many1 (class : ascii -> bool)
  | Group (index : nat) (r : regex)
  | Seq (r1 r2 : regex)
  | Alt (r1 r2 : regex)
  | Opt (r : regex).

Definition captures := list (nat * string).

Fixpoint match_lit (text s : string) : option string :=
  match text, s with
  | EmptyString, _ => Some s
  | String c text', String d s' =>
      if Ascii.eqb (upper_ascii c) (upper_ascii d) then match_lit text' s' else None
  | String _ _, EmptyString => None
  end.

Section Backtracking.

Context {A : Type}.

(** [class*]: the longest run first, then shorter ones. *)
Fixpoint many (class : ascii -> bool) (s : string) (k : string -> option A) : option A :=
  match s with
  | String c s' =>
      if class c then
        match many class s' k with
        | Some r => Some r
        | None => k s
        end
      else k s
  | EmptyString => k s
  end.

Definition many1 (class : ascii -> bool) (s : string) (k : string -> option A) : option A :=
  match s with
  | String c s' => if class c then many class s' k else None
  | EmptyString => None
  end.

End Backtracking.

(** The text consumed between [s] and its suffix [rest]. *)
Definition consumed (s rest : string) : string :=
  substring 0 (String.length s - String.length rest) s.

Fixpoint rmatch (r : regex) (s : string) (caps : captures)
    (k : string -> captures -> option captures) : option captures :=
  match r with
  | Lit text =>
      match match_lit text s with
      | Some rest => k rest caps
      | None => None
      end
  | Many0 class => many class s (fun rest => k rest caps)
  | Many1 class => many1 class s (fun rest => k rest caps)
  | Group index r' =>
      rmatch r' s caps (fun rest caps' => k rest ((index, consumed s rest) :: caps'))
  | Seq r1 r2 =>
      rmatch r1 s caps (fun rest caps' => rmatch r2 rest caps' k)
  | Alt r1 r2 =>
      match rmatch r1 s caps k with
      | Some m => Some m
      | None => rmatch r2 s caps k
      end
  | Opt r' =>
      match rmatch r' s caps k with
      | Some m => Some m
      | None => k s caps
      end
  end.

(** [s.match(/^r$/i)]. *)
Definition full_match (r : regex) (s : string) : option captures :=
  rmatch r s [] (fun rest caps =>
    match rest with EmptyString => Some caps | _ => None end).

(** [match[i]] of a group that took part in the match, and of one that may
    not have ([undefined] is [None]). *)
Fixpoint group_opt (i : nat) (m : captures) : option string :=
  match m with
  | [] => None
  | (j, text) :: m' => if (i =? j)%nat then Some text else group_opt i m'
  end.

Definition group (i : nat) (m : captures) : string :=
  match group_opt i m with Some text => text | None => EmptyString end.

Fixpoint seq_of (rs : list regex) : regex :=
  match rs with
  | [] => Lit EmptyString
  | [r] => r
  | r :: rs' => Seq r (seq_of rs')
  end.

Definition not_space (c : ascii) : bool := negb (is_space c).
Definition not_quote (c : ascii) : bool := negb (nat_of_ascii c =? 34)%nat.
Definition digit_or_dot (c : ascii) : bool := is_digit c || (nat_of_ascii c =? 46)%nat.

Definition ws1 : regex := Many1 is_space.
Definition ws0 : regex := Many0 is_space.
Definition quoted (index : nat) : regex :=
  seq_of [Lit dq; Group index (Many1 not_quote); Lit dq].

Definition RACE_PATTERN : regex :=
  seq_of [Lit "RACE"; ws1; Group 1 (Many1 not_space); ws1;
          Lit "LAPS="; Group 2 (Many1 is_digit); ws1;
          Lit "WEATHER="; Group 3 (Many1 is_word); ws1;
          Lit "FIELD="; Group 4 (Many1 is_digit)].

Definition CAR_PATTERN : regex :=
  seq_of [Lit "CAR"; ws1; Lit "START=P"; Group 1 (Many1 is_digit); ws1;
          Lit "PACE="; Group 2 (Many1 is_word); ws1;
          Lit "RISK="; Group 3 (Many1 is_word);
          Opt (seq_of [ws1; Lit "TARGET=";
                       Alt (Seq (Lit "P") (Group 4 (Many1 is_digit))) (Lit "NONE")])].

Definition TRACK_AERO_PATTERN : regex :=
  seq_of [Lit "TRACK"; ws1; Lit "AERO="; Group 1 (Many1 is_word)].

Definition TRACK_OVERTAKING_PATTERN : regex :=
  seq_of [Lit "TRACK"; ws1; Lit "OVERTAKING="; Group 1 (Many1 is_word); ws1;
          Lit "CHANCE="; Group 2 (Many1 digit_or_dot)].

Definition STRATEGY_START_PATTERN : regex :=
  seq_of [Lit "STRATEGY"; ws1; quoted 1].

Definition STINT_PATTERN : regex :=
  seq_of [ws0; Lit "STINT"; ws1; Group 1 (Many1 is_digit); ws1;
          Lit "TIRE="; Group 2 (Many1 is_word); ws1;
          Lit "LAPS="; Group 3 (Many1 is_digit)].

Definition TURN_PATTERN : regex :=
  seq_of [ws0; Lit "TURN"; ws1; Group 1 (Many1 is_digit); ws1;
          Lit "NAME="; quoted 2; ws1;
          Lit "RISK="; Group 3 (Many1 not_space); ws1;
          Lit "NOTE="; quoted 4].

Definition PREVIOUS_WINNER_YEAR_PATTERN : regex :=
  seq_of [ws0; Lit "YEAR="; Group 1 (Many1 is_digit); ws1; Lit "LABEL="; quoted 2].

Definition PREVIOUS_WINNER_STINT_PATTERN : regex :=
  seq_of [ws0; Lit "TIRE="; Group 1 (Many1 is_word); ws1;
          Lit "LAPS="; Group 2 (Many1 is_digit)].

(* ------------------------------------------------------------------------- *)
(** ** Validation helpers (parseStrategy.ts) *)

Definition VALID_WEATHER : list Weather := [cool; normal; hot; wet].
Definition VALID_PACE_CLASS : list PaceClass := [front_runner; midfield; backmarker].
Definition VALID_RISK_PROFILE : list RiskProfile := [conservative; balanced; aggressive].
Definition VALID_OVERTAKING : list OvertakingDifficulty := [easy; medium; hard].
Definition VALID_AERO : list AeroClassification :=
  [downforce_reliant; drag_reliant; aero_balanced].
Definition VALID_TIRES : list TireCompound := [SOFT; MEDIUM; HARD; INTERMEDIATE; WET].

(** The member of an enumeration a text denotes.  [isValidX(s)] is
    [VALID_X.includes(s)]; the cast [s as X] of a valid text is that member. *)
Definition member {A : Type} (text : A -> string) (valid : list A) (s : string) : option A :=
  find (fun a => String.eqb s (text a)) valid.

Definition includes_text {A : Type} (text : A -> string) (valid : list A) (s : string) : bool :=
  existsb (fun a => String.eqb s (text a)) valid.

Definition isValidWeather := includes_text Weather_text VALID_WEATHER.
Definition isValidPaceClass := includes_text PaceClass_text VALID_PACE_CLASS.
Definition isValidRiskProfile := includes_text RiskProfile_text VALID_RISK_PROFILE.
Definition isValidOvertaking := includes_text OvertakingDifficulty_text VALID_OVERTAKING.
Definition isValidAero := includes_text AeroClassification_text VALID_AERO.
Definition isValidTire := includes_text TireCompound_text VALID_TIRES.

Definition asWeather := member Weather_text VALID_WEATHER.
Definition asPaceClass := member PaceClass_text VALID_PACE_CLASS.
Definition asRiskProfile := member RiskProfile_text VALID_RISK_PROFILE.
Definition asOvertaking := member OvertakingDifficulty_text VALID_OVERTAKING.
Definition asAero := member AeroClassification_text VALID_AERO.
Definition asTire := member TireCompound_text VALID_TIRES.

Definition joined {A : Type} (text : A -> string) (valid : list A) : string :=
  join ", " (map text valid).

(* ------------------------------------------------------------------------- *)
(** ** Parser state

    The variables [parseStrategyDSL] declares and its closures assign.  An
    enumeration field that the code fills with an unchecked cast holds the
    text itself until the document is built. *)

Record DSLParseError := {
  line : nat;
  err_message : string;
  section : option string
}.

Record DSLParseResult := {
  success : bool;
  data : option ParsedDSL;
  errors : list DSLParseError;
  parse_warnings : list string;
  rawDSL : string
}.

Record RaceConfigText := {
  t_trackName : string;
  t_totalLaps : Z;
  t_weather : string;
  t_fieldSize : Z
}.

Record CarProfileText := {
  t_startingGridPosition : Z;
  t_paceClass : string;
  t_riskProfile : string;
  t_targetMinPosition : option Z
}.

Record StintText := {
  t_stintNumber : Z;
  t_tireCompound : string;
  t_lapsInStint : Z
}.

Record StrategyText := {
  t_label : string;
  t_stints : list StintText
}.

Record PreviousWinnerText := {
  t_year : Z;
  t_pw_label : string;
  t_pw_stints : list (string * Z)
}.

Record PState := {
  lineIndex : nat;
  st_errors : list DSLParseError;
  st_warnings : list string;
  st_raceConfig : option RaceConfigText;
  st_carProfile : option CarProfileText;
  st_trackAero : option AeroClassification;
  st_trackOvertaking : option OvertakingDifficulty;
  st_trackChance : option float;
  st_strategy : option StrategyText;
  st_criticalTurns : list CriticalTurn;
  st_previousWinner : option PreviousWinnerText
}.

Definition initialPState : PState := {|
  lineIndex := 0;
  st_errors := [];
  st_warnings := [];
  st_raceConfig := None;
  st_carProfile := None;
  st_trackAero := None;
  st_trackOvertaking := None;
  st_trackChance := None;
  st_strategy := None;
  st_criticalTurns := [];
  st_previousWinner := None
|}.

Definition set_lineIndex (n : nat) (s : PState) : PState :=
  {| lineIndex := n; st_errors := st_errors s; st_warnings := st_warnings s;
     st_raceConfig := st_raceConfig s; st_carProfile := st_carProfile s;
     st_trackAero := st_trackAero s; st_trackOvertaking := st_trackOvertaking s;
     st_trackChance := st_trackChance s; st_strategy := st_strategy s;
     st_criticalTurns := st_criticalTurns s; st_previousWinner := st_previousWinner s |}.

Definition set_errors (e : list DSLParseError) (s : PState) : PState :=
  {| lineIndex := lineIndex s; st_errors := e; st_warnings := st_warnings s;
     st_raceConfig := st_raceConfig s; st_carProfile := st_carProfile s;
     st_trackAero := st_trackAero s; st_trackOvertaking := st_trackOvertaking s;
     st_trackChance := st_trackChance s; st_strategy := st_strategy s;
     st_criticalTurns := st_criticalTurns s; st_previousWinner := st_previousWinner s |}.

Definition set_warnings (w : list string) (s : PState) : PState :=
  {| lineIndex := lineIndex s; st_errors := st_errors s; st_warnings := w;
     st_raceConfig := st_raceConfig s; st_carProfile := st_carProfile s;
     st_trackAero := st_trackAero s; st_trackOvertaking := st_trackOvertaking s;
     st_trackChance := st_trackChance s; st_strategy := st_strategy s;
     st_criticalTurns := st_criticalTurns s; st_previousWinner := st_previousWinner s |}.

Definition set_raceConfig (r : RaceConfigText) (s : PState) : PState :=
  {| lineIndex := lineIndex s; st_errors := st_errors s; st_warnings := st_warnings s;
     st_raceConfig := Some r; st_carProfile := st_carProfile s;
     st_trackAero := st_trackAero s; st_trackOvertaking := st_trackOvertaking s;
     st_trackChance := st_trackChance s; st_strategy := st_strategy s;
     st_criticalTurns := st_criticalTurns s; st_previousWinner := st_previousWinner s |}.

Definition set_carProfile (c : CarProfileText) (s : PState) : PState :=
  {| lineIndex := lineIndex s; st_errors := st_errors s; st_warnings := st_warnings s;
     st_raceConfig := st_raceConfig s; st_carProfile := Some c;
     st_trackAero := st_trackAero s; st_trackOvertaking := st_trackOvertaking s;
     st_trackChance := st_trackChance s; st_strategy := st_strategy s;
     st_criticalTurns := st_criticalTurns s; st_previousWinner := st_previousWinner s |}.

Definition set_trackAero (a : AeroClassification) (s : PState) : PState :=
  {| lineIndex := lineIndex s; st_errors := st_errors s; st_warnings := st_warnings s;
     st_raceConfig := st_raceConfig s; st_carProfile := st_carProfile s;
     st_trackAero := Some a; st_trackOvertaking := st_trackOvertaking s;
     st_trackChance := st_trackChance s; st_strategy := st_strategy s;
     st_criticalTurns := st_criticalTurns s; st_previousWinner := st_previousWinner s |}.

Definition set_trackOvertaking (o : OvertakingDifficulty) (s : PState) : PState :=
  {| lineIndex := lineIndex s; st_errors := st_errors s; st_warnings := st_warnings s;
     st_raceConfig := st_raceConfig s; st_carProfile := st_carProfile s;
     st_trackAero := st_trackAero s; st_trackOvertaking := Some o;
     st_trackChance := st_trackChance s; st_strategy := st_strategy s;
     st_criticalTurns := st_criticalTurns s; st_previousWinner := st_previousWinner s |}.

Definition set_trackChance (c : float) (s : PState) : PState :=
  {| lineIndex := lineIndex s; st_errors := st_errors s; st_warnings := st_warnings s;
     st_raceConfig := st_raceConfig s; st_carProfile := st_carProfile s;
     st_trackAero := st_trackAero s; st_trackOvertaking := st_trackOvertaking s;
     st_trackChance := Some c; st_strategy := st_strategy s;
     st_criticalTurns := st_criticalTurns s; st_previousWinner := st_previousWinner s |}.

Definition set_strategy (x : StrategyText) (s : PState) : PState :=
  {| lineIndex := lineIndex s; st_errors := st_errors s; st_warnings := st_warnings s;
     st_raceConfig := st_raceConfig s; st_carProfile := st_carProfile s;
     st_trackAero := st_trackAero s; st_trackOvertaking := st_trackOvertaking s;
     st_trackChance := st_trackChance s; st_strategy := Some x;
     st_criticalTurns := st_criticalTurns s; st_previousWinner := st_previousWinner s |}.

Definition set_criticalTurns (t : list CriticalTurn) (s : PState) : PState :=
  {| lineIndex := lineIndex s; st_errors := st_errors s; st_warnings := st_warnings s;
     st_raceConfig := st_raceConfig s; st_carProfile := st_carProfile s;
     st_trackAero := st_trackAero s; st_trackOvertaking := st_trackOvertaking s;
     st_trackChance := st_trackChance s; st_strategy := st_strategy s;
     st_criticalTurns := t; st_previousWinner := st_previousWinner s |}.

Definition set_previousWinner (p : PreviousWinnerText) (s : PState) : PState :=
  {| lineIndex := lineIndex s; st_errors := st_errors s; st_warnings := st_warnings s;
     st_raceConfig := st_raceConfig s; st_carProfile := st_carProfile s;
     st_trackAero := st_trackAero s; st_trackOvertaking := st_trackOvertaking s;
     st_trackChance := st_trackChance s; st_strategy := st_strategy s;
     st_criticalTurns := st_criticalTurns s; st_previousWinner := Some p |}.

(** A computation of the parser: it ends with a value, or with a thrown
    error (its message), and with the state it left. *)
Inductive Outcome (A : Type) :=
  | Ok (a : A) (s : PState)
  | Throw (msg : string) (s : PState).

Arguments Ok {A} a s.
Arguments Throw {A} msg s.

Definition M (A : Type) : Type := PState -> Outcome A.

Definition ret {A : Type} (a : A) : M A := fun s => Ok a s.

Definition bind {A B : Type} (m : M A) (k : A -> M B) : M B :=
  fun s =>
    match m s with
    | Ok a s' => k a s'
    | Throw msg s' => Throw msg s'
    end.

Definition throw {A : Type} (msg : string) : M A := fun s => Throw msg s.
Definition get : M PState := fun s => Ok s s.
Definition modify (f : PState -> PState) : M unit := fun s => Ok tt (f s).

Declare Scope parser_scope.
Delimit Scope parser_scope with parser.
Notation "x <- m ;; k" := (bind m (fun x => k))
  (at level 61, m at next level, right associativity) : parser_scope.
Notation "m ;; k" := (bind m (fun _ => k))
  (at level 61, right associativity) : parser_scope.

Definition whenM (b : bool) (m : M unit) : M unit := if b then m else ret tt.

(* ------------------------------------------------------------------------- *)
(** ** [parseStrategyDSL] *)

Section Parser.

#[local] Open Scope parser_scope.

(** [String(x)] for a number that is not an integer; the parser needs it
    for one diagnostic, the out-of-range overtaking chance. *)
Variable numberToString : float -> string.

(** [lines], the trimmed lines of the text. *)
Variable lines : list string.

(** Every loop of the parser moves [lineIndex] forward by one line per
    iteration and stops at [lines.length]: this many iterations suffice. *)
Definition fuel : nat := S (List.length lines).

(** [lines[lineIndex]], with the [TypeError] a method call on [undefined]
    would raise. *)
Definition currentLine : M string :=
  fun s =>
    match nth_error lines (lineIndex s) with
    | Some l => Ok l s
    | None => Throw "Cannot read properties of undefined (reading 'trim')" s
    end.

(** [lineIndex >= lines.length]. *)
Definition atEnd : M bool :=
  fun s => Ok (List.length lines <=? lineIndex s)%nat s.

Definition advance : M unit :=
  modify (fun s => set_lineIndex (S (lineIndex s)) s).

Definition addError (message : string) (section : option string) : M unit :=
  modify (fun s =>
    set_errors (st_errors s ++ [ {| line := lineIndex s + 1;
                                    err_message := message;
                                    section := section |} ]) s).

Definition pushWarning (w : string) : M unit :=
  modify (fun s => set_warnings (st_warnings s ++ [w]) s).

(** A [while] loop is its body, given what another round does, iterated. *)
Definition skipEmptyBody (again : M unit) : M unit :=
  e <- atEnd ;;
  if e then ret tt
  else
    l <- currentLine ;;
    if String.eqb (trim l) EmptyString
    then advance ;; again
    else ret tt.

Fixpoint skipEmptyLoop (n : nat) : M unit :=
  match n with
  | O => ret tt
  | S n' => skipEmptyBody (skipEmptyLoop n')
  end.

Definition skipEmpty : M unit := skipEmptyLoop fuel.

Definition parseRace : M unit :=
  skipEmpty ;;
  e <- atEnd ;;
  if e then addError "Missing RACE line" (Some "RACE")
  else
    l <- currentLine ;;
    let line := trim l in
    match full_match RACE_PATTERN line with
    | None =>
        addError (cat ["Invalid RACE line format: "; dq; line; dq]) (Some "RACE") ;;
        advance
    | Some m =>
        let trackName := group 1 m in
        let weather := group 3 m in
        let laps := parseInt (group 2 m) in
        let field := parseInt (group 4 m) in
        whenM (negb (isValidWeather (toLowerCase weather)))
          (addError (cat ["Invalid weather: "; dq; weather; dq; ". Must be one of: ";
                          joined Weather_text VALID_WEATHER]) (Some "RACE")) ;;
        whenM ((laps <? 1)%Z || (laps >? 100)%Z)
          (addError (cat ["Invalid lap count: "; JS.show laps;
                          ". Must be between 1 and 100"]) (Some "RACE")) ;;
        whenM ((field <? 2)%Z || (field >? 30)%Z)
          (addError (cat ["Invalid field size: "; JS.show field;
                          ". Must be between 2 and 30"]) (Some "RACE")) ;;
        modify (set_raceConfig {| t_trackName := toUpperCase trackName;
                                  t_totalLaps := laps;
                                  t_weather := toLowerCase weather;
                                  t_fieldSize := field |}) ;;
        advance
    end.

Definition parseCar : M unit :=
  skipEmpty ;;
  e <- atEnd ;;
  if e then addError "Missing CAR line" (Some "CAR")
  else
    l <- currentLine ;;
    let line := trim l in
    match full_match CAR_PATTERN line with
    | None =>
        addError (cat ["Invalid CAR line format: "; dq; line; dq]) (Some "CAR") ;;
        advance
    | Some m =>
        let pace := group 2 m in
        let risk := group 3 m in
        let start := parseInt (group 1 m) in
        let target := option_map parseInt (group_opt 4 m) in
        whenM (negb (isValidPaceClass (toLowerCase pace)))
          (addError (cat ["Invalid pace class: "; dq; pace; dq; ". Must be one of: ";
                          joined PaceClass_text VALID_PACE_CLASS]) (Some "CAR")) ;;
        whenM (negb (isValidRiskProfile (toLowerCase risk)))
          (addError (cat ["Invalid risk profile: "; dq; risk; dq; ". Must be one of: ";
                          joined RiskProfile_text VALID_RISK_PROFILE]) (Some "CAR")) ;;
        modify (set_carProfile {| t_startingGridPosition := start;
                                  t_paceClass := toLowerCase pace;
                                  t_riskProfile := toLowerCase risk;
                                  t_targetMinPosition := target |}) ;;
        advance
    end.

Definition parseTrackAero : M unit :=
  l <- currentLine ;;
  let line := trim l in
  match full_match TRACK_AERO_PATTERN line with
  | None =>
      addError (cat ["Invalid TRACK AERO line format: "; dq; line; dq]) (Some "TRACK")
  | Some m =>
      let aero := toLowerCase (group 1 m) in
      match asAero aero with
      | None =>
          addError (cat ["Invalid aero classification: "; dq; aero; dq;
                         ". Must be one of: ";
                         joined AeroClassification_text VALID_AERO]) (Some "TRACK")
      | Some a => modify (set_trackAero a)
      end
  end.

Definition parseTrackOvertaking : M unit :=
  l <- currentLine ;;
  let line := trim l in
  match full_match TRACK_OVERTAKING_PATTERN line with
  | None =>
      addError (cat ["Invalid TRACK OVERTAKING line format: "; dq; line; dq])
               (Some "TRACK")
  | Some m =>
      let overtaking := toLowerCase (group 1 m) in
      let chance := parseFloat (group 2 m) in
      match asOvertaking overtaking with
      | None =>
          addError (cat ["Invalid overtaking difficulty: "; dq; overtaking; dq;
                         ". Must be one of: ";
                         joined OvertakingDifficulty_text VALID_OVERTAKING])
                   (Some "TRACK")
      | Some o => modify (set_trackOvertaking o)
      end ;;
      if (chance <? 0)%float || JS.gtb chance 1
      then addError (cat ["Invalid overtaking chance: "; numberToString chance;
                          ". Must be between 0.0 and 1.0"]) (Some "TRACK")
      else modify (set_trackChance chance)
  end.

Definition parseTrack : M unit :=
  skipEmpty ;;
  e <- atEnd ;;
  if e then addError "Missing TRACK AERO line" (Some "TRACK")
  else
    parseTrackAero ;;
    advance ;;
    skipEmpty ;;
    e <- atEnd ;;
    if e then addError "Missing TRACK OVERTAKING line" (Some "TRACK")
    else
      parseTrackOvertaking ;;
      advance.

(** The [while] loop of [parseStrategy]; [stints] is the array built so far. *)
Definition stintBody (again : list StintText -> M (list StintText))
      (stints : list StintText) : M (list StintText) :=
  e <- atEnd ;;
  if e then ret stints
  else
    l <- currentLine ;;
    let line := trim l in
    if String.eqb (toUpperCase line) "END" then advance ;; ret stints
    else if String.eqb line EmptyString then advance ;; again stints
    else
      match full_match STINT_PATTERN line with
      | None =>
          addError (cat ["Invalid STINT line: "; dq; line; dq]) (Some "STRATEGY") ;;
          advance ;;
          again stints
      | Some m =>
          let tire := group 2 m in
          let stintNum := parseInt (group 1 m) in
          let laps := parseInt (group 3 m) in
          let tireUpper := toUpperCase tire in
          whenM (negb (isValidTire tireUpper))
            (addError (cat ["Invalid tire compound: "; dq; tire; dq;
                            ". Must be one of: ";
                            joined TireCompound_text VALID_TIRES])
                      (Some "STRATEGY")) ;;
          whenM (laps <? 1)%Z
            (addError (cat ["Invalid stint laps: "; JS.show laps;
                            ". Must be at least 1"]) (Some "STRATEGY")) ;;
          advance ;;
          again (stints ++ [ {| t_stintNumber := stintNum;
                                t_tireCompound := tireUpper;
                                t_lapsInStint := laps |} ])%list
      end.

Fixpoint stintLoop (n : nat) (stints : list StintText) : M (list StintText) :=
  match n with
  | O => ret stints
  | S n' => stintBody (stintLoop n') stints
  end.

Definition parseStrategy : M unit :=
  skipEmpty ;;
  e <- atEnd ;;
  if e then addError "Missing STRATEGY block" (Some "STRATEGY")
  else
    l <- currentLine ;;
    let line := trim l in
    match full_match STRATEGY_START_PATTERN line with
    | None =>
        addError (cat ["Invalid STRATEGY start line: "; dq; line; dq])
                 (Some "STRATEGY") ;;
        advance
    | Some m =>
        let label := group 1 m in
        advance ;;
        stints <- stintLoop fuel [] ;;
        whenM (List.length stints =? 0)%nat
          (addError "STRATEGY block must contain at least one STINT"
                    (Some "STRATEGY")) ;;
        modify (set_strategy {| t_label := label; t_stints := stints |})
    end.

Definition turnBody (again : M unit) : M unit :=
  e <- atEnd ;;
  if e then ret tt
  else
    l <- currentLine ;;
    let line := trim l in
    if String.eqb (toUpperCase line) "END" then advance
    else if String.eqb line EmptyString then advance ;; again
    else
      match full_match TURN_PATTERN line with
      | None =>
          addError (cat ["Invalid TURN line: "; dq; line; dq])
                   (Some "CRITICAL_TURNS") ;;
          advance ;;
          again
      | Some m =>
          let turnNum := parseInt (group 1 m) in
          let riskTags :=
            map (fun t => toLowerCase (trim t)) (split_commas (group 3 m)) in
          modify (fun s =>
            set_criticalTurns
              (st_criticalTurns s ++ [ {| turnNumber := turnNum;
                                          turn_name := group 2 m;
                                          riskTags := riskTags;
                                          note := group 4 m |} ]) s) ;;
          advance ;;
          again
      end.

Fixpoint turnLoop (n : nat) : M unit :=
  match n with
  | O => ret tt
  | S n' => turnBody (turnLoop n')
  end.

Definition parseCriticalTurns : M unit :=
  skipEmpty ;;
  e <- atEnd ;;
  if e then ret tt
  else
    l <- currentLine ;;
    if negb (String.eqb (toUpperCase (trim l)) "CRITICAL_TURNS") then ret tt
    else advance ;; turnLoop fuel.

(** [while (lineIndex < lines.length && lines[lineIndex].trim().toUpperCase() !== 'END') lineIndex++]. *)
Definition skipToEndBody (again : M unit) : M unit :=
  e <- atEnd ;;
  if e then ret tt
  else
    l <- currentLine ;;
    if negb (String.eqb (toUpperCase (trim l)) "END")
    then advance ;; again
    else ret tt.

Fixpoint skipToEnd (n : nat) : M unit :=
  match n with
  | O => ret tt
  | S n' => skipToEndBody (skipToEnd n')
  end.

Definition winnerStintBody (again : list (string * Z) -> M (list (string * Z)))
      (pwStints : list (string * Z)) : M (list (string * Z)) :=
  e <- atEnd ;;
  if e then ret pwStints
  else
    l <- currentLine ;;
    let line := trim l in
    if String.eqb (toUpperCase line) "END" then advance ;; ret pwStints
    else if String.eqb line EmptyString then advance ;; again pwStints
    else
      match full_match PREVIOUS_WINNER_STINT_PATTERN line with
      | None =>
          addError (cat ["Invalid PREVIOUS_WINNER stint line: "; dq; line; dq])
                   (Some "PREVIOUS_WINNER") ;;
          advance ;;
          again pwStints
      | Some m =>
          let tire := group 1 m in
          let tireUpper := toUpperCase tire in
          let laps := parseInt (group 2 m) in
          whenM (negb (isValidTire tireUpper))
            (addError (cat ["Invalid tire compound in PREVIOUS_WINNER: ";
                            dq; tire; dq]) (Some "PREVIOUS_WINNER")) ;;
          advance ;;
          again (pwStints ++ [(tireUpper, laps)])%list
      end.

Fixpoint winnerStintLoop (n : nat) (pwStints : list (string * Z))
      : M (list (string * Z)) :=
  match n with
  | O => ret pwStints
  | S n' => winnerStintBody (winnerStintLoop n') pwStints
  end.

Definition parsePreviousWinner : M unit :=
  skipEmpty ;;
  e <- atEnd ;;
  if e then ret tt
  else
    l <- currentLine ;;
    if negb (String.eqb (toUpperCase (trim l)) "PREVIOUS_WINNER") then ret tt
    else
      advance ;;
      skipEmpty ;;
      e <- atEnd ;;
      if e then addError "PREVIOUS_WINNER block is empty" (Some "PREVIOUS_WINNER")
      else
        l <- currentLine ;;
        let line := trim l in
        match full_match PREVIOUS_WINNER_YEAR_PATTERN line with
        | None =>
            addError (cat ["Invalid PREVIOUS_WINNER year line: "; dq; line; dq])
                     (Some "PREVIOUS_WINNER") ;;
            skipToEnd fuel ;;
            e <- atEnd ;;
            whenM (negb e) advance
        | Some m =>
            let year := parseInt (group 1 m) in
            let label := group 2 m in
            advance ;;
            skipEmpty ;;
            e <- atEnd ;;
            if e then
              modify (set_previousWinner
                        {| t_year := year; t_pw_label := label; t_pw_stints := [] |})
            else
              l <- currentLine ;;
              if negb (String.eqb (toUpperCase (trim l)) "STINTS:") then
                modify (set_previousWinner
                          {| t_year := year; t_pw_label := label; t_pw_stints := [] |})
              else
                advance ;;
                pwStints <- winnerStintLoop fuel [] ;;
                modify (set_previousWinner
                          {| t_year := year; t_pw_label := label;
                             t_pw_stints := pwStints |})
        end.

(** [stints.reduce((sum, s) => sum + s.lapsInStint, 0)]. *)
Definition totalStintLaps (stints : list StintText) : Z :=
  fold_left (fun sum s => (sum + t_lapsInStint s)%Z) stints 0%Z.

Definition lapMismatchWarning (total raceLaps : Z) : string :=
  cat ["Total stint laps ("; JS.show total; ") does not match race laps (";
       JS.show raceLaps; "). "; "This may affect simulation accuracy."].

Definition wetTireWarning : string :=
  "Wet weather conditions but no wet or intermediate tires selected. Consider tire choice.".

(** The checks between the section parsers and the result. *)
Definition postParseValidation : M unit :=
  s <- get ;;
  match st_raceConfig s, st_strategy s with
  | Some raceConfigValue, Some strategyValue =>
      let stints := t_stints strategyValue in
      whenM (negb (totalStintLaps stints =? t_totalLaps raceConfigValue)%Z)
        (pushWarning (lapMismatchWarning (totalStintLaps stints)
                                          (t_totalLaps raceConfigValue))) ;;
      whenM (String.eqb (t_weather raceConfigValue) "wet")
        (let hasWetTires :=
           existsb (fun st => String.eqb (t_tireCompound st) "INTERMEDIATE"
                              || String.eqb (t_tireCompound st) "WET") stints in
         whenM (negb hasWetTires) (pushWarning wetTireWarning))
  | _, _ => ret tt
  end ;;
  match st_raceConfig s, st_carProfile s with
  | Some raceConfigValue, Some carProfileValue =>
      whenM (t_startingGridPosition carProfileValue >? t_fieldSize raceConfigValue)%Z
        (addError (cat ["Starting position P";
                        JS.show (t_startingGridPosition carProfileValue);
                        " exceeds field size of ";
                        JS.show (t_fieldSize raceConfigValue)]) (Some "CAR"))
  | _, _ => ret tt
  end.

End Parser.

(** Building the document: each [as X] cast yields the member of the
    enumeration that the text denotes.  A text that denotes none blocks the
    document; this does not happen when no diagnostic was raised
    ([document_built]), the only case in which the code builds it. *)

Definition castStint (s : StintText) : option Stint :=
  match asTire (t_tireCompound s) with
  | Some c => Some {| stintNumber := t_stintNumber s;
                      tireCompound := c;
                      lapsInStint := t_lapsInStint s |}
  | None => None
  end.

Definition castWinnerStint (s : string * Z) : option PreviousWinnerStint :=
  match asTire (fst s) with
  | Some c => Some {| pw_tireCompound := c; pw_laps := snd s |}
  | None => None
  end.

Fixpoint castAll {A B : Type} (f : A -> option B) (xs : list A) : option (list B) :=
  match xs with
  | [] => Some []
  | x :: xs' =>
      match f x, castAll f xs' with
      | Some y, Some ys => Some (y :: ys)
      | _, _ => None
      end
  end.

Definition castRaceConfig (r : RaceConfigText) : option RaceConfig :=
  match asWeather (t_weather r) with
  | Some w => Some {| trackName := t_trackName r;
                      totalLaps := t_totalLaps r;
                      weather := w;
                      fieldSize := t_fieldSize r |}
  | None => None
  end.

Definition castCarProfile (c : CarProfileText) : option CarProfile :=
  match asPaceClass (t_paceClass c), asRiskProfile (t_riskProfile c) with
  | Some p, Some r => Some {| startingGridPosition := t_startingGridPosition c;
                              paceClass := p;
                              riskProfile := r;
                              targetMinPosition := t_targetMinPosition c |}
  | _, _ => None
  end.

Definition castStrategy (x : StrategyText) : option Strategy :=
  match castAll castStint (t_stints x) with
  | Some stints => Some {| label := t_label x; stints := stints |}
  | None => None
  end.

Definition castPreviousWinner (p : option PreviousWinnerText)
    : option (option PreviousWinnerStrategy) :=
  match p with
  | None => Some None
  | Some w =>
      match castAll castWinnerStint (t_pw_stints w) with
      | Some stints => Some (Some {| year := t_year w; pw_label := t_pw_label w;
                                     pw_stints := stints |})
      | None => None
      end
  end.

(** [parsedData], when all six required values are set. *)
Definition buildDocument (s : PState) : option ParsedDSL :=
  match st_raceConfig s, st_carProfile s, st_trackAero s,
        st_trackOvertaking s, st_trackChance s, st_strategy s with
  | Some r, Some c, Some aero, Some overtaking, Some chance, Some x =>
      match castRaceConfig r, castCarProfile c, castStrategy x,
            castPreviousWinner (st_previousWinner s) with
      | Some race, Some car, Some strategy, Some winner =>
          Some {| raceConfig := race;
                  carProfile := car;
                  trackProfile := {| aeroClassification := aero;
                                     overtakingDifficulty := overtaking;
                                     overtakingChance := chance;
                                     criticalTurns := st_criticalTurns s;
                                     previousWinnerStrategy := winner |};
                  strategy := strategy |}
      | _, _, _, _ => None
      end
  | _, _, _, _, _, _ => None
  end.

Definition failure (dslText : string) (s : PState) : DSLParseResult :=
  {| success := false; data := None; errors := st_errors s;
     parse_warnings := st_warnings s; rawDSL := dslText |}.

Section Main.

#[local] Open Scope parser_scope.

Variable numberToString : float -> string.
Variable dslText : string.

Definition dslLines : list string := map trimEnd (split_lines dslText).

(** The section parsers, in the order of the grammar, and the checks
    that follow them. *)
Definition parseSections : M unit :=
  parseRace dslLines ;;
  parseCar dslLines ;;
  parseTrack numberToString dslLines ;;
  parseStrategy dslLines ;;
  parseCriticalTurns dslLines ;;
  parsePreviousWinner dslLines ;;
  postParseValidation.

(** "Build result". *)
Definition buildResult : M DSLParseResult :=
  s <- get ;;
  if (0 <? List.length (st_errors s))%nat then ret (failure dslText s)
  else
    match buildDocument s with
    | None =>
        addError "Missing required sections in DSL" None ;;
        s' <- get ;;
        ret (failure dslText s')
    | Some parsedData =>
        ret {| success := true; data := Some parsedData; errors := [];
               parse_warnings := st_warnings s; rawDSL := dslText |}
    end.

(** The body of the [try] block. *)
Definition parseBody : M DSLParseResult :=
  parseSections ;; buildResult.

(** The [try] block and its [catch] clause. *)
Definition parseStrategyDSL : DSLParseResult :=
  match parseBody initialPState with
  | Ok result _ => result
  | Throw errorMessage s =>
      {| success := false; data := None;
         errors := [ {| line := lineIndex s + 1;
                        err_message := cat ["Parser exception: "; errorMessage];
                        section := None |} ];
         parse_warnings := st_warnings s; rawDSL := dslText |}
  end.

End Main.

(* ========================================================================= *)
(** * Vocabulary of the properties *)

#[local] Close Scope string_scope.
#[local] Open Scope Z_scope.

(** ** Of the simulation engine *)

(** The gain of the first lap, as a function of what it depends on: the
    residue that seeds the lap, the two profiles and the potential gain. *)
Definition firstLapGain (k : Z) (p : PaceClass) (r : RiskProfile) (potentialGain : Z) : Z :=
  let firstLapSeed := (JS.of_Z k / 100)%float in
  let gainThreshold :=
    (0.3 * overtakingAbility (PACE_CLASS_EFFECTS p)
     * overtakingAggressiveness (RISK_PROFILE_EFFECTS r))%float in
  Z.min potentialGain
    (JS.floor (firstLapSeed / gainThreshold * JS.of_Z potentialGain)%float + 1).

(** A test that holds of every pace class and risk profile. *)
Definition all_profiles (P : PaceClass -> RiskProfile -> bool) : bool :=
  forallb (fun p => forallb (P p) VALID_RISK_PROFILE) VALID_PACE_CLASS.

(** The result of [simulateOvertaking] on the lap that follows state [st]. *)
Definition overtakingOf (race : RaceConfig) (car : CarProfile) (track : TrackProfile)
    (st : RaceState) : OvertakeResult :=
  simulateOvertaking (currentPosition st) track (paceClass car) (riskProfile car)
    (currentLap st + 1) (currentLap st + 1 =? 1) (fieldSize race).

(** The tire wear a stint records, lap after lap. *)
Definition stintWear (stint : Stint) : list float :=
  map (fun lap => calculateTireWear lap (tireCompound stint))
      (lapRange (lapsInStint stint)).

(** The call the API route makes once the text has parsed. *)
Definition simulateDocument (d : ParsedDSL) : SimulationResult :=
  simulateRace (raceConfig d) (carProfile d) (strategy d) (trackProfile d).

(** The range as the specification words it: the prediction plus or minus
    the variance, both ends clamped into [ceiling, min(fieldSize, floor)]. *)
Definition clampInto (lo hi x : Z) : Z := Z.max lo (Z.min hi x).

Definition specVariance (r : RiskProfile) : Z :=
  match r with
  | aggressive => 2
  | conservative | balanced => 1
  end.

Definition specPositionRange (race : RaceConfig) (car : CarProfile)
    (predicted : Z) : PositionRange :=
  let paceEffect := PACE_CLASS_EFFECTS (paceClass car) in
  let lo := realisticCeiling paceEffect in
  let hi := Z.min (fieldSize race) (realisticFloor paceEffect) in
  {| range_min := clampInto lo hi (predicted - specVariance (riskProfile car));
     range_max := clampInto lo hi (predicted + specVariance (riskProfile car)) |}.

(** The sum of a list of integers. *)
Definition sumZ (xs : list Z) : Z := fold_right Z.add 0 xs.

(** The laps the stint loop runs, in order: each stint with its lap counter. *)
Definition simulatedLaps (strategy : Strategy) : list (Stint * Z) :=
  flat_map (fun stint => map (fun lap => (stint, lap)) (lapRange (lapsInStint stint)))
           (stints strategy).

(** [chain R x xs]: in [x :: xs], every element is related to the next. *)
Fixpoint chain {A : Type} (R : A -> A -> Prop) (x : A) (xs : list A) : Prop :=
  match xs with
  | [] => True
  | y :: ys => R x y /\ chain R y ys
  end.

(** A lap record with the [pit_stop] event. *)
Definition isPitStop (record : LapData) : bool :=
  match event record with
  | Some pit_stop => true
  | _ => false
  end.

(** [stintIdx === strategy.stints.length - 1]. *)
Definition isLastStint (strategy : Strategy) (stintIdx : nat) : bool :=
  (S stintIdx =? List.length (stints strategy))%nat.


(** [linked start metrics]: the first stint starts on [start] and every
    other stint on the position the one before it ended on. *)
Fixpoint linked (start : Z) (metrics : list StintMetrics) : Prop :=
  match metrics with
  | [] => True
  | m :: rest => startPosition m = start /\ linked (endPosition m) rest
  end.

(** A test that holds of every pace class. *)
Definition all_pace_classes (P : PaceClass -> bool) : bool := forallb P VALID_PACE_CLASS.

(** The bounds of the probability of points, at a predicted position. *)
Definition pointsProbabilityOk (predicted : Z) : bool :=
  all_pace_classes (fun p =>
    (0.05 <=? pointsProbability p predicted)%float
    && (pointsProbability p predicted <=? 0.85)%float).

(** Every character of a string passes a test. *)
Fixpoint all_chars (p : ascii -> bool) (s : string) : bool :=
  match s with
  | EmptyString => true
  | String c s' => p c && all_chars p s'
  end.

(** ** Of the tire model *)

#[local] Open Scope float_scope.

(** The degradation rate of a compound under a weather and a risk profile. *)
Definition baseDegradation (compound : TireCompound) (w : Weather) (r : RiskProfile) : float :=
  degradationRate (TIRE_PROFILES compound) * WEATHER_DEGRADATION_MULTIPLIER w
  * tireManagement (RISK_PROFILE_EFFECTS r).

(** The surcharge on that rate [k] laps past the cliff: a [k]/10 share of
    the difference between the post-cliff rate and the rate. *)
Definition cliffPenalty (compound : TireCompound) (k : Z) : float :=
  (degradationRate (TIRE_PROFILES compound) * cliffMultiplier (TIRE_PROFILES compound)
   - degradationRate (TIRE_PROFILES compound)) * JS.of_Z k / 10.

(** The degradation time of a lap beyond its base term, the rate times the
    lap: the additional penalty of the laps past the cliff. *)
Definition cliffPenaltyTime (compound : TireCompound) (w : Weather) (r : RiskProfile)
    (lapInStint : Z) : float :=
  calculateTireDegradation compound lapInStint w r
  - baseDegradation compound w r * JS.of_Z lapInStint.

(** The fuel on board after a number of laps: the tank starts at
    [startingFuelKg] and a lap burns [fuelConsumptionPerLap], which no entry
    of [TRACK_DATABASE] overrides. *)
Fixpoint fuelAfter (laps : nat) : float :=
  match laps with
  | O => 110
  | S before => JS.max 0 (fuelAfter before - 1.8)
  end.

(** The lap time of a lap, from the degradation time it is given and from
    what its record tells of the lap: the steps of the loop body that build
    [lapTime], in their order. *)
Definition lapTimeWith (race : RaceConfig) (car : CarProfile) (track : TrackProfile)
    (stint : Stint) (lapInStint : Z) (degradation : float) (record : LapData) : float :=
  let trackData := getTrackData (trackName race) in
  let lapTime := baseLapTime trackData + lapTimeDelta (PACE_CLASS_EFFECTS (paceClass car)) in
  let lapTime := lapTime + degradation in
  let lapTime :=
    lapTime
    - (startingFuelKg trackData - fuelAfter (Z.to_nat (lapNumber record) - 1))
      * fuelEffectPerKg trackData * 0.5 in
  let lapTime :=
    if (lapInStint <=? 3)%Z then
      lapTime + (1 - initialGrip (TIRE_PROFILES (tireCompound stint))) * 2
    else lapTime in
  let lapTime :=
    if (position record >? 1)%Z
       && AeroClassification_eqb (aeroClassification track) drag_reliant
    then lapTime - 0.2 else lapTime in
  lapTime + trafficPenalty record.

(** On the first 62 laps: the fuel is never negative, does not increase and
    is at most the starting load; after lap 62 it is zero and stays so. *)
Definition fuelTableOk : bool :=
  forallb (fun k => (0 <=? fuelAfter (S k)) && (fuelAfter (S k) <=? fuelAfter k)
                    && (fuelAfter k <=? 110))
          (seq 0 62)
  && (fuelAfter 62 =? 0) && (JS.max 0 (fuelAfter 62 - 1.8) =? 0).

#[local] Close Scope float_scope.

(** The shape of a rounded positive value: infinite, or finite with an
    exponent that is at least [k]. *)
Definition at_least (k : Z) (x : spec_float) : Prop :=
  x = S754_infinity false \/ exists m e, x = S754_finite false m e /\ k <= e.

(** The shape of the values the wear formula goes through: [+infinity], or
    finite and positive with exponent at least [k]. *)
Definition exponent_at_least (k : Z) (a : float) : Prop := at_least k (Prim2SF a).

#[local] Open Scope float_scope.

(** The wear of the laps 0 to 128 of a compound, computed once. *)
Definition wearTable (c : TireCompound) : list float :=
  map (fun n => calculateTireWear (Z.of_nat n) c) (seq 0 129).

(** The entry of lap [n]. *)
Definition wearAt (table : list float) (n : nat) : float := nth n table 0.

(** On the table: every entry from lap 1 on is in [0, 1] and no later entry
    is below it. *)
Definition wearTableOk (c : TireCompound) : bool :=
  let table := wearTable c in
  forallb (fun i =>
    (i <? 1)%nat
    || ((0 <=? wearAt table i) && (wearAt table i <=? 1)
        && forallb (fun j => (j <? i)%nat || (wearAt table i <=? wearAt table j))
                   (seq 0 129)))
    (seq 0 129).

(** Non-decreasing, in the order of the list. *)
Definition nondecreasing (ws : list float) : Prop :=
  forall (i j : nat) (a b : float),
    (i <= j)%nat -> nth_error ws i = Some a -> nth_error ws j = Some b ->
    (a <=? b) = true.

#[local] Close Scope float_scope.

(** ** Of the parser *)

(** [grows s s']: from [s] to [s'] the diagnostics were only appended to and
    the warnings did not change. *)
Definition grows (s s' : PState) : Prop :=
  st_warnings s' = st_warnings s
  /\ exists added, st_errors s' = st_errors s ++ added.

(** The state a run ends in, whether it returns or throws. *)
Definition final_state {A : Type} (o : Outcome A) : PState :=
  match o with
  | Ok _ s => s
  | Throw _ s => s
  end.

(** A computation is steady when, however it ends, it has only appended
    diagnostics. *)
Definition steady {A : Type} (m : M A) : Prop :=
  forall s, grows s (final_state (m s)).

(** The lines that are left to read. *)
Definition remaining (lines : list string) (s : PState) : nat :=
  (List.length lines - lineIndex s)%nat.

(** Every text held in the state denotes a member of its enumeration. *)
Definition castable (s : PState) : Prop :=
  (forall r, st_raceConfig s = Some r -> castRaceConfig r <> None)
  /\ (forall c, st_carProfile s = Some c -> castCarProfile c <> None)
  /\ (forall x, st_strategy s = Some x -> castStrategy x <> None)
  /\ castPreviousWinner (st_previousWinner s) <> None.

(** The invariant of the parser: a text that denotes nothing has been
    reported. *)
Definition typed (s : PState) : Prop := st_errors s = [] -> castable s.

(** A computation keeps the invariant. *)
Definition typing {A : Type} (m : M A) : Prop :=
  forall s a s', typed s -> m s = Ok a s' -> typed s'.

(** A computation that returns from every state. *)
Definition returns {A : Type} (m : M A) : Prop :=
  forall s, exists a s', m s = Ok a s'.

(** The shape of a failed parse. *)
Definition failed (r : DSLParseResult) : Prop :=
  success r = false /\ data r = None /\ errors r <> [].

(** The words by which the specification recognises the warning. *)
Definition mismatchPhrase : string := "does not match race laps".

(** The warnings that mention the lap mismatch. *)
Definition mismatchWarnings (ws : list string) : list string :=
  filter (includes mismatchPhrase) ws.

(** ** Documents used as examples *)

#[local] Open Scope string_scope.

Definition newline : string := String "010" EmptyString.

(** A one-stop race at Monza, twenty cars, a midfield car starting twelfth. *)
Definition monzaText : string :=
  join newline
    [ "RACE MONZA LAPS=53 WEATHER=normal FIELD=20";
      "CAR START=P12 PACE=midfield RISK=balanced";
      "TRACK AERO=drag_reliant";
      "TRACK OVERTAKING=medium CHANCE=0.5";
      cat ["STRATEGY "; dq; "One stop"; dq];
      "  STINT 1 TIRE=MEDIUM LAPS=25";
      "  STINT 2 TIRE=HARD LAPS=28";
      "END" ].

Definition monzaDocument : ParsedDSL := {|
  raceConfig := {| trackName := "MONZA"; totalLaps := 53;
                   weather := normal; fieldSize := 20 |};
  carProfile := {| startingGridPosition := 12; paceClass := midfield;
                   riskProfile := balanced; targetMinPosition := None |};
  trackProfile := {| aeroClassification := drag_reliant;
                     overtakingDifficulty := medium;
                     overtakingChance := 0.5%float;
                     criticalTurns := [];
                     previousWinnerStrategy := None |};
  strategy := {| label := "One stop";
                 stints := [ {| stintNumber := 1; tireCompound := MEDIUM;
                                lapsInStint := 25 |};
                             {| stintNumber := 2; tireCompound := HARD;
                                lapsInStint := 28 |} ] |}
|}.

(** A five-car race with a backmarker starting third. *)
Definition smallFieldText : string :=
  join newline
    [ "RACE MONZA LAPS=10 WEATHER=normal FIELD=5";
      "CAR START=P3 PACE=backmarker RISK=balanced";
      "TRACK AERO=balanced";
      "TRACK OVERTAKING=medium CHANCE=0.5";
      cat ["STRATEGY "; dq; "No stop"; dq];
      "  STINT 1 TIRE=MEDIUM LAPS=10";
      "END" ].

Definition smallFieldDocument : ParsedDSL := {|
  raceConfig := {| trackName := "MONZA"; totalLaps := 10;
                   weather := normal; fieldSize := 5 |};
  carProfile := {| startingGridPosition := 3; paceClass := backmarker;
                   riskProfile := balanced; targetMinPosition := None |};
  trackProfile := {| aeroClassification := aero_balanced;
                     overtakingDifficulty := medium;
                     overtakingChance := 0.5%float;
                     criticalTurns := [];
                     previousWinnerStrategy := None |};
  strategy := {| label := "No stop";
                 stints := [ {| stintNumber := 1; tireCompound := MEDIUM;
                                lapsInStint := 10 |} ] |}
|}.

(** The Monza race with stints that add up to 50 laps instead of 53. *)
Definition shortStintsText : string :=
  join newline
    [ "RACE MONZA LAPS=53 WEATHER=normal FIELD=20";
      "CAR START=P12 PACE=midfield RISK=balanced";
      "TRACK AERO=drag_reliant";
      "TRACK OVERTAKING=medium CHANCE=0.5";
      cat ["STRATEGY "; dq; "One stop"; dq];
      "  STINT 1 TIRE=MEDIUM LAPS=25";
      "  STINT 2 TIRE=HARD LAPS=25";
      "END" ].

#[local] Close Scope string_scope.

(* ========================================================================= *)
(** * Properties of the simulation engine *)

#[local] Close Scope string_scope.
#[local] Open Scope Z_scope.

(** ** Integer comparisons *)

Lemma gtb_true (a b : Z) : b < a -> (a >? b) = true.
Proof. intros H. rewrite Z.gtb_ltb. apply Z.ltb_lt. exact H. Qed.

Lemma gtb_false (a b : Z) : a <= b -> (a >? b) = false.
Proof. intros H. rewrite Z.gtb_ltb. apply Z.ltb_ge. exact H. Qed.

(** ** Checking a finite range by computation *)

Lemma forallb_range (P : Z -> bool) (n : nat) :
  forallb P (map Z.of_nat (seq 0 n)) = true ->
  forall k, 0 <= k < Z.of_nat n -> P k = true.
Proof.
  intros H k Hk.
  rewrite forallb_forall in H. apply H.
  apply in_map_iff. exists (Z.to_nat k). split; [lia|].
  apply in_seq. lia.
Qed.

(** ** The overtaking step stays on the grid *)

Lemma all_profiles_spec (P : PaceClass -> RiskProfile -> bool) :
  all_profiles P = true -> forall p r, P p r = true.
Proof.
  unfold all_profiles. intros H p r.
  rewrite forallb_forall in H.
  assert (Hp : In p VALID_PACE_CLASS) by (destruct p; simpl; tauto).
  specialize (H p Hp). rewrite forallb_forall in H.
  apply H. destruct r; simpl; tauto.
Qed.

Lemma firstLapGain_range (k : Z) (p : PaceClass) (r : RiskProfile) (g : Z) :
  0 <= k < 100 -> 1 <= g <= 3 -> 1 <= firstLapGain k p r g <= g.
Proof.
  intros Hk Hg.
  assert (H : (1 <=? firstLapGain k p r g) && (firstLapGain k p r g <=? g) = true).
  { revert p r.
    apply (all_profiles_spec
             (fun p r => (1 <=? firstLapGain k p r g) && (firstLapGain k p r g <=? g))).
    revert k Hk.
    apply (forallb_range
             (fun k => all_profiles (fun p r =>
                (1 <=? firstLapGain k p r g) && (firstLapGain k p r g <=? g))) 100).
    assert (Hg' : g = 1 \/ g = 2 \/ g = 3) by lia.
    destruct Hg' as [-> | [-> | ->]]; vm_compute; reflexivity. }
  apply andb_prop in H. lia.
Qed.

Lemma seed_residue (n : Z) : 0 <= n -> 0 <= Z.rem n 100 < 100.
Proof. intros H. apply Z.rem_bound_pos; lia. Qed.

Lemma ceiling_floor (p : PaceClass) :
  1 <= realisticCeiling (PACE_CLASS_EFFECTS p) <= realisticFloor (PACE_CLASS_EFFECTS p).
Proof. destruct p; simpl; lia. Qed.

(** From a position on the grid, one call of [simulateOvertaking] answers a
    position on the grid. *)
Lemma simulateOvertaking_on_grid
    (pos : Z) (track : TrackProfile) (p : PaceClass) (r : RiskProfile)
    (lap : Z) (isFirstLap : bool) (fieldSize : Z) :
  1 <= pos <= fieldSize ->
  1 <= newPosition (simulateOvertaking pos track p r lap isFirstLap fieldSize) <= fieldSize.
Proof.
  intros Hpos.
  pose proof (ceiling_floor p) as Hcf.
  unfold simulateOvertaking.
  destruct isFirstLap.
  - match goal with
    | |- context [Z.min ?g (JS.floor ?x + 1)] =>
        pose proof (firstLapGain_range (Z.rem (pos * 47 + 13) 100) p r g
                      (seed_residue (pos * 47 + 13) ltac:(lia))) as Hgain
    end.
    unfold firstLapGain in Hgain.
    destruct (_ && negb (pos <=? _)) eqn:Hgo.
    + apply andb_prop in Hgo. destruct Hgo as [_ Hc].
      apply negb_true_iff, Z.leb_gt in Hc.
      cbn [newPosition].
      assert (Hg : 1 <= (if pos >? 10 then 3 else if pos >? 5 then 2 else 1) <= 3)
        by (destruct (pos >? 10), (pos >? 5); lia).
      specialize (Hgain Hg). lia.
    + destruct (JS.gtb _ _); cbn [newPosition]; [|lia].
      destruct (pos <? 5); lia.
  - destruct (_ && (pos >? 1) && negb (pos <=? _)) eqn:Hgo.
    + apply andb_prop in Hgo. destruct Hgo as [_ Hc].
      apply negb_true_iff, Z.leb_gt in Hc.
      cbn [newPosition]. lia.
    + destruct (_ && (pos <? fieldSize)) eqn:Hback; cbn [newPosition]; [|lia].
      apply andb_prop in Hback. destruct Hback as [_ Hlt].
      apply Z.ltb_lt in Hlt. lia.
Qed.

(** ** What one lap records *)

Section LapFacts.

Variables (race : RaceConfig) (car : CarProfile)
          (strategy : Strategy) (track : TrackProfile).

Lemma simulateLap_shape (i : nat) (stint : Stint) (last : bool)
    (s : StintState) (lap : Z) :
  exists record times loss st',
    simulateLap race car strategy track i stint last s lap =
      {| race_state := st'; stintLapTimes := times; stintDegradationLoss := loss |}
    /\ st_lapData st' = st_lapData (race_state s) ++ [record]
    /\ currentPosition st' = newPosition (overtakingOf race car track (race_state s))
    /\ currentLap st' = currentLap (race_state s) + 1
    /\ position record = newPosition (overtakingOf race car track (race_state s))
    /\ lapNumber record = currentLap (race_state s) + 1
    /\ tireWear record = calculateTireWear lap (tireCompound stint)
    /\ lap_tireCompound record = tireCompound stint
    /\ lap_stintNumber record = stintNumber stint.
Proof.
  unfold simulateLap, overtakingOf.
  set (first := currentLap (race_state s) + 1 =? 1).
  set (ov := simulateOvertaking _ _ _ _ _ first _).
  clearbody ov. clearbody first.
  destruct first, (overtook ov), (wasOvertaken ov),
    ((lap =? lapsInStint stint) && negb last);
    do 4 eexists; (split; [reflexivity|]); cbn; repeat split; reflexivity.
Qed.

(** The laps of one stint, run from state [s]: the records they append. *)
Lemma stint_laps (i : nat) (stint : Stint) (last : bool) (laps : list Z) :
  forall s : StintState,
  exists records,
    let s' := fold_left (simulateLap race car strategy track i stint last) laps s in
    st_lapData (race_state s') = st_lapData (race_state s) ++ records
    /\ map tireWear records =
       map (fun lap => calculateTireWear lap (tireCompound stint)) laps
    /\ currentLap (race_state s') = currentLap (race_state s) + Z.of_nat (List.length laps)
    /\ (1 <= currentPosition (race_state s) <= fieldSize race ->
        1 <= currentPosition (race_state s') <= fieldSize race
        /\ Forall (fun r => 1 <= position r <= fieldSize race) records).
Proof.
  induction laps as [|lap laps IH]; intros s.
  - exists []. cbn. rewrite app_nil_r. repeat split; try tauto; try lia. constructor.
  - destruct (simulateLap_shape i stint last s lap)
      as (record & times & loss & st' & Heq & Hdata & Hpos & Hlap & Hrpos & _ & Hwear & _).
    destruct (IH {| race_state := st'; stintLapTimes := times;
                    stintDegradationLoss := loss |})
      as (records & Hdata' & Hwear' & Hlap' & Hgrid').
    exists (record :: records).
    cbn [fold_left]. rewrite Heq.
    cbn [race_state] in *.
    split; [|split; [|split]].
    + cbn zeta in Hdata'. rewrite Hdata', Hdata, <- app_assoc. reflexivity.
    + cbn [map]. rewrite Hwear. f_equal. exact Hwear'.
    + cbn zeta in Hlap'. rewrite Hlap', Hlap. cbn [List.length]. lia.
    + intros Hgrid.
      assert (Hst' : 1 <= currentPosition st' <= fieldSize race).
      { rewrite Hpos. apply simulateOvertaking_on_grid. exact Hgrid. }
      destruct (Hgrid' Hst') as [Hfinal Hall].
      split; [exact Hfinal|].
      constructor; [|exact Hall].
      rewrite Hrpos. apply simulateOvertaking_on_grid. exact Hgrid.
Qed.

(** The stint loop, run from any accumulator over any indexed stints. *)
Lemma stints_run (indexed : list (nat * Stint)) :
  forall (st : RaceState) (metrics : list StintMetrics)
         (warnings : list SimulationWarning),
  exists st' newMetrics warnings' records,
    fold_left (simulateStint race car strategy track) indexed (st, metrics, warnings)
      = (st', metrics ++ newMetrics, warnings')
    /\ st_lapData st' = st_lapData st ++ records
    /\ map tireWear records = flat_map stintWear (map snd indexed)
    /\ map sm_totalLaps newMetrics = map lapsInStint (map snd indexed)
    /\ (1 <= currentPosition st <= fieldSize race ->
        1 <= currentPosition st' <= fieldSize race
        /\ Forall (fun r => 1 <= position r <= fieldSize race) records).
Proof.
  induction indexed as [|[i stint] indexed IH]; intros st metrics warnings.
  - exists st, [], warnings, []. cbn. rewrite !app_nil_r.
    repeat split; try tauto. constructor.
  - cbn [fold_left]. unfold simulateStint at 2.
    set (last := (S i =? List.length (stints strategy))%nat).
    set (s0 := {| race_state := st; stintLapTimes := [];
                  stintDegradationLoss := 0%float |}).
    destruct (stint_laps i stint last (lapRange (lapsInStint stint)) s0)
      as (recs & Hdata & Hwear & _ & Hgrid).
    cbn zeta in Hdata, Hgrid.
    set (s1 := fold_left (simulateLap race car strategy track i stint last)
                 (lapRange (lapsInStint stint)) s0) in *.
    match goal with
    | |- context [fold_left _ indexed (race_state s1, metrics ++ [?m], ?w)] =>
        destruct (IH (race_state s1) (metrics ++ [m]) w)
          as (st' & newMetrics & warnings' & records & Hrun & Hdata' & Hwear' & Hlaps' & Hgrid');
        exists st', (m :: newMetrics), warnings', (recs ++ records)
    end.
    split; [|split; [|split; [|split]]].
    + rewrite Hrun, <- app_assoc. reflexivity.
    + rewrite Hdata', Hdata. subst s0. cbn [race_state]. rewrite app_assoc. reflexivity.
    + rewrite map_app, Hwear, Hwear'. reflexivity.
    + cbn [map sm_totalLaps snd]. f_equal. exact Hlaps'.
    + intros Hst. subst s0. cbn [race_state] in Hgrid.
      destruct (Hgrid Hst) as [H1 H2].
      destruct (Hgrid' H1) as [H3 H4].
      split; [exact H3|]. apply Forall_app. split; assumption.
Qed.

Lemma indexedStints_stints : map snd (indexedStints strategy) = stints strategy.
Proof.
  unfold indexedStints.
  generalize 0%nat. induction (stints strategy) as [|x xs IH]; intros n.
  - reflexivity.
  - cbn. f_equal. apply IH.
Qed.

(** The whole stint loop of [simulateRace]. *)
Lemma runStints_spec :
  exists st metrics warnings,
    runStints race car strategy track = (st, metrics, warnings)
    /\ map tireWear (st_lapData st) = flat_map stintWear (stints strategy)
    /\ map sm_totalLaps metrics = map lapsInStint (stints strategy)
    /\ (1 <= startingGridPosition car <= fieldSize race ->
        1 <= currentPosition st <= fieldSize race
        /\ Forall (fun r => 1 <= position r <= fieldSize race) (st_lapData st)).
Proof.
  unfold runStints.
  destruct (stints_run (indexedStints strategy) (initialState race car) [] [])
    as (st & metrics & warnings & records & Hrun & Hdata & Hwear & Hlaps & Hgrid).
  exists st, metrics, warnings.
  rewrite indexedStints_stints in *.
  cbn [initialState st_lapData currentPosition app] in Hdata, Hgrid.
  rewrite Hdata.
  split; [exact Hrun|]. split; [exact Hwear|]. split; [exact Hlaps|].
  exact Hgrid.
Qed.

End LapFacts.

(** ** The example documents parse *)

Lemma monzaText_parses (numberToString : float -> string) :
  parseStrategyDSL numberToString monzaText =
    {| success := true; data := Some monzaDocument; errors := [];
       parse_warnings := []; rawDSL := monzaText |}.
Proof. vm_compute. reflexivity. Qed.

Lemma smallFieldText_parses (numberToString : float -> string) :
  parseStrategyDSL numberToString smallFieldText =
    {| success := true; data := Some smallFieldDocument; errors := [];
       parse_warnings := []; rawDSL := smallFieldText |}.
Proof. vm_compute. reflexivity. Qed.

(** ** Positions *)

(** C10.  When the car starts on the grid (1 <= startingGridPosition <=
    fieldSize), every lap record of the simulation has its position in
    [1, fieldSize]: the per-lap overtaking update never leaves the grid. *)
Theorem lap_positions_on_grid
    (race : RaceConfig) (car : CarProfile) (strategy : Strategy) (track : TrackProfile) :
  1 <= startingGridPosition car <= fieldSize race ->
  Forall (fun record => 1 <= position record <= fieldSize race)
         (lapData (simulateRace race car strategy track)).
Proof.
  intros Hstart. unfold simulateRace.
  destruct (runStints_spec race car strategy track)
    as (st & metrics & warnings & -> & _ & _ & Hgrid).
  cbn [lapData]. apply Hgrid. exact Hstart.
Qed.

Lemma lap_positions_on_grid_witness :
  Forall (fun record => 1 <= position record <= 20)
         (lapData (simulateDocument monzaDocument)).
Proof.
  apply (lap_positions_on_grid (raceConfig monzaDocument) (carProfile monzaDocument)
           (strategy monzaDocument) (trackProfile monzaDocument)).
  cbn. lia.
Defined.

(** The position the stint loop ends on is on the grid too. *)
Lemma final_position_on_grid
    (race : RaceConfig) (car : CarProfile) (strategy : Strategy) (track : TrackProfile) :
  1 <= startingGridPosition car <= fieldSize race ->
  1 <= currentPosition (fst (fst (runStints race car strategy track))) <= fieldSize race.
Proof.
  intros Hstart.
  destruct (runStints_spec race car strategy track)
    as (st & metrics & warnings & -> & _ & _ & Hgrid).
  cbn [fst]. apply Hgrid. exact Hstart.
Qed.

Lemma predicted_is_clamped
    (race : RaceConfig) (car : CarProfile) (strategy : Strategy) (track : TrackProfile) :
  predictedFinishPosition (simulateRace race car strategy track) =
  clampToPaceClass (paceClass car)
    (currentPosition (fst (fst (runStints race car strategy track)))).
Proof.
  unfold simulateRace.
  destruct (runStints race car strategy track) as [[st metrics] warnings].
  reflexivity.
Qed.

Lemma range_of_predicted
    (race : RaceConfig) (car : CarProfile) (strategy : Strategy) (track : TrackProfile) :
  predictedPositionRange (simulateRace race car strategy track) =
  positionRange race car (predictedFinishPosition (simulateRace race car strategy track)).
Proof.
  unfold simulateRace.
  destruct (runStints race car strategy track) as [[st metrics] warnings].
  reflexivity.
Qed.

(** The clamp keeps the prediction inside the pace-class envelope, and
    inside the field when the field reaches the ceiling. *)
Lemma clamped_prediction
    (race : RaceConfig) (car : CarProfile) (strategy : Strategy) (track : TrackProfile) :
  1 <= startingGridPosition car <= fieldSize race ->
  let predicted := predictedFinishPosition (simulateRace race car strategy track) in
  let paceEffect := PACE_CLASS_EFFECTS (paceClass car) in
  realisticCeiling paceEffect <= predicted <= realisticFloor paceEffect
  /\ (realisticCeiling paceEffect <= fieldSize race -> 1 <= predicted <= fieldSize race).
Proof.
  intros Hstart. cbv zeta.
  rewrite predicted_is_clamped.
  pose proof (final_position_on_grid race car strategy track Hstart) as Hfinal.
  pose proof (ceiling_floor (paceClass car)) as Hcf.
  unfold clampToPaceClass. lia.
Qed.

(** C1, as the code has it.  When the car starts on the grid, the predicted
    finish position lies within [realisticCeiling, realisticFloor] of the
    car's pace class; it lies within [1, fieldSize] as well whenever the
    field is at least as large as that ceiling. *)
Theorem predicted_position_bounds
    (race : RaceConfig) (car : CarProfile) (strategy : Strategy) (track : TrackProfile) :
  1 <= startingGridPosition car <= fieldSize race ->
  let predicted := predictedFinishPosition (simulateRace race car strategy track) in
  let paceEffect := PACE_CLASS_EFFECTS (paceClass car) in
  realisticCeiling paceEffect <= predicted <= realisticFloor paceEffect
  /\ (realisticCeiling paceEffect <= fieldSize race -> 1 <= predicted <= fieldSize race).
Proof.
  intros Hstart predicted paceEffect.
  pose proof (ceiling_floor (paceClass car)) as Hcf.
  destruct (clamped_prediction race car strategy track Hstart) as [Henvelope Hfield].
  split; [exact Henvelope|].
  intros Hceiling. exact (Hfield Hceiling).
Qed.

Lemma predicted_position_bounds_witness :
  let predicted := predictedFinishPosition (simulateDocument monzaDocument) in
  5 <= predicted <= 14 /\ (5 <= 20 -> 1 <= predicted <= 20).
Proof.
  apply (predicted_position_bounds (raceConfig monzaDocument) (carProfile monzaDocument)
           (strategy monzaDocument) (trackProfile monzaDocument)).
  cbn. lia.
Defined.

(** C1, as the claim states it, fails on a document the parser accepts: a
    backmarker in a field of five is predicted tenth. *)
Lemma predicted_position_outside_field :
  (forall numberToString,
     data (parseStrategyDSL numberToString smallFieldText) = Some smallFieldDocument)
  /\ 1 <= startingGridPosition (carProfile smallFieldDocument)
          <= fieldSize (raceConfig smallFieldDocument)
  /\ 2 <= fieldSize (raceConfig smallFieldDocument) <= 30
  /\ let predicted := predictedFinishPosition (simulateDocument smallFieldDocument) in
     let paceEffect := PACE_CLASS_EFFECTS (paceClass (carProfile smallFieldDocument)) in
     ~ (realisticCeiling paceEffect <= predicted <= realisticFloor paceEffect
        /\ 1 <= predicted <= fieldSize (raceConfig smallFieldDocument)).
Proof.
  split; [intros f; rewrite smallFieldText_parses; reflexivity|].
  split; [cbn; lia|]. split; [cbn; lia|].
  vm_compute. intros [_ [_ H]]. apply H. reflexivity.
Qed.

(** C2 at the same document: the range is [10, 5] around a predicted tenth
    place, so the prediction is above the upper end of its own range. *)
Lemma range_excludes_prediction_in_small_field :
  (forall numberToString,
     data (parseStrategyDSL numberToString smallFieldText) = Some smallFieldDocument)
  /\ let result := simulateDocument smallFieldDocument in
     predictedFinishPosition result = 10
     /\ predictedPositionRange result = {| range_min := 10; range_max := 5 |}
     /\ ~ (range_min (predictedPositionRange result) <= predictedFinishPosition result
           <= range_max (predictedPositionRange result)).
Proof.
  split; [intros f; rewrite smallFieldText_parses; reflexivity|].
  vm_compute. repeat split. intros [_ H]. apply H. reflexivity.
Qed.

(** Where the field is at least as large as the pace-class ceiling, the range
    does contain the prediction. *)
Lemma range_contains_prediction
    (race : RaceConfig) (car : CarProfile) (strategy : Strategy) (track : TrackProfile) :
  1 <= startingGridPosition car <= fieldSize race ->
  realisticCeiling (PACE_CLASS_EFFECTS (paceClass car)) <= fieldSize race ->
  let result := simulateRace race car strategy track in
  range_min (predictedPositionRange result) <= predictedFinishPosition result
    <= range_max (predictedPositionRange result).
Proof.
  intros Hstart Hfield. cbv zeta.
  rewrite range_of_predicted.
  destruct (clamped_prediction race car strategy track Hstart) as [Hp Hf].
  specialize (Hf Hfield). cbv zeta in Hp, Hf.
  unfold positionRange, positionVariance. cbn [range_min range_max].
  destruct (riskProfile car); cbn; lia.
Qed.

(** ** The predicted position range *)

(** C5, as the claim states it, fails at Monza: the prediction is 11, the
    variance 1, and the range ends at 13, not at 12. *)
Lemma position_range_is_not_symmetric :
  (forall numberToString,
     data (parseStrategyDSL numberToString monzaText) = Some monzaDocument)
  /\ let result := simulateDocument monzaDocument in
     predictedFinishPosition result = 11
     /\ predictedPositionRange result = {| range_min := 10; range_max := 13 |}
     /\ predictedPositionRange result <>
        specPositionRange (raceConfig monzaDocument) (carProfile monzaDocument)
          (predictedFinishPosition result).
Proof.
  split; [intros f; rewrite monzaText_parses; reflexivity|].
  vm_compute. repeat split. discriminate.
Qed.

(** C5, as the code has it.  With variance 1 for the conservative and the
    balanced profile and 2 for the aggressive one, the range runs from
    max(ceiling, predicted - variance) to
    min(min(fieldSize, floor), predicted + variance + 1); when the car starts
    on the grid and the field is at least as large as the ceiling, both ends
    lie in [ceiling, min(fieldSize, floor)]. *)
Theorem position_range_formula
    (race : RaceConfig) (car : CarProfile) (strategy : Strategy) (track : TrackProfile) :
  1 <= startingGridPosition car <= fieldSize race ->
  let result := simulateRace race car strategy track in
  let predicted := predictedFinishPosition result in
  let paceEffect := PACE_CLASS_EFFECTS (paceClass car) in
  let variance := specVariance (riskProfile car) in
  let lo := realisticCeiling paceEffect in
  let hi := Z.min (fieldSize race) (realisticFloor paceEffect) in
  range_min (predictedPositionRange result) = Z.max lo (predicted - variance)
  /\ range_max (predictedPositionRange result) = Z.min hi (predicted + variance + 1)
  /\ (lo <= fieldSize race ->
      lo <= range_min (predictedPositionRange result) <= hi
      /\ lo <= range_max (predictedPositionRange result) <= hi).
Proof.
  intros Hstart. cbv zeta.
  destruct (clamped_prediction race car strategy track Hstart) as [Hp Hf].
  cbv zeta in Hp, Hf.
  rewrite range_of_predicted.
  unfold positionRange, positionVariance. cbn [range_min range_max].
  destruct (riskProfile car); cbn [RiskProfile_eqb specVariance];
    (split; [reflexivity|]); (split; [reflexivity|]); intros Hlo;
    specialize (Hf Hlo); lia.
Qed.

Lemma position_range_formula_witness :
  let result := simulateDocument monzaDocument in
  let predicted := predictedFinishPosition result in
  range_min (predictedPositionRange result) = Z.max 5 (predicted - 1)
  /\ range_max (predictedPositionRange result) = Z.min (Z.min 20 14) (predicted + 1 + 1)
  /\ (5 <= 20 ->
      5 <= range_min (predictedPositionRange result) <= Z.min 20 14
      /\ 5 <= range_max (predictedPositionRange result) <= Z.min 20 14).
Proof.
  apply (position_range_formula (raceConfig monzaDocument) (carProfile monzaDocument)
           (strategy monzaDocument) (trackProfile monzaDocument)).
  cbn. lia.
Defined.

(** ** Laps and stint metrics *)

Lemma lapRange_length (n : Z) : 0 <= n -> Z.of_nat (List.length (lapRange n)) = n.
Proof. intros H. unfold lapRange. rewrite length_map, length_seq. lia. Qed.

Lemma stintWear_total (xs : list Stint) :
  Forall (fun stint => 1 <= lapsInStint stint) xs ->
  Z.of_nat (List.length (flat_map stintWear xs)) = sumZ (map lapsInStint xs).
Proof.
  induction 1 as [|stint xs Hlaps _ IH]; [reflexivity|].
  cbn [flat_map map sumZ fold_right]. rewrite length_app, Nat2Z.inj_add.
  unfold stintWear at 1. rewrite length_map, lapRange_length by lia.
  fold (sumZ (map lapsInStint xs)). rewrite IH. reflexivity.
Qed.

(** C9.  When every stint has at least one lap, as the parser demands, the
    [totalLaps] of the stint metrics add up to the number of lap records. *)
Theorem stint_laps_sum_to_trace_length
    (race : RaceConfig) (car : CarProfile) (strategy : Strategy) (track : TrackProfile) :
  Forall (fun stint => 1 <= lapsInStint stint) (stints strategy) ->
  let result := simulateRace race car strategy track in
  sumZ (map sm_totalLaps (stintMetrics result)) = Z.of_nat (List.length (lapData result)).
Proof.
  intros Hlaps. cbv zeta. unfold simulateRace.
  destruct (runStints_spec race car strategy track)
    as (st & metrics & warnings & -> & Hwear & Htotal & _).
  cbn [stintMetrics lapData].
  rewrite Htotal, <- (length_map tireWear), Hwear.
  symmetry. apply stintWear_total. exact Hlaps.
Qed.

Lemma stint_laps_sum_to_trace_length_witness :
  let result := simulateDocument monzaDocument in
  sumZ (map sm_totalLaps (stintMetrics result)) = Z.of_nat (List.length (lapData result)).
Proof.
  apply (stint_laps_sum_to_trace_length (raceConfig monzaDocument)
           (carProfile monzaDocument) (strategy monzaDocument)
           (trackProfile monzaDocument)).
  unfold monzaDocument. cbn [strategy stints].
  apply Forall_cons; [cbn [lapsInStint]; lia|].
  apply Forall_cons; [cbn [lapsInStint]; lia|]. apply Forall_nil.
Defined.

(** ** Tire degradation *)

(** Every track runs on the default fuel figures. *)
Lemma getTrackData_fuel (trackName : string) :
  startingFuelKg (getTrackData trackName) = 110%float
  /\ fuelConsumptionPerLap (getTrackData trackName) = 1.8%float.
Proof.
  unfold getTrackData. destruct (lookup _ _) as [[base pit]|]; split; reflexivity.
Qed.

Section DegradationFacts.

Variables (race : RaceConfig) (car : CarProfile)
          (strategy : Strategy) (track : TrackProfile).

(** The degradation time of a lap of a stint. *)
Let degradation (stint : Stint) (lap : Z) : float :=
  calculateTireDegradation (tireCompound stint) lap (weather race) (riskProfile car).

(** The degradation time a stint adds up, lap after lap. *)
Let stintLoss (stint : Stint) : float :=
  fold_left (fun loss lap => (loss + degradation stint lap)%float)
            (lapRange (lapsInStint stint)) 0%float.

Let timed (stint : Stint) (lap : Z) (record : LapData) : Prop :=
  lapTime record = lapTimeWith race car track stint lap (degradation stint lap) record.

(** The fuel on board is the one the laps run so far have left. *)
Let fuelled (st : RaceState) : Prop :=
  fuelLoad st = fuelAfter (Z.to_nat (currentLap st)) /\ 0 <= currentLap st.

(** One lap: the degradation time goes into the lap time and into the loss
    of the stint. *)
Lemma simulateLap_time (i : nat) (stint : Stint) (last : bool)
    (s : StintState) (lap : Z) :
  fuelled (race_state s) ->
  exists record,
    let s' := simulateLap race car strategy track i stint last s lap in
    st_lapData (race_state s') = st_lapData (race_state s) ++ [record]
    /\ timed stint lap record
    /\ stintDegradationLoss s' = (stintDegradationLoss s + degradation stint lap)%float
    /\ fuelled (race_state s').
Proof.
  intros [Hfuel Hlap]. unfold simulateLap, timed, fuelled, lapTimeWith, degradation.
  destruct (getTrackData_fuel (trackName race)) as [Hstart Hrate].
  rewrite Hrate, Hfuel.
  set (D := calculateTireDegradation _ _ _ _). clearbody D.
  set (first := currentLap (race_state s) + 1 =? 1).
  set (ov := simulateOvertaking _ _ _ _ _ first _).
  clearbody ov. clearbody first.
  assert (Hbefore : (Z.to_nat (currentLap (race_state s) + 1) - 1)%nat
                    = Z.to_nat (currentLap (race_state s))) by lia.
  assert (Hafter : Z.to_nat (currentLap (race_state s) + 1)
                   = S (Z.to_nat (currentLap (race_state s)))) by lia.
  destruct first, (overtook ov), (wasOvertaken ov),
    ((lap =? lapsInStint stint) && negb last);
    eexists; (split; [reflexivity|]);
    cbn [lapTime lapNumber position trafficPenalty race_state stintDegradationLoss
         fuelLoad currentLap];
    rewrite Hbefore, Hafter;
    (split; [reflexivity|]); (split; [reflexivity|]);
    (split; [reflexivity|lia]).
Qed.

(** The laps of one stint. *)
Lemma laps_timed (i : nat) (stint : Stint) (last : bool) (laps : list Z) :
  forall s : StintState,
  fuelled (race_state s) ->
  exists records,
    let s' := fold_left (simulateLap race car strategy track i stint last) laps s in
    st_lapData (race_state s') = st_lapData (race_state s) ++ records
    /\ Forall2 (timed stint) laps records
    /\ stintDegradationLoss s'
       = fold_left (fun loss lap => (loss + degradation stint lap)%float)
                   laps (stintDegradationLoss s)
    /\ fuelled (race_state s').
Proof.
  induction laps as [|lap laps IH]; intros s Hs.
  - exists []. cbn. rewrite app_nil_r. repeat split; try apply Hs. constructor.
  - destruct (simulateLap_time i stint last s lap Hs)
      as (record & Hdata & Htime & Hloss & Hs').
    cbv zeta in *.
    destruct (IH (simulateLap race car strategy track i stint last s lap) Hs')
      as (records & Hdata' & Htimes & Hloss' & Hs'').
    exists (record :: records). cbn [fold_left]. cbv zeta in *.
    split; [rewrite Hdata', Hdata, <- app_assoc; reflexivity|].
    split; [constructor; [exact Htime|exact Htimes]|].
    split; [rewrite Hloss', Hloss; reflexivity|exact Hs''].
Qed.

(** The stint loop, run from any accumulator over any indexed stints. *)
Lemma stints_timed (indexed : list (nat * Stint)) :
  forall (st : RaceState) (metrics : list StintMetrics)
         (warnings : list SimulationWarning),
  fuelled st ->
  exists records,
    let final := fold_left (simulateStint race car strategy track) indexed
                   (st, metrics, warnings) in
    st_lapData (fst (fst final)) = st_lapData st ++ records
    /\ Forall2 (fun a record => timed (fst a) (snd a) record)
         (flat_map (fun stint => map (fun lap => (stint, lap))
                                     (lapRange (lapsInStint stint)))
                   (map snd indexed))
         records
    /\ map totalDegradationLoss (snd (fst final))
       = map totalDegradationLoss metrics ++ map stintLoss (map snd indexed).
Proof.
  induction indexed as [|[i stint] indexed IH]; intros st metrics warnings Hst.
  - exists []. cbn. rewrite !app_nil_r. repeat split. constructor.
  - cbn [fold_left]. cbv zeta.
    remember (simulateStint race car strategy track (st, metrics, warnings) (i, stint))
      as acc eqn:Hacc.
    unfold simulateStint in Hacc. cbv zeta in Hacc. subst acc.
    set (last := (S i =? List.length (stints strategy))%nat).
    set (s0 := {| race_state := st; stintLapTimes := [];
                  stintDegradationLoss := 0%float |}).
    destruct (laps_timed i stint last (lapRange (lapsInStint stint)) s0 Hst)
      as (recs & Hdata & Htimes & Hloss & Hs1).
    cbv zeta in *.
    set (s1 := fold_left (simulateLap race car strategy track i stint last)
                 (lapRange (lapsInStint stint)) s0) in *.
    match goal with
    | |- context [fold_left _ indexed (race_state s1, metrics ++ [?m], ?w)] =>
        destruct (IH (race_state s1) (metrics ++ [m]) w Hs1)
          as (records & Hdata' & Htimes' & Hlosses)
    end.
    cbv zeta in *.
    exists (recs ++ records). cbv zeta.
    split; [rewrite Hdata', Hdata; subst s0; cbn [race_state];
            rewrite app_assoc; reflexivity|].
    split.
    + cbn [map snd flat_map]. apply Forall2_app; [|exact Htimes'].
      clear - Htimes. revert recs Htimes.
      induction (lapRange (lapsInStint stint)) as [|lap laps IHl];
        intros recs Htimes; inversion Htimes; subst; cbn [map]; constructor; auto.
    + rewrite Hlosses, map_app. cbn [map totalDegradationLoss snd].
      rewrite Hloss, <- app_assoc. reflexivity.
Qed.

End DegradationFacts.

#[local] Open Scope float_scope.

(** C6, as the code has it.  Every simulated lap is given the degradation
    time [calculateTireDegradation] answers for its compound, its lap in the
    stint, the weather and the risk profile: that time is added to the lap
    time of its record, right after the base lap time, and to the
    [totalDegradationLoss] of its stint.  It is a rate times the lap in the
    stint.  Up to the cliff lap the rate is degradationRate *
    weatherMultiplier * riskTireManagement.  Past the cliff lap the rate
    carries a surcharge, (degradationRate * cliffMultiplier -
    degradationRate) * min(lapInStint - cliffLap, 10) / 10, which ramps
    linearly over the ten laps that follow the cliff and stays at its
    tenth-lap value after; the time, the surcharged rate times the lap in
    the stint, keeps growing. *)
Theorem tire_degradation_of_a_lap
    (race : RaceConfig) (car : CarProfile) (strategy : Strategy) (track : TrackProfile) :
  let result := simulateRace race car strategy track in
  let degradation (stint : Stint) (lap : Z) :=
    calculateTireDegradation (tireCompound stint) lap (weather race) (riskProfile car) in
  Forall2 (fun a record =>
             lapTime record
             = lapTimeWith race car track (fst a) (snd a)
                 (degradation (fst a) (snd a)) record)
          (simulatedLaps strategy) (lapData result)
  /\ map totalDegradationLoss (stintMetrics result)
     = map (fun stint =>
              fold_left (fun loss lap => loss + degradation stint lap)
                        (lapRange (lapsInStint stint)) 0)
           (stints strategy)
  /\ forall (stint : Stint) (lap : Z),
       let compound := tireCompound stint in
       let cliff := cliffLap (TIRE_PROFILES compound) in
       let rate := baseDegradation compound (weather race) (riskProfile car) in
       degradation stint lap
       = if (lap <=? cliff)%Z then rate * JS.of_Z lap
         else (rate + cliffPenalty compound (Z.min (lap - cliff) 10)) * JS.of_Z lap.
Proof.
  cbv zeta.
  destruct (stints_timed race car strategy track (indexedStints strategy)
              (initialState race car) [] [])
    as (records & Hdata & Htimes & Hlosses).
  { unfold initialState. cbn [fuelLoad currentLap].
    destruct (getTrackData_fuel (trackName race)) as [-> _].
    split; [reflexivity|lia]. }
  cbv zeta in *. fold (runStints race car strategy track) in *.
  rewrite (indexedStints_stints strategy) in *.
  unfold simulateRace.
  destruct (runStints race car strategy track) as [[st metrics] warnings].
  cbn [fst snd lapData stintMetrics initialState st_lapData app map] in *.
  split; [|split].
  - rewrite Hdata. exact Htimes.
  - exact Hlosses.
  - intros stint lap.
    unfold calculateTireDegradation, baseDegradation, cliffPenalty.
    rewrite Z.gtb_ltb, Z.leb_antisym.
    destruct (cliffLap (TIRE_PROFILES (tireCompound stint)) <? lap)%Z; reflexivity.
Qed.

(** C6, as the claim states it, fails on the soft compound, whose cliff is
    at lap 15.  The additional penalty is not capped at the tenth lap past
    the cliff: it is larger at lap 26 than at lap 25.  Nor does it ramp
    linearly before: it grows more from lap 17 to lap 18 than from lap 16 to
    lap 17. *)
Lemma cliff_penalty_is_not_capped :
  (cliffPenaltyTime SOFT normal balanced 25 <? cliffPenaltyTime SOFT normal balanced 26)
  = true
  /\ (cliffPenaltyTime SOFT normal balanced 17 - cliffPenaltyTime SOFT normal balanced 16
      <? cliffPenaltyTime SOFT normal balanced 18 - cliffPenaltyTime SOFT normal balanced 17)
     = true.
Proof. vm_compute. split; reflexivity. Qed.

#[local] Close Scope float_scope.

(** ** Tire wear

    [calculateTireWear] is floating-point arithmetic on the lap number.  Past
    lap 128 of a stint the uncapped value exceeds 1 whatever the compound,
    which is shown on the binary64 representation; up to lap 128 the values
    are computed. *)

#[local] Open Scope Z_scope.

(** *** Mantissas and shifts *)

Lemma digits2_size (p : positive) : digits2_pos p = Pos.size p.
Proof. induction p as [p IH|p IH|]; cbn; [rewrite IH| rewrite IH|]; reflexivity. Qed.

Lemma Zdigits2_log2 (m : Z) : 0 < m -> Zdigits2 m = Z.log2 m + 1.
Proof.
  destruct m as [|p|p]; try lia. intros _. cbn [Zdigits2].
  rewrite digits2_size. destruct p; cbn [Pos.size Z.log2]; lia.
Qed.

Lemma iter_pos_nat {A : Type} (f : A -> A) (p : positive) :
  forall x, iter_pos f p x = Nat.iter (Pos.to_nat p) f x.
Proof.
  induction p as [p IH|p IH|]; intros x; cbn [iter_pos].
  - rewrite !IH.
    replace (Pos.to_nat p~1) with (Pos.to_nat p + (Pos.to_nat p + 1))%nat by lia.
    rewrite !Nat.iter_add. reflexivity.
  - rewrite !IH.
    replace (Pos.to_nat p~0) with (Pos.to_nat p + Pos.to_nat p)%nat by lia.
    rewrite Nat.iter_add. reflexivity.
  - reflexivity.
Qed.

Lemma shr_1_m (mrs : shr_record) : 0 <= shr_m mrs -> shr_m (shr_1 mrs) = Z.div2 (shr_m mrs).
Proof.
  destruct mrs as [m r s]. cbn [shr_m]. intros H.
  destruct m as [|[p|p|]|p]; cbn; try reflexivity; lia.
Qed.

Lemma shr_iter_m (n : nat) : forall mrs, 0 <= shr_m mrs ->
  shr_m (Nat.iter n shr_1 mrs) = Z.shiftr (shr_m mrs) (Z.of_nat n).
Proof.
  induction n as [|n IH]; intros mrs H.
  - cbn. rewrite ?Z.shiftr_0_r. reflexivity.
  - rewrite Nat.iter_succ, shr_1_m.
    + rewrite IH by exact H. rewrite Z.div2_spec, Z.shiftr_shiftr by lia. f_equal. lia.
    + rewrite IH by exact H. apply Z.shiftr_nonneg. exact H.
Qed.

(** Shifting a non-negative mantissa right by [n > 0]. *)
Lemma shr_m_shift (mrs : shr_record) (e n : Z) :
  0 <= shr_m mrs -> 0 < n ->
  shr_m (fst (shr mrs e n)) = Z.shiftr (shr_m mrs) n /\ snd (shr mrs e n) = e + n.
Proof.
  intros Hm Hn. destruct n as [|p|p]; try lia. cbn [shr fst snd].
  rewrite iter_pos_nat, shr_iter_m by exact Hm.
  rewrite positive_nat_Z. split; reflexivity.
Qed.

Lemma shr_m_noshift (mrs : shr_record) (e n : Z) :
  n <= 0 -> shr mrs e n = (mrs, e).
Proof. intros Hn. destruct n as [|p|p]; try lia; reflexivity. Qed.

Lemma shr_record_of_loc_m (m : Z) (l : location) : shr_m (shr_record_of_loc m l) = m.
Proof. destruct l as [|[]]; reflexivity. Qed.

Lemma round_nearest_even_range (m : Z) (l : location) :
  m <= round_nearest_even m l <= m + 1.
Proof. unfold round_nearest_even. destruct l as [|[]]; try destruct (Z.even m); lia. Qed.

Lemma log2_shiftr_pos (a n : Z) : 0 < a -> 0 <= n -> n <= Z.log2 a ->
  0 < Z.shiftr a n /\ Z.log2 (Z.shiftr a n) = Z.log2 a - n.
Proof.
  intros Ha Hn Hle.
  assert (H2 : 2 ^ n <= a).
  { apply Z.le_trans with (2 ^ Z.log2 a); [apply Z.pow_le_mono_r; lia|].
    apply Z.log2_spec. exact Ha. }
  split.
  - rewrite Z.shiftr_div_pow2 by exact Hn.
    apply Z.div_str_pos. split; [apply Z.pow_pos_nonneg; lia|exact H2].
  - rewrite Z.log2_shiftr by exact Ha. lia.
Qed.

Lemma round_shape (sx : bool) (mx ex : Z) (lx : location) :
  0 < mx -> emin <= ex ->
  let r := binary_round_aux prec emax sx mx ex lx in
  r = S754_infinity sx
  \/ exists m e,
       r = S754_finite sx m e
       /\ Z.max ex (Zdigits2 mx + ex - prec) <= e
       /\ (ex <= fexp prec emax (Zdigits2 mx + ex) -> valid_binary r = true).
Proof.
  intros Hmx Hex.
  assert (Hprec : prec = 53) by reflexivity.
  assert (Hemin : emin = -1074) by reflexivity.
  assert (Hemax : emax = 1024) by reflexivity.
  cbv zeta. unfold binary_round_aux, shr_fexp.
  rewrite (Zdigits2_log2 mx Hmx).
  set (d := Z.log2 mx + 1).
  assert (Hd : 1 <= d) by (pose proof (Z.log2_nonneg mx); lia).
  set (n := fexp prec emax (d + ex) - ex).
  assert (Hn : n = Z.max (d - prec) (emin - ex)) by (unfold n, fexp; lia).
  assert (H1 : exists mrs' e', shr (shr_record_of_loc mx lx) ex n = (mrs', e')
            /\ 0 < shr_m mrs' /\ Z.log2 (shr_m mrs') + 1 + e' = d + ex
            /\ e' = Z.max ex (d + ex - prec)).
  { destruct (Z_lt_le_dec 0 n) as [Hpos|Hneg].
    - destruct (shr_m_shift (shr_record_of_loc mx lx) ex n) as [Hm He];
        [rewrite shr_record_of_loc_m; lia|exact Hpos|].
      rewrite shr_record_of_loc_m in Hm.
      destruct (shr _ ex n) as [mrs' e'] eqn:E. cbn [fst snd] in Hm, He.
      exists mrs', e'. split; [reflexivity|].
      destruct (log2_shiftr_pos mx n Hmx) as [Hp Hl]; [lia|unfold d in *; lia|].
      rewrite Hm. split; [exact Hp|]. rewrite Hl. unfold d in *. lia.
    - rewrite shr_m_noshift by exact Hneg.
      exists (shr_record_of_loc mx lx), ex. split; [reflexivity|].
      rewrite shr_record_of_loc_m. fold d. lia. }
  destruct H1 as (mrs' & e' & -> & Hm' & Hd' & He').
  pose proof (round_nearest_even_range (shr_m mrs') (loc_of_shr_record mrs')) as Hr.
  set (mr := round_nearest_even (shr_m mrs') (loc_of_shr_record mrs')) in *.
  assert (Hmr : 0 < mr) by lia.
  assert (Hlog : Z.log2 (shr_m mrs') <= Z.log2 mr) by (apply Z.log2_le_mono; lia).
  rewrite (Zdigits2_log2 mr Hmr).
  set (n2 := fexp prec emax (Z.log2 mr + 1 + e') - e').
  assert (Hn2 : n2 = Z.max (Z.log2 mr + 1 - prec) (emin - e')) by (unfold n2, fexp; lia).
  assert (H2 : exists mrs'' e'', shr (shr_record_of_loc mr loc_Exact) e' n2 = (mrs'', e'')
            /\ 0 < shr_m mrs'' /\ e' <= e''
            /\ (ex <= fexp prec emax (d + ex) ->
                fexp prec emax (Z.log2 (shr_m mrs'') + 1 + e'') = e'')).
  { destruct (Z_lt_le_dec 0 n2) as [Hpos|Hneg].
    - destruct (shr_m_shift (shr_record_of_loc mr loc_Exact) e' n2) as [Hm He];
        [cbn; lia|exact Hpos|].
      destruct (shr _ e' n2) as [mrs'' e''] eqn:E. cbn [fst snd] in Hm, He.
      exists mrs'', e''. split; [reflexivity|].
      cbn [shr_record_of_loc shr_m] in Hm.
      destruct (log2_shiftr_pos mr n2 Hmr) as [Hp Hl]; [lia|lia|].
      rewrite Hm. split; [exact Hp|]. split; [lia|].
      intros _. rewrite Hl. unfold fexp. lia.
    - rewrite shr_m_noshift by exact Hneg.
      exists (shr_record_of_loc mr loc_Exact), e'. split; [reflexivity|].
      cbn [shr_record_of_loc shr_m]. split; [lia|]. split; [lia|].
      unfold fexp. lia. }
  destruct H2 as (mrs'' & e'' & -> & Hm'' & He'' & Hcanon).
  destruct (shr_m mrs'') as [|m''|m''] eqn:Em; try lia.
  destruct (e'' <=? emax - prec) eqn:Hfit.
  - right. exists m'', e''. split; [reflexivity|]. split; [fold d; lia|].
    intros Haligned. cbn [valid_binary]. unfold bounded, canonical_mantissa.
    rewrite Hfit, andb_true_r. apply Z.eqb_eq.
    specialize (Hcanon Haligned).
    change (Z.pos (digits2_pos m'')) with (Zdigits2 (Z.pos m'')).
    rewrite Zdigits2_log2 by lia. exact Hcanon.
  - left. reflexivity.
Qed.

(** Aligning a mantissa to a smaller exponent keeps its value. *)
Lemma shl_align_spec (mx : positive) (ex ex' : Z) :
  let '(mz, ez) := shl_align mx ex ex' in
  ez = Z.min ex ex' /\ Z.pos mz = Z.pos mx * 2 ^ (ex - ez).
Proof.
  unfold shl_align.
  destruct (ex' - ex) as [|d|d] eqn:E.
  - split; [lia|]. replace (ex - ex) with 0 by lia. lia.
  - split; [lia|]. replace (ex - ex) with 0 by lia. lia.
  - split; [lia|].
    replace (ex - ex') with (Z.pos d) by lia.
    change (Pos.iter xO mx d) with (shift_pos d mx).
    rewrite shift_pos_correct, Zpower_pos_nat, Zpower_nat_Z, positive_nat_Z. lia.
Qed.

Lemma log2_mul_pow2 (a n : Z) : 0 < a -> 0 <= n -> Z.log2 (a * 2 ^ n) = Z.log2 a + n.
Proof. intros Ha Hn. rewrite <- Z.shiftl_mul_pow2 by exact Hn. apply Z.log2_shiftl; lia. Qed.

(** Rounding a positive value [m * 2^e]. *)
Lemma binary_round_shape (sx : bool) (m : positive) (e : Z) :
  emin <= e ->
  let r := binary_round prec emax sx m e in
  valid_binary r = true
  /\ (r = S754_infinity sx
      \/ exists m' e', r = S754_finite sx m' e'
                      /\ Zdigits2 (Z.pos m) + e - prec <= e').
Proof.
  intros He. cbv zeta. unfold binary_round.
  assert (Hprec : prec = 53) by reflexivity.
  assert (Hemin : emin = -1074) by reflexivity.
  pose proof (shl_align_spec m e (fexp prec emax (Z.pos (digits2_pos m) + e))) as Hal.
  destruct (shl_align m e _) as [mz ez].
  destruct Hal as [Hez Hmz].
  change (Z.pos (digits2_pos m)) with (Zdigits2 (Z.pos m)) in *.
  assert (Hdig : Zdigits2 (Z.pos mz) + ez = Zdigits2 (Z.pos m) + e).
  { rewrite !Zdigits2_log2 by lia. rewrite Hmz, log2_mul_pow2 by lia. lia. }
  assert (Hez' : emin <= ez) by (unfold fexp in Hez; lia).
  destruct (round_shape sx (Z.pos mz) ez loc_Exact) as [Hinf|(m' & e' & Hr & Hle & Hvalid)];
    [lia|exact Hez'| |].
  - rewrite Hinf. split; [reflexivity|]. left. reflexivity.
  - split.
    + apply Hvalid. rewrite Hdig. lia.
    + right. exists m', e'. split; [exact Hr|]. lia.
Qed.

(** What validity says about a finite value. *)
Lemma valid_finite (s : bool) (m : positive) (e : Z) :
  valid_binary (S754_finite s m e) = true ->
  emin <= e /\ (emin < e -> Zdigits2 (Z.pos m) = prec).
Proof.
  cbn [valid_binary]. unfold bounded, canonical_mantissa, fexp.
  intros H. apply andb_prop in H. destruct H as [H _]. apply Z.eqb_eq in H.
  cbn [Zdigits2]. lia.
Qed.

Lemma exponent_at_least_weaken (k k' : Z) (a : float) :
  k' <= k -> exponent_at_least k a -> exponent_at_least k' a.
Proof.
  intros Hk [H|(m & e & H & He)]; [left; exact H|].
  right. exists m, e. split; [exact H|lia].
Qed.

Lemma of_Z_shape (z : Z) :
  0 < z -> exponent_at_least (Zdigits2 z - prec) (JS.of_Z z).
Proof.
  intros Hz. destruct z as [|p|p]; try lia.
  unfold exponent_at_least, JS.of_Z. cbn [binary_normalize].
  destruct (binary_round_shape false p 0) as [Hvalid Hshape]; [discriminate|].
  rewrite Prim2SF_SF2Prim by exact Hvalid.
  destruct Hshape as [H|(m & e & H & He)]; [left; exact H|].
  right. exists m, e. split; [exact H|lia].
Qed.

Lemma div_shape (a b : float) (k : Z) (my : positive) (ey : Z) :
  exponent_at_least k a -> emin < k ->
  Prim2SF b = S754_finite false my ey -> emin < ey ->
  emin <= k - ey - prec ->
  exponent_at_least (k - ey - prec) (a / b).
Proof.
  intros Ha Hk Hb Hey Hlow.
  assert (Hprec : prec = 53) by reflexivity.
  assert (Hemin : emin = -1074) by reflexivity.
  unfold exponent_at_least in *. rewrite div_spec, Hb.
  pose proof (Prim2SF_valid b) as Hvb. rewrite Hb in Hvb.
  destruct (valid_finite _ _ _ Hvb) as [_ Hdy]. specialize (Hdy Hey).
  pose proof (Prim2SF_valid a) as Hva.
  destruct Ha as [Ha|(mx & ex & Ha & Hex)]; rewrite Ha in *.
  - left. reflexivity.
  - destruct (valid_finite _ _ _ Hva) as [_ Hdx]. specialize (Hdx ltac:(lia)).
    unfold SF64div, SFdiv, SFdiv_core_binary.
    rewrite Hdx, Hdy.
    replace (prec + ex - (prec + ey)) with (ex - ey) by lia.
    assert (He' : Z.min (fexp prec emax (ex - ey)) (ex - ey) = ex - ey - prec)
      by (unfold fexp; lia).
    rewrite He'.
    replace (ex - ey - (ex - ey - prec)) with 53 by lia.
    destruct (Z.div_eucl (Z.shiftl (Z.pos mx) 53) (Z.pos my)) as [q r] eqn:Hdiv.
    assert (Hq : 0 < q).
    { assert (Hq' : q = Z.shiftl (Z.pos mx) 53 / Z.pos my)
        by (unfold Z.div; rewrite Hdiv; reflexivity).
      rewrite Hq'. apply Z.div_str_pos. split; [lia|].
      rewrite Z.shiftl_mul_pow2 by lia.
      rewrite Zdigits2_log2 in Hdy by lia.
      destruct (Z.log2_spec (Z.pos my)) as [_ Hup]; [lia|].
      replace (Z.succ (Z.log2 (Z.pos my))) with 53 in Hup by lia.
      nia. }
    destruct (round_shape (xorb false false) q (ex - ey - prec)
                (new_location (Z.pos my) r))
      as [Hinf|(m & e & Hr & Hle & _)]; [exact Hq|lia| |].
    + left. exact Hinf.
    + right. exists m, e. split; [exact Hr|lia].
Qed.

Lemma mul_shape (a b : float) (k : Z) (my : positive) (ey : Z) :
  exponent_at_least k a ->
  Prim2SF b = S754_finite false my ey ->
  emin <= k + ey ->
  exponent_at_least (k + ey) (a * b).
Proof.
  intros Ha Hb Hlow.
  unfold exponent_at_least in *. rewrite mul_spec, Hb.
  destruct Ha as [Ha|(mx & ex & Ha & Hex)]; rewrite Ha.
  - left. reflexivity.
  - unfold SF64mul, SFmul.
    destruct (round_shape (xorb false false) (Z.pos (mx * my)) (ex + ey) loc_Exact)
      as [Hinf|(m & e & Hr & Hle & _)]; [lia|lia| |].
    + left. exact Hinf.
    + right. exists m, e. split; [exact Hr|lia].
Qed.

Lemma add_shape (a b : float) (k k' : Z) :
  exponent_at_least k a -> emin < k -> exponent_at_least k' b ->
  exponent_at_least k (a + b).
Proof.
  intros Ha Hk Hb.
  assert (Hprec : prec = 53) by reflexivity.
  assert (Hemin : emin = -1074) by reflexivity.
  unfold exponent_at_least in *. rewrite add_spec.
  pose proof (Prim2SF_valid a) as Hva. pose proof (Prim2SF_valid b) as Hvb.
  destruct Ha as [Ha|(mx & ex & Ha & Hex)]; rewrite Ha in *;
    destruct Hb as [Hb|(my & ey & Hb & Hey)]; rewrite Hb in *;
    try (left; reflexivity).
  destruct (valid_finite _ _ _ Hva) as [_ Hdx]. specialize (Hdx ltac:(lia)).
  destruct (valid_finite _ _ _ Hvb) as [Hey' _].
  unfold SF64add, SFadd. cbn [cond_Zopp].
  pose proof (shl_align_spec mx ex (Z.min ex ey)) as Hx.
  pose proof (shl_align_spec my ey (Z.min ex ey)) as Hy.
  destruct (shl_align mx ex (Z.min ex ey)) as [mx' ex'].
  destruct (shl_align my ey (Z.min ex ey)) as [my' ey'].
  cbn [fst]. destruct Hx as [Hex' Hmx']. destruct Hy as [_ _].
  cbn [Z.add binary_normalize].
  destruct (binary_round_shape false (mx' + my') (Z.min ex ey)) as [_ Hshape]; [lia|].
  destruct Hshape as [H|(m & e & H & He)]; [left; exact H|].
  right. exists m, e. split; [exact H|].
  assert (Hlog : Z.log2 (Z.pos mx') <= Z.log2 (Z.pos (mx' + my')))
    by (apply Z.log2_le_mono; lia).
  rewrite Zdigits2_log2 in He, Hdx by lia.
  rewrite Hmx', log2_mul_pow2 in Hlog by lia. lia.
Qed.

(** At exponent -51 and above a value exceeds 1: the cap takes over. *)
Lemma min_one_saturated (a : float) :
  exponent_at_least (-51) a -> JS.min a 1 = 1%float.
Proof.
  intros Ha. unfold JS.min, is_nan.
  rewrite !FloatAxioms.eqb_spec, !FloatAxioms.ltb_spec.
  change (Prim2SF 1) with (S754_finite false 4503599627370496 (-52)).
  destruct Ha as [Ha|(m & e & Ha & He)]; rewrite Ha; [reflexivity|].
  unfold SFeqb, SFltb. cbn [SFcompare].
  rewrite Z.compare_refl, Pos.compare_cont_refl.
  replace (e ?= -52) with Gt by (symmetry; apply Z.compare_gt_iff; lia).
  replace (-52 ?= e) with Lt by (symmetry; apply Z.compare_lt_iff; lia).
  reflexivity.
Qed.

Lemma digits_from (z : Z) (k : Z) : 0 <= k -> 2 ^ k <= z -> k + 1 <= Zdigits2 z.
Proof.
  intros Hk Hz.
  assert (Hpos : 0 < z) by (pose proof (Z.pow_pos_nonneg 2 k); lia).
  rewrite Zdigits2_log2 by exact Hpos.
  apply Z.log2_le_pow2 in Hz; lia.
Qed.

Lemma wear_saturated (c : TireCompound) (lap : Z) :
  128 <= lap -> calculateTireWear lap c = 1%float.
Proof.
  intros Hlap.
  assert (Hprec : prec = 53) by reflexivity.
  assert (Hemin : emin = -1074) by reflexivity.
  assert (Hc : cliffLap (TIRE_PROFILES c) <= 40) by (destruct c; cbn; lia).
  unfold calculateTireWear. rewrite gtb_true by lia.
  apply min_one_saturated.
  assert (Hwhole : exponent_at_least (-45) (JS.of_Z lap)).
  { apply exponent_at_least_weaken with (k := Zdigits2 lap - prec);
      [|apply of_Z_shape; lia].
    pose proof (digits_from lap 7 ltac:(lia) ltac:(lia)). lia. }
  assert (Hpast : exponent_at_least (-46) (JS.of_Z (lap - cliffLap (TIRE_PROFILES c)))).
  { apply exponent_at_least_weaken
      with (k := Zdigits2 (lap - cliffLap (TIRE_PROFILES c)) - prec);
      [|apply of_Z_shape; lia].
    pose proof (digits_from (lap - cliffLap (TIRE_PROFILES c)) 6 ltac:(lia) ltac:(lia)).
    lia. }
  apply add_shape with (k' := -105); [|lia|].
  - destruct c; cbn [TIRE_PROFILES cliffLap] in *;
      (eapply exponent_at_least_weaken;
       [|eapply div_shape; [exact Hwhole|lia|vm_compute; reflexivity|lia|lia]]; lia).
  - apply (mul_shape _ 0.5%float (-52) 4503599627370496 (-53)); [|reflexivity|lia].
    destruct c; cbn [TIRE_PROFILES cliffLap] in *;
      (eapply exponent_at_least_weaken;
       [|eapply div_shape; [exact Hpast|lia|vm_compute; reflexivity|lia|lia]]; lia).
Qed.

#[local] Open Scope float_scope.

Lemma wearTable_checked (c : TireCompound) : wearTableOk c = true.
Proof. destruct c; vm_compute; reflexivity. Qed.

Lemma wearAt_table (c : TireCompound) (n : nat) :
  (n < 129)%nat -> wearAt (wearTable c) n = calculateTireWear (Z.of_nat n) c.
Proof.
  intros Hn. unfold wearAt, wearTable.
  rewrite (nth_indep _ 0 (calculateTireWear (Z.of_nat 0) c))
    by (rewrite length_map, length_seq; exact Hn).
  rewrite (map_nth (fun n => calculateTireWear (Z.of_nat n) c)).
  rewrite seq_nth by exact Hn. reflexivity.
Qed.

Lemma wear_early (c : TireCompound) (l1 l2 : Z) :
  (1 <= l1 <= l2)%Z -> (l2 <= 128)%Z ->
  (0 <=? calculateTireWear l1 c) = true
  /\ (calculateTireWear l1 c <=? 1) = true
  /\ (calculateTireWear l1 c <=? calculateTireWear l2 c) = true.
Proof.
  intros H12 H2.
  pose proof (wearTable_checked c) as H. unfold wearTableOk in H. cbv zeta in H.
  rewrite forallb_forall in H.
  specialize (H (Z.to_nat l1) ltac:(apply in_seq; lia)).
  replace (Z.to_nat l1 <? 1)%nat with false in H by (symmetry; apply Nat.ltb_ge; lia).
  cbn [orb] in H.
  apply andb_prop in H. destruct H as [H Hlater].
  apply andb_prop in H. destruct H as [Hlow Hhigh].
  rewrite forallb_forall in Hlater.
  specialize (Hlater (Z.to_nat l2) ltac:(apply in_seq; lia)).
  replace (Z.to_nat l2 <? Z.to_nat l1)%nat with false in Hlater
    by (symmetry; apply Nat.ltb_ge; lia).
  cbn [orb] in Hlater.
  rewrite !wearAt_table in * by lia.
  rewrite !Z2Nat.id in * by lia.
  repeat split; assumption.
Qed.

Lemma wear_range (c : TireCompound) (lap : Z) :
  (1 <= lap)%Z ->
  (0 <=? calculateTireWear lap c) = true /\ (calculateTireWear lap c <=? 1) = true.
Proof.
  intros Hlap. destruct (Z_lt_le_dec lap 128) as [Hsmall|Hbig].
  - destruct (wear_early c lap lap) as (H1 & H2 & _); [lia|lia|]. split; assumption.
  - rewrite wear_saturated by exact Hbig. split; reflexivity.
Qed.

Lemma wear_monotone (c : TireCompound) (l1 l2 : Z) :
  (1 <= l1 <= l2)%Z ->
  (calculateTireWear l1 c <=? calculateTireWear l2 c) = true.
Proof.
  intros H. destruct (Z_lt_le_dec l2 128) as [Hsmall|Hbig].
  - apply wear_early; lia.
  - rewrite (wear_saturated c l2) by exact Hbig. apply wear_range. lia.
Qed.

(** *** The wear along the lap trace *)

Lemma stintWear_nth (stint : Stint) (i : nat) (w : float) :
  nth_error (stintWear stint) i = Some w ->
  w = calculateTireWear (Z.of_nat (S i)) (tireCompound stint).
Proof.
  unfold stintWear, lapRange. rewrite !nth_error_map.
  destruct (nth_error (seq 1 (Z.to_nat (lapsInStint stint))) i) as [n|] eqn:E;
    [|discriminate].
  assert (Hi : (i < Z.to_nat (lapsInStint stint))%nat).
  { rewrite <- (length_seq (Z.to_nat (lapsInStint stint)) 1).
    apply nth_error_Some. congruence. }
  apply nth_error_nth with (d := 0%nat) in E as E'.
  rewrite seq_nth in E' by exact Hi.
  subst n. cbn [option_map]. intros [= <-]. reflexivity.
Qed.

Lemma stintWear_nondecreasing (stint : Stint) : nondecreasing (stintWear stint).
Proof.
  intros i j a b Hij Ha Hb.
  apply stintWear_nth in Ha, Hb. subst a b.
  apply wear_monotone. lia.
Qed.

Lemma stintWear_first (stint : Stint) (w : float) (ws : list float) :
  stintWear stint = w :: ws -> w = calculateTireWear 1 (tireCompound stint).
Proof.
  intros H. apply (stintWear_nth stint 0 w). rewrite H. reflexivity.
Qed.

Lemma stintWear_range (xs : list Stint) :
  Forall (fun w => (0 <=? w) = true /\ (w <=? 1) = true) (flat_map stintWear xs).
Proof.
  apply Forall_forall. intros w Hw.
  apply in_flat_map in Hw. destruct Hw as (stint & _ & Hw).
  apply In_nth_error in Hw. destruct Hw as [i Hi].
  apply stintWear_nth in Hi. subst w.
  apply wear_range. lia.
Qed.

(** C8.  Every lap record has its tire wear in [0, 1].  The wear along the
    trace is, stint after stint in the order of the strategy, the wear of the
    laps 1, 2, ... of the stint on the stint's compound: within a stint it
    never decreases, and a stint (the first, and each one after a pit stop)
    starts again from the wear of lap 1 on its own compound. *)
Theorem tire_wear_profile
    (race : RaceConfig) (car : CarProfile) (strategy : Strategy) (track : TrackProfile) :
  let result := simulateRace race car strategy track in
  Forall (fun record =>
            (0 <=? tireWear record) = true /\ (tireWear record <=? 1) = true)
         (lapData result)
  /\ map tireWear (lapData result) = flat_map stintWear (stints strategy)
  /\ forall stint,
       In stint (stints strategy) ->
       nondecreasing (stintWear stint)
       /\ forall w ws,
            stintWear stint = w :: ws ->
            w = calculateTireWear 1 (tireCompound stint).
Proof.
  cbv zeta. unfold simulateRace.
  destruct (runStints_spec race car strategy track)
    as (st & metrics & warnings & -> & Hwear & _ & _).
  cbn [lapData].
  split; [|split; [exact Hwear|]].
  - apply (Forall_map tireWear
             (fun w => (0 <=? w) = true /\ (w <=? 1) = true)).
    rewrite Hwear. apply stintWear_range.
  - intros stint _. split; [apply stintWear_nondecreasing|apply stintWear_first].
Qed.

Lemma tire_wear_profile_witness :
  let result := simulateDocument monzaDocument in
  let second := {| stintNumber := 2; tireCompound := HARD; lapsInStint := 28 |} in
  Forall (fun record =>
            (0 <=? tireWear record) = true /\ (tireWear record <=? 1) = true)
         (lapData result)
  /\ map tireWear (lapData result) = flat_map stintWear (stints (strategy monzaDocument))
  /\ nondecreasing (stintWear second)
  /\ forall w ws, stintWear second = w :: ws -> w = calculateTireWear 1 HARD.
Proof.
  cbv zeta.
  destruct (tire_wear_profile (raceConfig monzaDocument) (carProfile monzaDocument)
              (strategy monzaDocument) (trackProfile monzaDocument))
    as (Hrange & Htrace & Hstints).
  split; [exact Hrange|]. split; [exact Htrace|].
  apply Hstints. cbn. right. left. reflexivity.
Defined.

#[local] Close Scope float_scope.

(* ========================================================================= *)
(** * Further properties of the simulation engine *)

(** ** One call of [simulateOvertaking] *)

(** The three outcomes of one call of [simulateOvertaking]. *)
Lemma simulateOvertaking_cases
    (pos : Z) (track : TrackProfile) (p : PaceClass) (r : RiskProfile)
    (lap : Z) (isFirstLap : bool) (fieldSize : Z) :
  let result := simulateOvertaking pos track p r lap isFirstLap fieldSize in
  let paceEffect := PACE_CLASS_EFFECTS p in
  (* a gain, from behind the ceiling *)
  (realisticCeiling paceEffect < pos
   /\ (exists gain, 1 <= gain <= (if isFirstLap then 3 else 1)
        /\ newPosition result = Z.max (realisticCeiling paceEffect) (pos - gain))
   /\ overtook result = true /\ wasOvertaken result = false)
  (* a loss *)
  \/ (newPosition result =
        (if isFirstLap then Z.min fieldSize (pos + 1)
         else Z.min (realisticFloor paceEffect) (pos + 1))
      /\ (isFirstLap = false -> pos < fieldSize)
      /\ overtook result = false
      /\ wasOvertaken result = (newPosition result >? pos))
  (* no change *)
  \/ (newPosition result = pos /\ overtook result = false /\ wasOvertaken result = false).
Proof.
  cbv zeta. unfold simulateOvertaking.
  destruct isFirstLap.
  - match goal with
    | |- context [Z.min ?g (JS.floor ?x + 1)] =>
        pose proof (fun H => firstLapGain_range (Z.rem (pos * 47 + 13) 100) p r g
                      (seed_residue (pos * 47 + 13) H)) as Hgain
    end.
    unfold firstLapGain in Hgain.
    destruct (_ && negb (pos <=? _)) eqn:Hgo.
    + apply andb_prop in Hgo. destruct Hgo as [_ Hc].
      apply negb_true_iff, Z.leb_gt in Hc.
      pose proof (ceiling_floor p) as Hcf.
      assert (Hg : 1 <= (if pos >? 10 then 3 else if pos >? 5 then 2 else 1) <= 3)
        by (destruct (pos >? 10), (pos >? 5); lia).
      specialize (Hgain ltac:(lia) Hg).
      left. cbn [newPosition overtook wasOvertaken].
      split; [exact Hc|]. split.
      * eexists. split; [|reflexivity]. lia.
      * split; [|reflexivity]. apply Z.ltb_lt. lia.
    + destruct (JS.gtb _ _); cbn [newPosition overtook wasOvertaken].
      * right. left. replace (Z.min (if pos <? 5 then 2 else 1) 1) with 1
          by (destruct (pos <? 5); lia).
        repeat split. discriminate.
      * right. right. repeat split.
  - destruct (_ && (pos >? 1) && negb (pos <=? _)) eqn:Hgo.
    + apply andb_prop in Hgo. destruct Hgo as [_ Hc].
      apply negb_true_iff, Z.leb_gt in Hc.
      left. cbn [newPosition overtook wasOvertaken].
      split; [exact Hc|]. split.
      * exists 1. split; [lia|reflexivity].
      * split; [|reflexivity]. apply Z.ltb_lt. lia.
    + destruct (_ && (pos <? fieldSize)) eqn:Hback;
        cbn [newPosition overtook wasOvertaken].
      * apply andb_prop in Hback. destruct Hback as [_ Hlt]. apply Z.ltb_lt in Hlt.
        right. left. repeat split. intros _. exact Hlt.
      * right. right. repeat split.
Qed.

(** The car loses one place at most. *)
Lemma simulateOvertaking_one_place
    (pos : Z) (track : TrackProfile) (p : PaceClass) (r : RiskProfile)
    (lap : Z) (isFirstLap : bool) (fieldSize : Z) :
  newPosition (simulateOvertaking pos track p r lap isFirstLap fieldSize) <= pos + 1.
Proof.
  pose proof (simulateOvertaking_cases pos track p r lap isFirstLap fieldSize) as H.
  cbv zeta in H.
  destruct H as [(Hc & (gain & Hgain & Hnew) & _)|[(Hnew & _)|(Hnew & _)]];
    rewrite Hnew; [lia|destruct isFirstLap; lia|lia].
Qed.

(** ** Properties that every lap keeps *)

Lemma last_cons {A : Type} (xs : list A) :
  forall z d : A, last (z :: xs) d = last xs z.
Proof.
  induction xs as [|y xs IH]; intros z d; [reflexivity|].
  change (last (z :: y :: xs) d) with (last (y :: xs) d).
  rewrite (IH y d), (IH y z). reflexivity.
Qed.

Lemma chain_snoc {A : Type} (R : A -> A -> Prop) (xs : list A) :
  forall x y, chain R x xs -> R (last xs x) y -> chain R x (xs ++ [y]).
Proof.
  induction xs as [|z xs IH]; intros x y Hc Hl.
  - cbn in *. auto.
  - cbn [app chain] in *. destruct Hc as [Hxz Hc]. split; [exact Hxz|].
    apply IH; [exact Hc|]. rewrite <- (last_cons xs z x). exact Hl.
Qed.

Section TraceFacts.

Variables (race : RaceConfig) (car : CarProfile)
          (strategy : Strategy) (track : TrackProfile).

(** A property of the race state that every lap keeps holds when the stint
    loop ends. *)
Lemma laps_keep (I : RaceState -> Prop) :
  (forall i stint last s lap,
     I (race_state s) ->
     I (race_state (simulateLap race car strategy track i stint last s lap))) ->
  forall i stint last laps s,
    I (race_state s) ->
    I (race_state (fold_left (simulateLap race car strategy track i stint last) laps s)).
Proof.
  intros Hstep i stint last laps.
  induction laps as [|lap laps IH]; intros s Hs; [exact Hs|].
  cbn [fold_left]. apply IH, Hstep, Hs.
Qed.

Lemma stints_keep (I : RaceState -> Prop) :
  (forall i stint last s lap,
     I (race_state s) ->
     I (race_state (simulateLap race car strategy track i stint last s lap))) ->
  forall indexed st metrics warnings,
    I st ->
    I (fst (fst (fold_left (simulateStint race car strategy track) indexed
                   (st, metrics, warnings)))).
Proof.
  intros Hstep indexed.
  induction indexed as [|[i stint] indexed IH]; intros st metrics warnings Hst;
    [exact Hst|].
  cbn [fold_left]. unfold simulateStint at 2. cbv zeta. apply IH.
  apply laps_keep; [exact Hstep|exact Hst].
Qed.

Lemma runStints_keeps (I : RaceState -> Prop) :
  I (initialState race car) ->
  (forall i stint last s lap,
     I (race_state s) ->
     I (race_state (simulateLap race car strategy track i stint last s lap))) ->
  I (fst (fst (runStints race car strategy track))).
Proof. intros Hinit Hstep. unfold runStints. apply stints_keep; assumption. Qed.

Lemma simulateRace_lapData :
  lapData (simulateRace race car strategy track)
  = st_lapData (fst (fst (runStints race car strategy track))).
Proof.
  unfold simulateRace.
  destruct (runStints race car strategy track) as [[st metrics] warnings].
  reflexivity.
Qed.

End TraceFacts.

(** X1.  In one call of [simulateOvertaking] the car loses one place at
    most; when the answer says it overtook, it did gain a place; when the
    answer says it was overtaken, it lost exactly one; and the answer never
    says both. *)
Theorem overtaking_loses_at_most_one
    (pos : Z) (track : TrackProfile) (p : PaceClass) (r : RiskProfile)
    (lap : Z) (isFirstLap : bool) (fieldSize : Z) :
  let result := simulateOvertaking pos track p r lap isFirstLap fieldSize in
  newPosition result <= pos + 1
  /\ (overtook result = true -> newPosition result < pos)
  /\ (wasOvertaken result = true -> newPosition result = pos + 1)
  /\ overtook result && wasOvertaken result = false.
Proof.
  pose proof (simulateOvertaking_cases pos track p r lap isFirstLap fieldSize) as H.
  cbv zeta in *.
  destruct H as [(Hc & (gain & Hgain & Hnew) & Ho & Hw)
                |[(Hnew & _ & Ho & Hw)|(Hnew & Ho & Hw)]];
    rewrite Ho, Hw.
  - repeat split; try discriminate; try lia.
  - split; [destruct isFirstLap; lia|]. split; [discriminate|]. split; [|reflexivity].
    intros Hgt. apply Z.gtb_lt in Hgt. destruct isFirstLap; lia.
  - repeat split; try discriminate; lia.
Qed.

Section TraceShape.

Variables (race : RaceConfig) (car : CarProfile)
          (strategy : Strategy) (track : TrackProfile).

(** What the record of a lap says of the stint it belongs to. *)
Lemma simulateLap_label (i : nat) (stint : Stint) (last : bool)
    (s : StintState) (lap : Z) :
  exists record,
    st_lapData (race_state (simulateLap race car strategy track i stint last s lap))
    = st_lapData (race_state s) ++ [record]
    /\ lap_stintNumber record = stintNumber stint
    /\ lap_tireCompound record = tireCompound stint
    /\ isPitStop record = (lap =? lapsInStint stint) && negb last.
Proof.
  unfold simulateLap, isPitStop.
  set (first := currentLap (race_state s) + 1 =? 1).
  set (ov := simulateOvertaking _ _ _ _ _ first _).
  clearbody ov. clearbody first.
  destruct first, (overtook ov), (wasOvertaken ov),
    ((lap =? lapsInStint stint) && negb last);
    eexists; (split; [reflexivity|]); cbn; repeat split; reflexivity.
Qed.

(** A field that a lap record copies from its stint and lap reads, along the
    trace, as the stints and their laps give it. *)
Lemma trace_projection {B : Type} (f : LapData -> B) (g : nat -> Stint -> Z -> B) :
  (forall i stint s lap,
     exists record,
       st_lapData (race_state
         (simulateLap race car strategy track i stint (isLastStint strategy i) s lap))
       = st_lapData (race_state s) ++ [record]
       /\ f record = g i stint lap) ->
  map f (lapData (simulateRace race car strategy track))
  = flat_map (fun indexed => map (g (fst indexed) (snd indexed))
                                 (lapRange (lapsInStint (snd indexed))))
             (indexedStints strategy).
Proof.
  intros Hstep. rewrite simulateRace_lapData. unfold runStints.
  assert (Hlaps : forall i stint laps s,
            map f (st_lapData (race_state
              (fold_left (simulateLap race car strategy track i stint
                            (isLastStint strategy i)) laps s)))
            = map f (st_lapData (race_state s)) ++ map (g i stint) laps).
  { intros i stint laps. induction laps as [|lap laps IH]; intros s.
    - cbn. rewrite app_nil_r. reflexivity.
    - cbn [fold_left]. rewrite IH.
      destruct (Hstep i stint s lap) as (record & -> & Hf).
      rewrite map_app. cbn [map]. rewrite Hf, <- app_assoc. reflexivity. }
  assert (Hstints : forall indexed st metrics warnings,
            map f (st_lapData (fst (fst
              (fold_left (simulateStint race car strategy track) indexed
                 (st, metrics, warnings)))))
            = map f (st_lapData st)
              ++ flat_map (fun indexed => map (g (fst indexed) (snd indexed))
                                              (lapRange (lapsInStint (snd indexed))))
                          indexed).
  { intros indexed. induction indexed as [|[i stint] indexed IH];
      intros st metrics warnings.
    - cbn. rewrite app_nil_r. reflexivity.
    - cbn [fold_left]. unfold simulateStint at 2. cbv zeta. rewrite IH.
      fold (isLastStint strategy i). rewrite Hlaps.
      cbn [race_state flat_map fst snd]. rewrite <- app_assoc. reflexivity. }
  rewrite Hstints. reflexivity.
Qed.

End TraceShape.

(** ** Positions and lap numbers along the trace *)

Section RaceFacts.

Variables (race : RaceConfig) (car : CarProfile)
          (strategy : Strategy) (track : TrackProfile).

(** X2.  A car whose grid slot is within the field is never recorded ahead
    of the better of its grid slot and its pace-class ceiling: no lap record
    has a position below min(startingGridPosition, realisticCeiling). *)
Theorem positions_behind_ceiling :
  startingGridPosition car <= fieldSize race ->
  Forall (fun record =>
            Z.min (startingGridPosition car)
                  (realisticCeiling (PACE_CLASS_EFFECTS (paceClass car)))
            <= position record)
         (lapData (simulateRace race car strategy track)).
Proof.
  intros Hstart. rewrite simulateRace_lapData.
  set (m := Z.min _ _).
  pose proof (ceiling_floor (paceClass car)) as Hcf.
  refine (proj2 (runStints_keeps race car strategy track
           (fun st => m <= currentPosition st <= fieldSize race
                      /\ Forall (fun record => m <= position record) (st_lapData st))
           _ _)).
  - cbn. split; [lia|constructor].
  - intros i stint last s lap [Hpos Hall].
    destruct (simulateLap_shape race car strategy track i stint last s lap)
      as (record & times & loss & st' & -> & Hdata & Hcur & _ & Hrec & _).
    cbn [race_state]. rewrite Hdata, Hcur.
    assert (Hnew : m <= newPosition (overtakingOf race car track (race_state s))
                     <= fieldSize race).
    { unfold overtakingOf.
      match goal with
      | |- _ <= newPosition (simulateOvertaking ?a ?b ?c ?d ?e ?f ?g) <= _ =>
          pose proof (simulateOvertaking_cases a b c d e f g) as H
      end.
      cbv zeta in H.
      destruct H as [(Hc & (gain & Hgain & Hnew) & _)
                    |[(Hnew & Hlt & _)|(Hnew & _)]]; rewrite Hnew.
      - lia.
      - destruct (_ =? 1); [lia|]. specialize (Hlt eq_refl). lia.
      - lia. }
    split; [exact Hnew|].
    apply Forall_app. split; [exact Hall|].
    constructor; [|constructor]. rewrite Hrec. lia.
Qed.

(** X3.  From the grid slot on, the position recorded for a lap is at most
    one place worse than the position before that lap. *)
Theorem position_drops_one_place_a_lap :
  chain (fun before after => after <= before + 1)
        (startingGridPosition car)
        (map position (lapData (simulateRace race car strategy track))).
Proof.
  rewrite simulateRace_lapData.
  refine (proj1 (runStints_keeps race car strategy track
           (fun st => chain (fun before after => after <= before + 1)
                        (startingGridPosition car) (map position (st_lapData st))
                      /\ last (map position (st_lapData st)) (startingGridPosition car)
                         = currentPosition st)
           _ _)).
  - cbn. auto.
  - intros i stint last s lap [Hchain Hlast].
    destruct (simulateLap_shape race car strategy track i stint last s lap)
      as (record & times & loss & st' & -> & Hdata & Hcur & _ & Hrec & _).
    cbn [race_state]. rewrite Hdata, Hcur, map_app. cbn [map]. rewrite Hrec.
    split; [|apply last_last].
    apply chain_snoc; [exact Hchain|]. rewrite Hlast.
    unfold overtakingOf. apply simulateOvertaking_one_place.
Qed.

(** X4.  The lap records are numbered 1, 2, 3, ... in the order of the
    trace, whatever the stints are. *)
Theorem lap_numbers_count_from_one :
  map lapNumber (lapData (simulateRace race car strategy track))
  = map Z.of_nat (seq 1 (List.length (lapData (simulateRace race car strategy track)))).
Proof.
  rewrite simulateRace_lapData.
  refine (proj2 (runStints_keeps race car strategy track
           (fun st => currentLap st = Z.of_nat (List.length (st_lapData st))
                      /\ map lapNumber (st_lapData st)
                         = map Z.of_nat (seq 1 (List.length (st_lapData st))))
           _ _)).
  - cbn. auto.
  - intros i stint last s lap [Hlap Hnums].
    destruct (simulateLap_shape race car strategy track i stint last s lap)
      as (record & times & loss & st' & -> & Hdata & _ & Hcur & _ & Hnum & _).
    cbn [race_state]. rewrite Hdata, Hcur, length_app, map_app, Hnums. cbn [List.length map].
    split; [lia|].
    rewrite Nat.add_1_r, seq_S, map_app. cbn [map]. f_equal. f_equal.
    rewrite Hnum, Hlap. lia.
Qed.

End RaceFacts.

Lemma positions_behind_ceiling_witness :
  Forall (fun record => Z.min 12 5 <= position record)
         (lapData (simulateDocument monzaDocument)).
Proof.
  apply (positions_behind_ceiling (raceConfig monzaDocument) (carProfile monzaDocument)
           (strategy monzaDocument) (trackProfile monzaDocument)).
  cbn. lia.
Defined.

(** ** Stints, pit stops and stint metrics *)

Lemma map_constant {A B : Type} (c : B) (xs : list A) :
  map (fun _ => c) xs = repeat c (List.length xs).
Proof. induction xs as [|x xs IH]; cbn; [reflexivity|]. rewrite IH. reflexivity. Qed.

Lemma flat_map_snd {A B C : Type} (h : B -> list C) (xs : list (A * B)) :
  flat_map (fun x => h (snd x)) xs = flat_map h (map snd xs).
Proof. induction xs as [|x xs IH]; cbn; [reflexivity|]. rewrite IH. reflexivity. Qed.

Lemma lapRange_count (n : Z) : List.length (lapRange n) = Z.to_nat n.
Proof. unfold lapRange. rewrite length_map, length_seq. reflexivity. Qed.






Lemma linked_snoc (metrics : list StintMetrics) (m : StintMetrics) :
  forall start,
    linked start metrics ->
    startPosition m = last (map endPosition metrics) start ->
    linked start (metrics ++ [m]).
Proof.
  induction metrics as [|x metrics IH]; intros start Hl Hm.
  - cbn in *. auto.
  - cbn [app linked] in *. destruct Hl as [Hx Hl]. split; [exact Hx|].
    apply IH; [exact Hl|]. rewrite Hm. cbn [map]. apply last_cons.
Qed.

Section StintFacts.

Variables (race : RaceConfig) (car : CarProfile)
          (strategy : Strategy) (track : TrackProfile).

(** X5.  The lap records follow the stints: a stint of n laps gives n
    consecutive records that carry its stint number and its compound (none
    when n is below one), in the order of the stints. *)
Theorem lap_records_follow_stints :
  map (fun record => (lap_stintNumber record, lap_tireCompound record))
      (lapData (simulateRace race car strategy track))
  = flat_map (fun stint => repeat (stintNumber stint, tireCompound stint)
                                  (Z.to_nat (lapsInStint stint)))
             (stints strategy).
Proof.
  rewrite (trace_projection race car strategy track
             (fun record => (lap_stintNumber record, lap_tireCompound record))
             (fun _ stint _ => (stintNumber stint, tireCompound stint))).
  - rewrite <- (indexedStints_stints strategy).
    rewrite <- flat_map_snd. apply flat_map_ext. intros [i stint]. cbn [fst snd].
    rewrite map_constant, lapRange_count. reflexivity.
  - intros i stint s lap.
    destruct (simulateLap_label race car strategy track i stint
                (isLastStint strategy i) s lap) as (record & Hdata & Hn & Hc & _).
    exists record. split; [exact Hdata|]. rewrite Hn, Hc. reflexivity.
Qed.


(** One round of the stint loop adds one entry to the stint metrics. *)
Lemma simulateStint_metrics (i : nat) (stint : Stint)
    (st : RaceState) (metrics : list StintMetrics) (warnings : list SimulationWarning) :
  exists st' m,
    simulateStint race car strategy track (st, metrics, warnings) (i, stint)
    = (st', metrics ++ [m], warnings ++ stintWarnings race stint)
    /\ sm_stintNumber m = stintNumber stint
    /\ sm_tireCompound m = tireCompound stint
    /\ sm_totalLaps m = lapsInStint stint
    /\ startPosition m = currentPosition st
    /\ endPosition m = currentPosition st'.
Proof.
  unfold simulateStint. cbv zeta. do 2 eexists. split; [reflexivity|].
  cbn. repeat split; reflexivity.
Qed.

Lemma stints_keep_metrics (J : RaceState -> list StintMetrics -> Prop) :
  (forall i stint st metrics warnings st' m w',
     J st metrics ->
     simulateStint race car strategy track (st, metrics, warnings) (i, stint)
     = (st', metrics ++ [m], w') ->
     J st' (metrics ++ [m])) ->
  J (initialState race car) [] ->
  J (fst (fst (runStints race car strategy track)))
    (snd (fst (runStints race car strategy track))).
Proof.
  intros Hstep Hinit. unfold runStints.
  generalize (@nil SimulationWarning) at 1 2.
  revert Hinit. generalize (initialState race car). generalize (@nil StintMetrics).
  induction (indexedStints strategy) as [|[i stint] indexed IH];
    intros metrics st Hst warnings; [exact Hst|].
  cbn [fold_left].
  destruct (simulateStint_metrics i stint st metrics warnings)
    as (st' & m & Heq & _).
  rewrite Heq. apply IH. eapply Hstep; [exact Hst|exact Heq].
Qed.

(** X7.  The stint metrics are linked: the first stint starts on the grid
    slot, every other stint starts on the position the stint before it ended
    on, and the predicted finish is the position the last stint ended on
    (the grid slot when there is no stint), clamped to the pace class. *)
Theorem stint_metrics_linked :
  let result := simulateRace race car strategy track in
  linked (startingGridPosition car) (stintMetrics result)
  /\ predictedFinishPosition result
     = clampToPaceClass (paceClass car)
         (last (map endPosition (stintMetrics result)) (startingGridPosition car)).
Proof.
  cbv zeta.
  pose proof (stints_keep_metrics
    (fun st metrics =>
       linked (startingGridPosition car) metrics
       /\ last (map endPosition metrics) (startingGridPosition car) = currentPosition st))
    as H.
  unfold simulateRace.
  destruct (runStints race car strategy track) as [[st metrics] warnings].
  cbn [fst snd stintMetrics predictedFinishPosition] in *.
  destruct H as [Hlinked Hlast].
  - intros i stint st0 metrics0 warnings0 st' m w' [Hl Hc] Heq.
    destruct (simulateStint_metrics i stint st0 metrics0 warnings0)
      as (st1 & m1 & Heq1 & _ & _ & _ & Hstart & Hend).
    rewrite Heq1 in Heq. injection Heq as <- Hm _.
    apply app_inj_tail in Hm. destruct Hm as [_ <-].
    split.
    + apply linked_snoc; [exact Hl|]. rewrite Hstart, Hc. reflexivity.
    + rewrite map_app. cbn [map]. rewrite last_last. exact Hend.
  - cbn. auto.
  - split; [exact Hlinked|]. rewrite Hlast. reflexivity.
Qed.

End StintFacts.


(** ** The fuel load *)

(** The fuel after each of the first 62 laps, checked by computation. *)
Lemma fuelTable_checked : fuelTableOk = true.
Proof. vm_compute. reflexivity. Qed.

Lemma fuel_runs_out : fuelAfter 62 = 0%float.
Proof. vm_compute. reflexivity. Qed.

Lemma fuelAfter_empty (k : nat) : (62 <= k)%nat -> fuelAfter k = 0%float.
Proof.
  intros Hk. replace k with ((k - 62) + 62)%nat by lia.
  induction (k - 62)%nat as [|n IH]; [exact fuel_runs_out|].
  cbn [Nat.add fuelAfter]. rewrite IH. vm_compute. reflexivity.
Qed.

Lemma fuelAfter_range (k : nat) :
  (0 <=? fuelAfter (S k))%float = true
  /\ (fuelAfter (S k) <=? fuelAfter k)%float = true
  /\ (fuelAfter k <=? 110)%float = true.
Proof.
  destruct (Nat.lt_ge_cases k 62) as [Hk|Hk].
  - pose proof fuelTable_checked as H. unfold fuelTableOk in H.
    apply andb_prop in H. destruct H as [H _].
    apply andb_prop in H. destruct H as [H _].
    rewrite forallb_forall in H. specialize (H k).
    assert (Hin : In k (seq 0 62)) by (apply in_seq; lia).
    specialize (H Hin).
    apply andb_prop in H. destruct H as [H H3].
    apply andb_prop in H. destruct H as [H1 H2]. auto.
  - rewrite (fuelAfter_empty (S k)) by lia. rewrite (fuelAfter_empty k) by lia.
    vm_compute. auto.
Qed.

Section FuelFacts.

Variables (race : RaceConfig) (car : CarProfile)
          (strategy : Strategy) (track : TrackProfile).

Lemma simulateLap_fuel (i : nat) (stint : Stint) (last : bool)
    (s : StintState) (lap : Z) :
  exists record,
    let st' := race_state (simulateLap race car strategy track i stint last s lap) in
    st_lapData st' = st_lapData (race_state s) ++ [record]
    /\ fuelLoad st' = JS.max 0 (fuelLoad (race_state s) - 1.8)%float
    /\ lap_fuelLoad record = fuelLoad st'
    /\ lapNumber record = (currentLap (race_state s) + 1)%Z
    /\ currentLap st' = (currentLap (race_state s) + 1)%Z.
Proof.
  unfold simulateLap.
  destruct (getTrackData_fuel (trackName race)) as [_ ->].
  set (first := currentLap (race_state s) + 1 =? 1).
  set (ov := simulateOvertaking _ _ _ _ _ first _).
  clearbody ov. clearbody first.
  destruct first, (overtook ov), (wasOvertaken ov),
    ((lap =? lapsInStint stint) && negb last);
    eexists; cbn; repeat split; reflexivity.
Qed.

Lemma fuel_along_trace :
  map (fun record => (lapNumber record, lap_fuelLoad record))
      (lapData (simulateRace race car strategy track))
  = map (fun k => (Z.of_nat k, fuelAfter k))
        (seq 1 (List.length (lapData (simulateRace race car strategy track)))).
Proof.
  rewrite simulateRace_lapData.
  refine (proj2 (proj2 (runStints_keeps race car strategy track
           (fun st => currentLap st = Z.of_nat (List.length (st_lapData st))
                      /\ fuelLoad st = fuelAfter (List.length (st_lapData st))
                      /\ map (fun record => (lapNumber record, lap_fuelLoad record))
                             (st_lapData st)
                         = map (fun k => (Z.of_nat k, fuelAfter k))
                               (seq 1 (List.length (st_lapData st))))
           _ _))).
  - cbn. destruct (getTrackData_fuel (trackName race)) as [-> _]. auto.
  - intros i stint last s lap (Hlap & Hfuel & Htrace).
    destruct (simulateLap_fuel i stint last s lap)
      as (record & Hdata & Hnew & Hrec & Hnum & Hcur).
    cbv zeta in *. rewrite Hdata, Hcur, Hnew, length_app, map_app, Htrace.
    cbn [List.length map]. rewrite Nat.add_1_r.
    assert (Hstep : JS.max 0 (fuelLoad (race_state s) - 1.8)%float
                    = fuelAfter (S (List.length (st_lapData (race_state s))))).
    { rewrite Hfuel. reflexivity. }
    split; [lia|]. split; [exact Hstep|].
    rewrite seq_S, map_app. cbn [map]. f_equal. f_equal.
    rewrite Hnum, Hrec, Hnew, Hstep, Hlap. f_equal. lia.
Qed.

End FuelFacts.

Lemma chain_seq {A : Type} (R : A -> A -> Prop) (h : nat -> A) :
  (forall k, R (h k) (h (S k))) ->
  forall n a, chain R (h a) (map h (seq (S a) n)).
Proof.
  intros Hstep n. induction n as [|n IH]; intros a; cbn; [exact I|].
  split; [apply Hstep|apply IH].
Qed.

(** X8.  The fuel load of a lap record is never negative and never above
    the 110 kg the car starts with; it does not increase from one lap to the
    next; and from lap 62 on the tank is empty, while the race goes on. *)
Theorem fuel_load_profile
    (race : RaceConfig) (car : CarProfile) (strategy : Strategy) (track : TrackProfile) :
  let trace := lapData (simulateRace race car strategy track) in
  Forall (fun record => (0 <=? lap_fuelLoad record)%float = true
                        /\ (lap_fuelLoad record <=? 110)%float = true) trace
  /\ chain (fun before after => (after <=? before)%float = true)
           110%float (map lap_fuelLoad trace)
  /\ Forall (fun record => 62 <= lapNumber record -> lap_fuelLoad record = 0%float) trace.
Proof.
  cbv zeta.
  pose proof (fuel_along_trace race car strategy track) as Htrace.
  set (trace := lapData (simulateRace race car strategy track)) in *.
  assert (Hfuel : map lap_fuelLoad trace = map fuelAfter (seq 1 (List.length trace))).
  { apply (f_equal (map snd)) in Htrace. rewrite !map_map in Htrace. exact Htrace. }
  split; [|split].
  - apply (Forall_map lap_fuelLoad
             (fun fuel => (0 <=? fuel)%float = true /\ (fuel <=? 110)%float = true)).
    rewrite Hfuel. apply Forall_map. apply Forall_forall. intros k Hk.
    apply in_seq in Hk. destruct k as [|k]; [lia|].
    destruct (fuelAfter_range k) as (H0 & _ & _).
    destruct (fuelAfter_range (S k)) as (_ & _ & H110). auto.
  - rewrite Hfuel. change 110%float with (fuelAfter 0).
    apply (chain_seq (fun before after => (after <=? before)%float = true) fuelAfter).
    intros k. apply (fuelAfter_range k).
  - apply (Forall_map (fun record => (lapNumber record, lap_fuelLoad record))
             (fun p => 62 <= fst p -> snd p = 0%float)).
    rewrite Htrace. apply Forall_map. apply Forall_forall. intros k _. cbn [fst snd].
    intros Hk. apply fuelAfter_empty. lia.
Qed.

(** ** The probability of points *)

Lemma all_pace_classes_spec (P : PaceClass -> bool) :
  all_pace_classes P = true -> forall p, P p = true.
Proof.
  unfold all_pace_classes. intros H p. rewrite forallb_forall in H.
  apply H. destruct p; simpl; tauto.
Qed.

Lemma pointsProbability_checked :
  forallb pointsProbabilityOk (map Z.of_nat (seq 0 21)) = true.
Proof. vm_compute. reflexivity. Qed.

Lemma clampToPaceClass_range (p : PaceClass) (pos : Z) :
  realisticCeiling (PACE_CLASS_EFFECTS p) <= clampToPaceClass p pos
  <= realisticFloor (PACE_CLASS_EFFECTS p).
Proof. pose proof (ceiling_floor p). unfold clampToPaceClass. lia. Qed.

(** X9.  The probability of points the engine reports lies between 0.05
    and 0.85, whatever the inputs are. *)
Theorem points_probability_bounds
    (race : RaceConfig) (car : CarProfile) (strategy : Strategy) (track : TrackProfile) :
  let probability := probabilityOfPoints (simulateRace race car strategy track) in
  (0.05 <=? probability)%float = true /\ (probability <=? 0.85)%float = true.
Proof.
  cbv zeta. unfold simulateRace.
  destruct (runStints race car strategy track) as [[st metrics] warnings].
  cbn [probabilityOfPoints].
  pose proof (clampToPaceClass_range (paceClass car) (currentPosition st)) as Hrange.
  assert (Hp : 0 <= clampToPaceClass (paceClass car) (currentPosition st) < 21)
    by (destruct (paceClass car); cbn in Hrange; lia).
  pose proof (forallb_range pointsProbabilityOk 21 pointsProbability_checked _ Hp) as H.
  apply all_pace_classes_spec with (p := paceClass car) in H.
  apply andb_prop in H. exact H.
Qed.

(** ** The track database *)

Lemma filter_string_all (p : ascii -> bool) (s : string) :
  all_chars p (filter_string p s) = true.
Proof.
  induction s as [|c s IH]; cbn; [reflexivity|].
  destruct (p c) eqn:Hc; cbn; [rewrite Hc|]; exact IH.
Qed.


(** X10.  No track name selects the ABU_DHABI entry of the track database:
    the lookup key keeps the letters A to Z only, and that entry's key has an
    underscore.  Abu Dhabi, however it is spelled, runs on the default
    data. *)
Theorem abu_dhabi_entry_is_never_selected (trackName : string) :
  lookup "ABU_DHABI"%string TRACK_DATABASE = Some (85, 20)%float
  /\ getTrackData trackName
     <> {| baseLapTime := 85; pitLaneTimeLoss := 20;
           fuelEffectPerKg := fuelEffectPerKg DEFAULT_TRACK_DATA;
           startingFuelKg := startingFuelKg DEFAULT_TRACK_DATA;
           fuelConsumptionPerLap := fuelConsumptionPerLap DEFAULT_TRACK_DATA |}.
Proof.
  split; [reflexivity|].
  unfold getTrackData.
  pose proof (filter_string_all is_upper (toUpperCase trackName)) as Hall.
  set (key := filter_string is_upper (toUpperCase trackName)) in *.
  unfold TRACK_DATABASE. cbn [lookup].
  repeat match goal with
         | |- context [if String.eqb key ?k then _ else _] =>
             destruct (String.eqb_spec key k) as [Hk|_];
               [try (intros H; discriminate H)|]
         end.
  - rewrite Hk in Hall. discriminate Hall.
  - intros H. discriminate H.
Qed.

(* ========================================================================= *)
(** * Properties of the parser *)

(** ** Computations that leave the warnings alone *)

Lemma grows_refl (s : PState) : grows s s.
Proof. split; [reflexivity|]. exists []. symmetry. apply app_nil_r. Qed.

Lemma grows_trans (s1 s2 s3 : PState) : grows s1 s2 -> grows s2 s3 -> grows s1 s3.
Proof.
  intros [Hw1 [a1 He1]] [Hw2 [a2 He2]]. split; [congruence|].
  exists (a1 ++ a2). rewrite He2, He1, app_assoc. reflexivity.
Qed.

Lemma steady_ret {A : Type} (a : A) : steady (ret a).
Proof. intros s. apply grows_refl. Qed.

Lemma steady_bind {A B : Type} (m : M A) (k : A -> M B) :
  steady m -> (forall a, steady (k a)) -> steady (bind m k).
Proof.
  intros Hm Hk s. unfold bind. specialize (Hm s).
  destruct (m s) as [a s1|msg s1]; cbn in *; [|exact Hm].
  eapply grows_trans; [exact Hm|apply Hk].
Qed.

Lemma steady_modify (f : PState -> PState) :
  (forall s, st_warnings (f s) = st_warnings s) ->
  (forall s, st_errors (f s) = st_errors s) ->
  steady (modify f).
Proof.
  intros Hw He s. cbn. split; [apply Hw|]. exists []. rewrite He, app_nil_r. reflexivity.
Qed.

Lemma steady_addError (message : string) (section : option string) :
  steady (addError message section).
Proof. intros s. cbn. split; [reflexivity|]. eexists. reflexivity. Qed.

Lemma steady_advance : steady advance.
Proof. apply steady_modify; reflexivity. Qed.

Lemma steady_atEnd (lines : list string) : steady (atEnd lines).
Proof. intros s. apply grows_refl. Qed.

Lemma steady_currentLine (lines : list string) : steady (currentLine lines).
Proof. intros s. unfold currentLine. destruct (nth_error _ _); apply grows_refl. Qed.

Lemma steady_whenM (b : bool) (m : M unit) : steady m -> steady (whenM b m).
Proof. intros H. destruct b; [exact H|apply steady_ret]. Qed.

(** Steadiness of a computation built from the parser's primitives follows
    its syntax. *)
Ltac steady_step :=
  match goal with
  | |- steady (bind _ _) => apply steady_bind; [|intros ?]
  | |- steady (ret _) => apply steady_ret
  | |- steady (addError _ _) => apply steady_addError
  | |- steady advance => apply steady_advance
  | |- steady (atEnd _) => apply steady_atEnd
  | |- steady (currentLine _) => apply steady_currentLine
  | |- steady (whenM _ _) => apply steady_whenM
  | |- steady (modify _) => apply steady_modify; reflexivity
  | |- steady (if ?b then _ else _) => destruct b
  | |- steady (match ?x with Some _ => _ | None => _ end) => destruct x
  | |- steady (let _ := _ in _) => cbv zeta
  | H : steady ?m |- steady ?m => exact H
  | H : context [steady] |- steady _ => apply H
  end.

Ltac steady_tac := repeat steady_step.

Section SteadyParsers.

Variable numberToString : float -> string.
Variable lines : list string.

Lemma steady_skipEmpty : steady (skipEmpty lines).
Proof.
  unfold skipEmpty.
  induction (fuel lines) as [|n IH]; cbn [skipEmptyLoop]; unfold skipEmptyBody; steady_tac.
Qed.

Lemma steady_parseRace : steady (parseRace lines).
Proof. pose proof steady_skipEmpty. unfold parseRace. steady_tac. Qed.

Lemma steady_parseCar : steady (parseCar lines).
Proof. pose proof steady_skipEmpty. unfold parseCar. steady_tac. Qed.

Lemma steady_parseTrack : steady (parseTrack numberToString lines).
Proof.
  pose proof steady_skipEmpty.
  unfold parseTrack, parseTrackAero, parseTrackOvertaking. steady_tac.
Qed.

Lemma steady_stintLoop (n : nat) : forall stints, steady (stintLoop lines n stints).
Proof.
  induction n as [|n IH]; intros stints; cbn [stintLoop]; unfold stintBody; steady_tac.
Qed.

Lemma steady_parseStrategy : steady (parseStrategy lines).
Proof.
  pose proof steady_skipEmpty. pose proof steady_stintLoop.
  unfold parseStrategy. steady_tac.
Qed.

Lemma steady_turnLoop (n : nat) : steady (turnLoop lines n).
Proof. induction n as [|n IH]; cbn [turnLoop]; unfold turnBody; steady_tac. Qed.

Lemma steady_parseCriticalTurns : steady (parseCriticalTurns lines).
Proof.
  pose proof steady_skipEmpty. pose proof steady_turnLoop.
  unfold parseCriticalTurns. steady_tac.
Qed.

Lemma steady_skipToEnd (n : nat) : steady (skipToEnd lines n).
Proof. induction n as [|n IH]; cbn [skipToEnd]; unfold skipToEndBody; steady_tac. Qed.

Lemma steady_winnerStintLoop (n : nat) :
  forall pwStints, steady (winnerStintLoop lines n pwStints).
Proof.
  induction n as [|n IH]; intros pwStints; cbn [winnerStintLoop];
    unfold winnerStintBody; steady_tac.
Qed.

Lemma steady_parsePreviousWinner : steady (parsePreviousWinner lines).
Proof.
  pose proof steady_skipEmpty. pose proof steady_skipToEnd.
  pose proof steady_winnerStintLoop.
  unfold parsePreviousWinner. steady_tac.
Qed.

End SteadyParsers.

(** ** The loops end before their fuel does *)

(** Each round of a loop that goes on moves to the next line, so a loop
    started with more fuel than lines are left never reaches the end of its
    fuel: more fuel changes nothing. *)

(** The two sides run the same body and differ only in what another round
    does, where the induction hypothesis applies. *)
Ltac run_loop_body IH :=
  unfold bind, atEnd, currentLine, advance, addError, whenM, modify, ret;
  repeat (cbv beta;
          match goal with
          | |- context [if ?b then _ else _] => destruct b eqn:?
          | |- context [match nth_error ?l ?i with _ => _ end] =>
              destruct (nth_error l i) eqn:?
          | |- context [match full_match ?r ?x with _ => _ end] =>
              destruct (full_match r x) eqn:?
          end);
  cbv beta; try reflexivity;
  apply IH;
  cbn [lineIndex set_lineIndex set_errors set_criticalTurns];
  match goal with
  | H : (_ <=? _)%nat = false |- _ => apply Nat.leb_gt in H
  end; lia.

Section Fuel.

Variable lines : list string.

Lemma skipEmptyLoop_fuel (n : nat) :
  forall s, (remaining lines s < n)%nat ->
  skipEmptyLoop lines (S n) s = skipEmptyLoop lines n s.
Proof.
  unfold remaining.
  induction n as [|n IH]; intros s H; [lia|].
  change (skipEmptyBody lines (skipEmptyLoop lines (S n)) s
          = skipEmptyBody lines (skipEmptyLoop lines n) s).
  unfold skipEmptyBody. run_loop_body IH.
Qed.

Lemma stintLoop_fuel (n : nat) :
  forall stints s, (remaining lines s < n)%nat ->
  stintLoop lines (S n) stints s = stintLoop lines n stints s.
Proof.
  unfold remaining.
  induction n as [|n IH]; intros stints s H; [lia|].
  change (stintBody lines (stintLoop lines (S n)) stints s
          = stintBody lines (stintLoop lines n) stints s).
  unfold stintBody. run_loop_body IH.
Qed.

Lemma turnLoop_fuel (n : nat) :
  forall s, (remaining lines s < n)%nat ->
  turnLoop lines (S n) s = turnLoop lines n s.
Proof.
  unfold remaining.
  induction n as [|n IH]; intros s H; [lia|].
  change (turnBody lines (turnLoop lines (S n)) s
          = turnBody lines (turnLoop lines n) s).
  unfold turnBody. run_loop_body IH.
Qed.

Lemma skipToEnd_fuel (n : nat) :
  forall s, (remaining lines s < n)%nat ->
  skipToEnd lines (S n) s = skipToEnd lines n s.
Proof.
  unfold remaining.
  induction n as [|n IH]; intros s H; [lia|].
  change (skipToEndBody lines (skipToEnd lines (S n)) s
          = skipToEndBody lines (skipToEnd lines n) s).
  unfold skipToEndBody. run_loop_body IH.
Qed.

Lemma winnerStintLoop_fuel (n : nat) :
  forall pwStints s, (remaining lines s < n)%nat ->
  winnerStintLoop lines (S n) pwStints s = winnerStintLoop lines n pwStints s.
Proof.
  unfold remaining.
  induction n as [|n IH]; intros pwStints s H; [lia|].
  change (winnerStintBody lines (winnerStintLoop lines (S n)) pwStints s
          = winnerStintBody lines (winnerStintLoop lines n) pwStints s).
  unfold winnerStintBody. run_loop_body IH.
Qed.

End Fuel.

Section Enough.

Variable lines : list string.

Lemma fuel_covers (s : PState) : (remaining lines s < fuel lines)%nat.
Proof. unfold remaining, fuel. lia. Qed.

Lemma enough_fuel {A : Type} (loop : nat -> PState -> Outcome A) :
  (forall n s, (remaining lines s < n)%nat -> loop (S n) s = loop n s) ->
  forall extra s, loop (fuel lines + extra)%nat s = loop (fuel lines) s.
Proof.
  intros Hstep extra s. induction extra as [|k IH].
  - now rewrite Nat.add_0_r.
  - rewrite Nat.add_succ_r, Hstep; [exact IH|].
    pose proof (fuel_covers s). lia.
Qed.

Lemma skipEmpty_total (extra : nat) (s : PState) :
  skipEmptyLoop lines (fuel lines + extra) s = skipEmpty lines s.
Proof.
  apply (enough_fuel (skipEmptyLoop lines)). intros n. apply skipEmptyLoop_fuel.
Qed.

Lemma stintLoop_total (extra : nat) (stints : list StintText) (s : PState) :
  stintLoop lines (fuel lines + extra) stints s = stintLoop lines (fuel lines) stints s.
Proof.
  apply (enough_fuel (fun n => stintLoop lines n stints)).
  intros n s'. apply stintLoop_fuel.
Qed.

Lemma turnLoop_total (extra : nat) (s : PState) :
  turnLoop lines (fuel lines + extra) s = turnLoop lines (fuel lines) s.
Proof. apply (enough_fuel (turnLoop lines)). intros n. apply turnLoop_fuel. Qed.

Lemma skipToEnd_total (extra : nat) (s : PState) :
  skipToEnd lines (fuel lines + extra) s = skipToEnd lines (fuel lines) s.
Proof. apply (enough_fuel (skipToEnd lines)). intros n. apply skipToEnd_fuel. Qed.

Lemma winnerStintLoop_total (extra : nat) (pwStints : list (string * Z)) (s : PState) :
  winnerStintLoop lines (fuel lines + extra) pwStints s
  = winnerStintLoop lines (fuel lines) pwStints s.
Proof.
  apply (enough_fuel (fun n => winnerStintLoop lines n pwStints)).
  intros n s'. apply winnerStintLoop_fuel.
Qed.

End Enough.

(** ** The texts of a document denote members of their enumerations *)

Lemma includes_member {A : Type} (text : A -> string) (valid : list A) (s : string) :
  includes_text text valid s = true -> member text valid s <> None.
Proof.
  unfold includes_text, member.
  induction valid as [|a valid IH]; cbn; [discriminate|].
  destruct (String.eqb s (text a)); [discriminate|exact IH].
Qed.

Lemma castAll_snoc {A B : Type} (f : A -> option B) (xs : list A) (x : A) :
  castAll f xs <> None -> f x <> None -> castAll f (xs ++ [x]) <> None.
Proof.
  intros Hxs Hx. induction xs as [|y xs IH]; cbn in *.
  - destruct (f x); [discriminate|contradiction].
  - destruct (f y); [|contradiction].
    destruct (castAll f xs); [|contradiction].
    destruct (castAll f (xs ++ [x])); [discriminate|].
    apply IH. discriminate.
Qed.

Lemma typed_initial : typed initialPState.
Proof. intros _. repeat split; cbn; discriminate. Qed.

Ltac valid_text :=
  repeat match goal with
         | H : negb (includes_text _ _ _) = false |- _ =>
             apply negb_false_iff in H
         | H : negb ?b = false |- _ =>
             apply negb_false_iff in H
         | H : includes_text _ _ _ = true |- _ => apply includes_member in H
         | H : isValidWeather _ = true |- _ => apply includes_member in H
         | H : isValidPaceClass _ = true |- _ => apply includes_member in H
         | H : isValidRiskProfile _ = true |- _ => apply includes_member in H
         | H : isValidTire _ = true |- _ => apply includes_member in H
         end.

Ltac castable_tac :=
  match goal with
  | Ht : typed ?s, He : st_errors ?s = [] |- castable _ =>
      let Hr := fresh "Hr" in
      let Hc := fresh "Hc" in
      let Hx := fresh "Hx" in
      let Hw := fresh "Hw" in
      destruct (Ht He) as (Hr & Hc & Hx & Hw);
      unfold castable;
      cbn [st_raceConfig st_carProfile st_strategy st_previousWinner
           set_lineIndex set_errors set_warnings set_raceConfig
           set_carProfile set_trackAero set_trackOvertaking set_trackChance
           set_strategy set_criticalTurns set_previousWinner];
      repeat split; try assumption; try (intros ? [= <-]); valid_text
  end.

Lemma typed_lineIndex (n : nat) (s : PState) : typed s -> typed (set_lineIndex n s).
Proof. intros H He. exact (H He). Qed.

Lemma typed_error (e : list DSLParseError) (x : DSLParseError) (s : PState) :
  typed (set_errors (e ++ [x]) s).
Proof. intros He. cbn in He. destruct (app_cons_not_nil _ _ _ (eq_sym He)). Qed.

Lemma typed_trackAero (a : AeroClassification) (s : PState) :
  typed s -> typed (set_trackAero a s).
Proof. intros H He. exact (H He). Qed.

Lemma typed_trackOvertaking (o : OvertakingDifficulty) (s : PState) :
  typed s -> typed (set_trackOvertaking o s).
Proof. intros H He. exact (H He). Qed.

Lemma typed_trackChance (c : float) (s : PState) :
  typed s -> typed (set_trackChance c s).
Proof. intros H He. exact (H He). Qed.

Lemma typed_criticalTurns (t : list CriticalTurn) (s : PState) :
  typed s -> typed (set_criticalTurns t s).
Proof. intros H He. exact (H He). Qed.

Lemma typed_warnings (w : list string) (s : PState) :
  typed s -> typed (set_warnings w s).
Proof. intros H He. exact (H He). Qed.

Ltac typed_state :=
  first [ assumption
        | apply typed_error
        | apply typed_lineIndex; typed_state
        | apply typed_trackAero; typed_state
        | apply typed_trackOvertaking; typed_state
        | apply typed_trackChance; typed_state
        | apply typed_criticalTurns; typed_state
        | apply typed_warnings; typed_state ].

(** Symbolic execution of a run [H : m s = Ok a s']: calls of computations
    known to keep the invariant are replaced by their effect, the
    primitives are unfolded and the tests are split. *)
Ltac run H :=
  unfold bind, atEnd, currentLine, advance, addError, whenM, modify, ret in H;
  repeat (cbv beta zeta in H;
          match type of H with
          | context [match ?m ?s with Ok _ _ => _ | Throw _ _ => _ end] =>
              match goal with
              | L : typing m |- _ =>
                  let E := fresh "E" in
                  destruct (m s) as [? ?|? ?] eqn:E; [|discriminate H];
                  apply L in E; [|typed_state]
              end
          | context [if ?b then _ else _] => destruct b eqn:?
          | context [match nth_error ?l ?i with _ => _ end] =>
              destruct (nth_error l i) eqn:?; [|discriminate H]
          | context [match full_match ?r ?x with _ => _ end] =>
              destruct (full_match r x) eqn:?
          | context [match ?x with Some _ => _ | None => _ end] =>
              destruct x eqn:?
          end).

(** No diagnostic at the end of a run: none was added, and there was none
    at its start. *)
Ltac no_error He :=
  cbn [st_errors set_lineIndex set_errors set_warnings set_raceConfig
       set_carProfile set_trackAero set_trackOvertaking set_trackChance
       set_strategy set_criticalTurns set_previousWinner] in He;
  try (exfalso; eapply app_cons_not_nil; symmetry; exact He).

(** The invariant at the end of a run: either a diagnostic was added, or
    what was stored is castable. *)
Ltac typed_leaf :=
  first
    [ typed_state
    | let He := fresh "He" in
      intros He; no_error He; castable_tac ].

Ltac finish H :=
  first [ injection H as _ <-
        | match type of H with
          | ?m ?s = Ok _ _ =>
              match goal with
              | L : typing m |- _ => apply L in H; [exact H|typed_state]
              end
          end ].

Section Typed.

Variable numberToString : float -> string.
Variable lines : list string.

Lemma typing_skipEmptyLoop (n : nat) : typing (skipEmptyLoop lines n).
Proof.
  induction n as [|n IH]; intros s u s' Ht H; cbn [skipEmptyLoop] in H.
  - finish H. exact Ht.
  - unfold skipEmptyBody in H. run H; finish H; typed_state.
Qed.

Lemma typing_skipEmpty : typing (skipEmpty lines).
Proof. apply typing_skipEmptyLoop. Qed.

Lemma typing_parseRace : typing (parseRace lines).
Proof.
  pose proof typing_skipEmpty.
  intros s u s' Ht Hrun. unfold parseRace in Hrun.
  run Hrun; finish Hrun; typed_leaf.
  unfold castRaceConfig. cbn [t_weather].
  fold asWeather in Heqb0. destruct (asWeather _); [discriminate|contradiction].
Qed.

Lemma typing_parseCar : typing (parseCar lines).
Proof.
  pose proof typing_skipEmpty.
  intros s u s' Ht Hrun. unfold parseCar in Hrun.
  run Hrun; finish Hrun; typed_leaf.
  unfold castCarProfile. cbn [t_paceClass t_riskProfile].
  fold asPaceClass in Heqb0. fold asRiskProfile in Heqb1.
  destruct (asPaceClass _); [|contradiction].
  destruct (asRiskProfile _); [discriminate|contradiction].
Qed.

Lemma typing_parseTrack : typing (parseTrack numberToString lines).
Proof.
  pose proof typing_skipEmpty.
  intros s u s' Ht Hrun. unfold parseTrack, parseTrackAero, parseTrackOvertaking in Hrun.
  run Hrun; finish Hrun; typed_leaf.
Qed.

Lemma typing_stintLoop (n : nat) :
  forall stints s r s',
  typed s -> (st_errors s = [] -> castAll castStint stints <> None) ->
  stintLoop lines n stints s = Ok r s' ->
  typed s' /\ (st_errors s' = [] -> castAll castStint r <> None).
Proof.
  induction n as [|n IH]; intros stints s r s' Ht Hs Hrun; cbn [stintLoop] in Hrun.
  - injection Hrun as <- <-. auto.
  - unfold stintBody in Hrun. run Hrun.
    all: try (injection Hrun as <- <-; split; [typed_state|exact Hs]).
    all: apply IH in Hrun; [exact Hrun|typed_state|].
    all: intros He; no_error He; auto.
    apply castAll_snoc; [auto|]. valid_text.
    unfold castStint. cbn [t_tireCompound]. fold asTire in Heqb2.
    destruct (asTire _); [discriminate|contradiction].
Qed.

Lemma typing_parseStrategy : typing (parseStrategy lines).
Proof.
  pose proof typing_skipEmpty.
  intros s u s' Ht Hrun. unfold parseStrategy in Hrun.
  run Hrun. all: try (finish Hrun; typed_leaf; fail).
  match type of Hrun with
  | context [stintLoop ?l ?n ?x ?s] =>
      destruct (stintLoop l n x s) as [stints sl|] eqn:Hloop; [|discriminate Hrun]
  end.
  apply typing_stintLoop in Hloop as [Ht1 Hstints];
    [|typed_state|intros _; discriminate].
  run Hrun; finish Hrun; typed_leaf.
  unfold castStrategy. cbn [t_stints].
  destruct (castAll castStint stints); [discriminate|]. now destruct Hstints.
Qed.

Lemma typing_turnLoop (n : nat) : typing (turnLoop lines n).
Proof.
  induction n as [|n IH]; intros s u s' Ht Hrun; cbn [turnLoop] in Hrun.
  - finish Hrun. exact Ht.
  - unfold turnBody in Hrun. run Hrun; finish Hrun; typed_state.
Qed.

Lemma typing_parseCriticalTurns : typing (parseCriticalTurns lines).
Proof.
  pose proof typing_skipEmpty. pose proof (typing_turnLoop (fuel lines)).
  intros s u s' Ht Hrun. unfold parseCriticalTurns in Hrun.
  run Hrun; finish Hrun; typed_state.
Qed.

Lemma typing_skipToEnd (n : nat) : typing (skipToEnd lines n).
Proof.
  induction n as [|n IH]; intros s u s' Ht Hrun; cbn [skipToEnd] in Hrun.
  - finish Hrun. exact Ht.
  - unfold skipToEndBody in Hrun. run Hrun; finish Hrun; typed_state.
Qed.

Lemma typing_winnerStintLoop (n : nat) :
  forall pwStints s r s',
  typed s -> (st_errors s = [] -> castAll castWinnerStint pwStints <> None) ->
  winnerStintLoop lines n pwStints s = Ok r s' ->
  typed s' /\ (st_errors s' = [] -> castAll castWinnerStint r <> None).
Proof.
  induction n as [|n IH]; intros pwStints s r s' Ht Hs Hrun;
    cbn [winnerStintLoop] in Hrun.
  - injection Hrun as <- <-. auto.
  - unfold winnerStintBody in Hrun. run Hrun.
    all: try (injection Hrun as <- <-; split; [typed_state|exact Hs]).
    all: apply IH in Hrun; [exact Hrun|typed_state|].
    all: intros He; no_error He; auto.
    apply castAll_snoc; [auto|]. valid_text.
    unfold castWinnerStint. cbn [fst]. fold asTire in Heqb2.
    destruct (asTire _); [discriminate|contradiction].
Qed.

Lemma typing_parsePreviousWinner : typing (parsePreviousWinner lines).
Proof.
  pose proof typing_skipEmpty. pose proof (typing_skipToEnd (fuel lines)).
  intros s u s' Ht Hrun. unfold parsePreviousWinner in Hrun.
  run Hrun.
  all: try (finish Hrun; typed_leaf; fail).
  1-2: finish Hrun; typed_leaf; cbn; discriminate.
  match type of Hrun with
  | context [winnerStintLoop ?l ?n ?x ?s] =>
      destruct (winnerStintLoop l n x s) as [pwStints sl|] eqn:Hloop;
        [|discriminate Hrun]
  end.
  apply typing_winnerStintLoop in Hloop as [Ht1 Hstints];
    [|typed_state|intros _; discriminate].
  finish Hrun; typed_leaf.
  unfold castPreviousWinner. cbn [t_pw_stints].
  destruct (castAll castWinnerStint pwStints); [discriminate|]. now destruct Hstints.
Qed.

Lemma typing_postParseValidation : typing postParseValidation.
Proof.
  intros s u s' Ht Hrun. unfold postParseValidation in Hrun.
  unfold get, pushWarning in Hrun.
  run Hrun; finish Hrun; typed_state.
Qed.

Lemma typing_bind {A B : Type} (m : M A) (k : A -> M B) :
  typing m -> (forall a, typing (k a)) -> typing (bind m k).
Proof.
  intros Hm Hk s b s' Ht Hrun. unfold bind in Hrun.
  destruct (m s) as [a s1|] eqn:E; [|discriminate].
  eapply Hk; [|exact Hrun]. eapply Hm; [exact Ht|exact E].
Qed.

End Typed.

Lemma typing_parseSections (numberToString : float -> string) (dslText : string) :
  typing (parseSections numberToString dslText).
Proof.
  unfold parseSections.
  apply typing_bind; [apply typing_parseRace|intros _].
  apply typing_bind; [apply typing_parseCar|intros _].
  apply typing_bind; [apply typing_parseTrack|intros _].
  apply typing_bind; [apply typing_parseStrategy|intros _].
  apply typing_bind; [apply typing_parseCriticalTurns|intros _].
  apply typing_bind; [apply typing_parsePreviousWinner|intros _].
  apply typing_postParseValidation.
Qed.

(** Without a diagnostic, the casts of [buildDocument] succeed: the document
    is missing only when one of the six required values is. *)
Lemma castable_document (s : PState) :
  castable s -> buildDocument s = None ->
  st_raceConfig s = None \/ st_carProfile s = None \/ st_trackAero s = None
  \/ st_trackOvertaking s = None \/ st_trackChance s = None \/ st_strategy s = None.
Proof.
  intros (Hr & Hc & Hx & Hw) H. unfold buildDocument in H.
  destruct (st_raceConfig s) as [r|]; [|auto].
  destruct (st_carProfile s) as [c|]; [|auto].
  destruct (st_trackAero s); [|auto].
  destruct (st_trackOvertaking s); [|auto].
  destruct (st_trackChance s); [|auto 6].
  destruct (st_strategy s) as [x|]; [|auto 6].
  specialize (Hr r eq_refl). specialize (Hc c eq_refl). specialize (Hx x eq_refl).
  destruct (castRaceConfig r); [|contradiction].
  destruct (castCarProfile c); [|contradiction].
  destruct (castStrategy x); [|contradiction].
  destruct (castPreviousWinner (st_previousWinner s)); [discriminate|contradiction].
Qed.

Lemma document_built (numberToString : float -> string) (dslText : string)
    (u : unit) (s : PState) :
  parseSections numberToString dslText initialPState = Ok u s ->
  st_errors s = [] -> buildDocument s = None ->
  st_raceConfig s = None \/ st_carProfile s = None \/ st_trackAero s = None
  \/ st_trackOvertaking s = None \/ st_trackChance s = None \/ st_strategy s = None.
Proof.
  intros Hrun He. apply castable_document.
  exact (typing_parseSections _ _ _ _ _ typed_initial Hrun He).
Qed.

(** ** The parser never throws *)

Lemma returns_bind {A B : Type} (m : M A) (k : A -> M B) :
  returns m -> (forall a, returns (k a)) -> returns (bind m k).
Proof.
  intros Hm Hk s. unfold bind. destruct (Hm s) as (a & s1 & E). rewrite E. apply Hk.
Qed.

Lemma line_present (lines : list string) (i : nat) :
  (List.length lines <=? i)%nat = false -> nth_error lines i = None -> False.
Proof.
  intros Hlt Hnone. apply Nat.leb_gt in Hlt. apply nth_error_None in Hnone. lia.
Qed.

(** Symbolic execution of a goal [exists a s', m s = Ok a s']. *)
Ltac returns_tac :=
  unfold bind, atEnd, currentLine, advance, addError, pushWarning, whenM,
    modify, ret, get;
  repeat (cbv beta zeta;
          match goal with
          | |- context [match ?m ?s with Ok _ _ => _ | Throw _ _ => _ end] =>
              match goal with
              | L : returns m |- _ =>
                  let E := fresh "E" in
                  destruct (L s) as (? & ? & E); rewrite E; clear E
              end
          | |- context [if ?b then _ else _] => destruct b eqn:?
          | |- context [match nth_error ?l ?i with _ => _ end] =>
              destruct (nth_error l i) eqn:?;
                [|exfalso; eapply line_present; eassumption]
          | |- context [match ?x with Some _ => _ | None => _ end] =>
              destruct x eqn:?
          end);
  cbv beta;
  first [ do 2 eexists; reflexivity
        | match goal with
          | L : returns ?m |- exists a s', ?m ?s = Ok a s' => apply L
          | L : context [returns] |- exists a s', _ = Ok a s' => apply L
          end ].

Section Returns.

Variable numberToString : float -> string.
Variable lines : list string.

Lemma returns_skipEmptyLoop (n : nat) : returns (skipEmptyLoop lines n).
Proof.
  induction n as [|n IH]; intros s; cbn [skipEmptyLoop];
    [|unfold skipEmptyBody]; returns_tac.
Qed.

Lemma returns_skipEmpty : returns (skipEmpty lines).
Proof. apply returns_skipEmptyLoop. Qed.

Lemma returns_parseRace : returns (parseRace lines).
Proof.
  pose proof returns_skipEmpty. intros s. unfold parseRace. returns_tac.
Qed.

Lemma returns_parseCar : returns (parseCar lines).
Proof.
  pose proof returns_skipEmpty. intros s. unfold parseCar. returns_tac.
Qed.

Lemma returns_parseTrack : returns (parseTrack numberToString lines).
Proof.
  pose proof returns_skipEmpty. intros s.
  unfold parseTrack, parseTrackAero, parseTrackOvertaking. returns_tac.
Qed.

Lemma returns_stintLoop (n : nat) : forall stints, returns (stintLoop lines n stints).
Proof.
  induction n as [|n IH]; intros stints s; cbn [stintLoop];
    [|unfold stintBody]; returns_tac.
Qed.

Lemma returns_parseStrategy : returns (parseStrategy lines).
Proof.
  pose proof returns_skipEmpty. pose proof (returns_stintLoop (fuel lines) []).
  intros s. unfold parseStrategy. returns_tac.
Qed.

Lemma returns_turnLoop (n : nat) : returns (turnLoop lines n).
Proof.
  induction n as [|n IH]; intros s; cbn [turnLoop];
    [|unfold turnBody]; returns_tac.
Qed.

Lemma returns_parseCriticalTurns : returns (parseCriticalTurns lines).
Proof.
  pose proof returns_skipEmpty. pose proof (returns_turnLoop (fuel lines)).
  intros s. unfold parseCriticalTurns. returns_tac.
Qed.

Lemma returns_skipToEnd (n : nat) : returns (skipToEnd lines n).
Proof.
  induction n as [|n IH]; intros s; cbn [skipToEnd];
    [|unfold skipToEndBody]; returns_tac.
Qed.

Lemma returns_winnerStintLoop (n : nat) :
  forall pwStints, returns (winnerStintLoop lines n pwStints).
Proof.
  induction n as [|n IH]; intros pwStints s; cbn [winnerStintLoop];
    [|unfold winnerStintBody]; returns_tac.
Qed.

Lemma returns_parsePreviousWinner : returns (parsePreviousWinner lines).
Proof.
  pose proof returns_skipEmpty. pose proof (returns_skipToEnd (fuel lines)).
  pose proof (returns_winnerStintLoop (fuel lines) []).
  intros s. unfold parsePreviousWinner. returns_tac.
Qed.

Lemma returns_postParseValidation : returns postParseValidation.
Proof. intros s. unfold postParseValidation. returns_tac. Qed.

End Returns.

Lemma returns_buildResult (dslText : string) : returns (buildResult dslText).
Proof. intros s. unfold buildResult. returns_tac. Qed.

(** The [try] block never throws: no line is read past the end of the text,
    and the [catch] clause is never entered. *)
Lemma parseBody_returns (numberToString : float -> string) (dslText : string) :
  returns (parseBody numberToString dslText).
Proof.
  unfold parseBody, parseSections.
  apply returns_bind; [|intros _; apply returns_buildResult].
  apply returns_bind; [apply returns_parseRace|intros _].
  apply returns_bind; [apply returns_parseCar|intros _].
  apply returns_bind; [apply returns_parseTrack|intros _].
  apply returns_bind; [apply returns_parseStrategy|intros _].
  apply returns_bind; [apply returns_parseCriticalTurns|intros _].
  apply returns_bind; [apply returns_parsePreviousWinner|intros _].
  apply returns_postParseValidation.
Qed.

(** The result of [parseStrategyDSL] is the one its [try] block returns. *)
Lemma parseStrategyDSL_returned (numberToString : float -> string) (dslText : string) :
  exists s,
    parseBody numberToString dslText initialPState
    = Ok (parseStrategyDSL numberToString dslText) s.
Proof.
  unfold parseStrategyDSL.
  destruct (parseBody_returns numberToString dslText initialPState) as (r & s & E).
  rewrite E. exists s. reflexivity.
Qed.

(** ** The shape of the result *)

Lemma bind_Ok {A B : Type} (m : M A) (k : A -> M B) (s s' : PState) (b : B) :
  bind m k s = Ok b s' -> exists a s1, m s = Ok a s1 /\ k a s1 = Ok b s'.
Proof.
  unfold bind. destruct (m s) as [a s1|msg s1]; [|discriminate].
  intros H. exists a, s1. split; [reflexivity|exact H].
Qed.

Lemma buildResult_cases (dslText : string) (s s' : PState) (r : DSLParseResult) :
  buildResult dslText s = Ok r s' ->
  (st_errors s = [] /\ exists d, buildDocument s = Some d /\
     r = {| success := true; data := Some d; errors := [];
            parse_warnings := st_warnings s; rawDSL := dslText |})
  \/ failed r.
Proof.
  unfold buildResult, bind, get, ret.
  destruct (st_errors s) as [|e es] eqn:He; cbn [List.length Nat.ltb Nat.leb].
  - destruct (buildDocument s) as [d|].
    + intros [= <- _]. left. split; [reflexivity|]. exists d. split; reflexivity.
    + cbn. rewrite He. intros [= <- _]. right. repeat split. cbn. discriminate.
  - intros [= <- _]. right. repeat split. cbn. rewrite He. discriminate.
Qed.

(** C3.  For every input text [parseStrategyDSL] returns a result, and
    returns it from its [try] block: nothing is thrown there, since no line
    is read past the end of the text, and the [catch] clause is not entered.
    The result has exactly one of two shapes: success with a document and an
    empty error list, or failure with a non-empty error list and no
    document. *)
Theorem parse_result_exclusive (numberToString : float -> string) (dslText : string) :
  let r := parseStrategyDSL numberToString dslText in
  (exists s, parseBody numberToString dslText initialPState = Ok r s)
  /\ ((success r = true /\ (exists d, data r = Some d) /\ errors r = [])
      \/ (success r = false /\ data r = None /\ errors r <> [])).
Proof.
  cbv zeta. split; [apply parseStrategyDSL_returned|].
  unfold parseStrategyDSL.
  destruct (parseBody numberToString dslText initialPState) as [r s|msg s] eqn:Hbody.
  - unfold parseBody in Hbody.
    apply bind_Ok in Hbody. destruct Hbody as ([] & s1 & _ & Hbuild).
    apply buildResult_cases in Hbuild.
    destruct Hbuild as [(_ & d & _ & ->)|Hfail].
    + left. repeat split. exists d. reflexivity.
    + right. exact Hfail.
  - right. repeat split. cbn. discriminate.
Qed.

(** ** The lap-count warning *)

Lemma append_assoc (a b c : string) : ((a ++ b) ++ c = a ++ (b ++ c))%string.
Proof. induction a as [|x a IH]; cbn; [reflexivity|]. rewrite IH. reflexivity. Qed.

Lemma prefix_append (t q : string) : prefix t (t ++ q) = true.
Proof.
  induction t as [|c t IH]; cbn; [destruct q; reflexivity|].
  destruct (ascii_dec c c); [exact IH|congruence].
Qed.

Lemma includes_append (t p s : string) :
  includes t s = true -> includes t (p ++ s) = true.
Proof.
  intros H. induction p as [|c p IH]; cbn [append]; [exact H|].
  cbn [includes]. rewrite IH. apply orb_true_r.
Qed.

Lemma includes_start (t q : string) : includes t (t ++ q) = true.
Proof.
  destruct (t ++ q)%string eqn:E; cbn [includes]; rewrite <- E, prefix_append; reflexivity.
Qed.

Lemma append_empty (a : string) : (a ++ EmptyString)%string = a.
Proof. induction a as [|x a IH]; cbn; [reflexivity|]. rewrite IH. reflexivity. Qed.

Lemma cat_cons (x : string) (xs : list string) : cat (x :: xs) = (x ++ cat xs)%string.
Proof.
  unfold cat. destruct xs as [|y ys]; cbn [String.concat append];
    [rewrite append_empty|]; reflexivity.
Qed.

Lemma lapMismatchWarning_phrase (total raceLaps : Z) :
  includes mismatchPhrase (lapMismatchWarning total raceLaps) = true.
Proof.
  unfold lapMismatchWarning. rewrite !cat_cons.
  apply includes_append, includes_append.
  change (") does not match race laps (")%string
    with (") " ++ (mismatchPhrase ++ " ("))%string.
  rewrite append_assoc. apply includes_append.
  rewrite append_assoc. apply includes_start.
Qed.

Lemma wetTireWarning_phrase : includes mismatchPhrase wetTireWarning = false.
Proof. vm_compute. reflexivity. Qed.

(** What the checks after the section parsers do to the warnings. *)
Lemma postParseValidation_warnings (s : PState) (r : RaceConfigText) (x : StrategyText) :
  st_raceConfig s = Some r -> st_strategy s = Some x ->
  exists s',
    postParseValidation s = Ok tt s'
    /\ st_raceConfig s' = Some r /\ st_strategy s' = Some x
    /\ st_carProfile s' = st_carProfile s
    /\ exists others,
         mismatchWarnings others = []
         /\ st_warnings s' =
            st_warnings s
            ++ (if totalStintLaps (t_stints x) =? t_totalLaps r then []
                else [lapMismatchWarning (totalStintLaps (t_stints x)) (t_totalLaps r)])
            ++ others.
Proof.
  intros Hr Hx.
  unfold postParseValidation, bind, get, whenM, pushWarning, addError, modify, ret.
  rewrite Hr, Hx.
  destruct (totalStintLaps (t_stints x) =? t_totalLaps r);
    destruct (String.eqb (t_weather r) "wet");
    try match goal with |- context [existsb ?f ?l] => destruct (existsb f l) end;
    cbn [negb st_raceConfig st_carProfile set_warnings set_errors];
    destruct (st_carProfile s) as [c|] eqn:Hc;
    try destruct (t_startingGridPosition c >? t_fieldSize r);
    eexists; (split; [reflexivity|]);
    cbn [st_raceConfig st_strategy st_carProfile st_warnings set_warnings set_errors];
    (split; [exact Hr|]); (split; [exact Hx|]); (split; [exact Hc|]);
    first [ exists []; split; [reflexivity|]; rewrite ?app_nil_r; reflexivity
          | exists [wetTireWarning]; split;
            [ unfold mismatchWarnings; cbn [filter]; rewrite wetTireWarning_phrase;
              reflexivity
            | rewrite <- ?app_assoc; reflexivity ] ].
Qed.

Lemma postParseValidation_keeps (s s' : PState) :
  postParseValidation s = Ok tt s' ->
  st_raceConfig s' = st_raceConfig s /\ st_strategy s' = st_strategy s.
Proof.
  unfold postParseValidation, bind, get, whenM, pushWarning, addError, modify, ret.
  destruct (st_raceConfig s) as [r|] eqn:Hr; destruct (st_strategy s) as [x|] eqn:Hx;
    destruct (st_carProfile s) as [c|] eqn:Hc;
    repeat match goal with
           | |- context [if ?b then _ else _] => destruct b
           end;
    cbn [st_raceConfig st_carProfile set_warnings set_errors];
    rewrite ?Hr, ?Hc;
    repeat match goal with
           | |- context [if ?b then _ else _] => destruct b
           end;
    intros [= <-]; cbn; split; assumption.
Qed.

Lemma steady_Ok {A : Type} (m : M A) (s s' : PState) (a : A) :
  steady m -> m s = Ok a s' -> st_warnings s' = st_warnings s.
Proof. intros Hm Heq. specialize (Hm s). rewrite Heq in Hm. apply Hm. Qed.

(** The section parsers raise no warning: the checks that follow them start
    from an empty warning list. *)
Lemma sections_then_validation
    (numberToString : float -> string) (dslText : string) (s1 : PState) :
  parseSections numberToString dslText initialPState = Ok tt s1 ->
  exists s0, st_warnings s0 = [] /\ postParseValidation s0 = Ok tt s1.
Proof.
  unfold parseSections. intros H.
  apply bind_Ok in H. destruct H as ([] & sa & Ha & H).
  apply bind_Ok in H. destruct H as ([] & sb & Hb & H).
  apply bind_Ok in H. destruct H as ([] & sc & Hc & H).
  apply bind_Ok in H. destruct H as ([] & sd & Hd & H).
  apply bind_Ok in H. destruct H as ([] & se & He & H).
  apply bind_Ok in H. destruct H as ([] & sf & Hf & H).
  exists sf. split; [|exact H].
  rewrite (steady_Ok _ _ _ _ (steady_parsePreviousWinner _) Hf).
  rewrite (steady_Ok _ _ _ _ (steady_parseCriticalTurns _) He).
  rewrite (steady_Ok _ _ _ _ (steady_parseStrategy _) Hd).
  rewrite (steady_Ok _ _ _ _ (steady_parseTrack _ _) Hc).
  rewrite (steady_Ok _ _ _ _ (steady_parseCar _) Hb).
  rewrite (steady_Ok _ _ _ _ (steady_parseRace _) Ha).
  reflexivity.
Qed.

(** The casts keep the numbers. *)
Lemma castAll_laps (xs : list StintText) (ys : list Stint) :
  castAll castStint xs = Some ys ->
  map lapsInStint ys = map t_lapsInStint xs.
Proof.
  revert ys. induction xs as [|x xs IH]; intros ys; cbn [castAll].
  - intros [= <-]. reflexivity.
  - unfold castStint at 1. destruct (asTire (t_tireCompound x)); [|discriminate].
    destruct (castAll castStint xs) as [ys'|]; [|discriminate].
    intros [= <-]. cbn. f_equal. apply IH. reflexivity.
Qed.

Lemma totalStintLaps_sum (xs : list StintText) :
  totalStintLaps xs = sumZ (map t_lapsInStint xs).
Proof.
  unfold totalStintLaps.
  assert (H : forall acc, fold_left (fun sum s => sum + t_lapsInStint s) xs acc
                          = acc + sumZ (map t_lapsInStint xs)).
  { unfold sumZ. induction xs as [|x xs IH]; intros acc;
      cbn [fold_left map fold_right]; [lia|]. rewrite IH. lia. }
  apply H.
Qed.

Lemma buildDocument_laps (s : PState) (d : ParsedDSL) :
  buildDocument s = Some d ->
  exists r x,
    st_raceConfig s = Some r /\ st_strategy s = Some x
    /\ totalLaps (raceConfig d) = t_totalLaps r
    /\ sumZ (map lapsInStint (stints (strategy d))) = totalStintLaps (t_stints x).
Proof.
  unfold buildDocument.
  destruct (st_raceConfig s) as [r|]; [|discriminate].
  destruct (st_carProfile s) as [c|]; [|discriminate].
  destruct (st_trackAero s); [|discriminate].
  destruct (st_trackOvertaking s); [|discriminate].
  destruct (st_trackChance s); [|discriminate].
  destruct (st_strategy s) as [x|]; [|discriminate].
  unfold castRaceConfig, castStrategy.
  destruct (asWeather (t_weather r)); [|discriminate].
  destruct (castCarProfile c); [|discriminate].
  destruct (castAll castStint (t_stints x)) as [ys|] eqn:Hys; [|discriminate].
  destruct (castPreviousWinner _); [|discriminate].
  intros [= <-]. exists r, x. cbn.
  repeat split. rewrite totalStintLaps_sum, (castAll_laps _ _ Hys). reflexivity.
Qed.

(** C7.  When the parse raises no blocking diagnostic, it succeeds with a
    document; if the laps of the stints do not add up to the laps of the
    race, exactly one warning contains "does not match race laps", and if
    they do, none does. *)
Theorem lap_mismatch_is_one_warning
    (numberToString : float -> string) (dslText : string) :
  let r := parseStrategyDSL numberToString dslText in
  errors r = [] ->
  success r = true
  /\ exists d,
       data r = Some d
       /\ let total := sumZ (map lapsInStint (stints (strategy d))) in
          (total <> totalLaps (raceConfig d) ->
           List.length (mismatchWarnings (parse_warnings r)) = 1%nat)
          /\ (total = totalLaps (raceConfig d) ->
              mismatchWarnings (parse_warnings r) = []).
Proof.
  cbv zeta. unfold parseStrategyDSL.
  destruct (parseBody numberToString dslText initialPState) as [r s|msg s] eqn:Hbody;
    [|cbn; discriminate].
  unfold parseBody in Hbody.
  apply bind_Ok in Hbody. destruct Hbody as ([] & s1 & Hsections & Hbuild).
  apply buildResult_cases in Hbuild.
  destruct Hbuild as [(_ & d & Hdoc & ->)|(_ & _ & Hfail)]; [|intros H; contradiction].
  intros _. cbn [success data parse_warnings].
  split; [reflexivity|]. exists d. split; [reflexivity|].
  destruct (buildDocument_laps _ _ Hdoc) as (r & x & Hr & Hx & -> & ->).
  destruct (sections_then_validation _ _ _ Hsections) as (s0 & Hw0 & Hpost).
  destruct (postParseValidation_keeps _ _ Hpost) as [Hr0 Hx0].
  rewrite Hr in Hr0. rewrite Hx in Hx0.
  destruct (postParseValidation_warnings s0 r x (eq_sym Hr0) (eq_sym Hx0))
    as (s1' & Hpost' & _ & _ & _ & others & Hothers & Hw).
  rewrite Hpost in Hpost'. injection Hpost' as <-.
  rewrite Hw, Hw0. cbn [app].
  unfold mismatchWarnings in *.
  destruct (totalStintLaps (t_stints x) =? t_totalLaps r) eqn:E.
  - apply Z.eqb_eq in E. cbn [app]. rewrite Hothers.
    split; [intros H; contradiction|reflexivity].
  - apply Z.eqb_neq in E. cbn [app filter].
    rewrite lapMismatchWarning_phrase, Hothers.
    split; [reflexivity|intros H; contradiction].
Qed.

Lemma lap_mismatch_is_one_warning_witness :
  let r := parseStrategyDSL (fun _ => EmptyString) shortStintsText in
  errors r = []
  /\ success r = true
  /\ exists d,
       data r = Some d
       /\ let total := sumZ (map lapsInStint (stints (strategy d))) in
          (total <> totalLaps (raceConfig d) ->
           List.length (mismatchWarnings (parse_warnings r)) = 1%nat)
          /\ (total = totalLaps (raceConfig d) ->
              mismatchWarnings (parse_warnings r) = []).
Proof.
  split; [vm_compute; reflexivity|].
  apply (lap_mismatch_is_one_warning (fun _ => EmptyString) shortStintsText).
  vm_compute. reflexivity.
Defined.
